(** * Single_Transistor_SA: the table-resizing core (OPS/DF_OPS.py) and the
      SI formatter (main_app.py), embedded and verified.

    Conventions of the embedding.

    - Numbers.  The source computes with IEEE doubles.  The embedding keeps the
      IEEE special values (inf, -inf, nan) and takes every finite value as an
      exact rational: rounding, overflow and the sign of zero are not modelled.
      Equality of numbers is [xeq] (equality of rationals on finite values).
    - Strings are sequences of code points below 256; the character classes of
      [re] are the ones Python uses on that range.
    - A DataFrame is a heap object: a list of column names and a list of rows,
      each row carrying its index label and its cells.  Index labels are
      natural numbers (the RangeIndex of a frame read from a file).
    - Methods run in a state-and-exception monad over the heap of frames and
      the attributes of the one [DF_OPS] object. *)

From Stdlib Require Import QArith Qround Qabs Lqa String Ascii List.
From stdpp Require Import gmap strings list fin_maps sorting.

Local Open Scope string_scope.
Local Open Scope list_scope.

(* ===================================================================== *)
(** * Numbers                                                             *)
(* ===================================================================== *)

Inductive xnum : Type :=
  | Fin (q : Q)
  | PInf
  | NInf
  | NaN.

Definition xnum_of_Z (z : Z) : xnum := Fin (inject_Z z).

(** [sign_pick q pos neg] is the infinity a product or quotient with the
    finite factor [q] yields: [pos] for q > 0, [neg] for q < 0, nan for 0. *)
Definition sign_pick (q : Q) (pos neg : xnum) : xnum :=
  match (q ?= 0)%Q with
  | Gt => pos
  | Lt => neg
  | Eq => NaN
  end.

Definition xmul (x y : xnum) : xnum :=
  match x, y with
  | NaN, _ | _, NaN => NaN
  | Fin a, Fin b => Fin (a * b)
  | Fin a, PInf | PInf, Fin a => sign_pick a PInf NInf
  | Fin a, NInf | NInf, Fin a => sign_pick a NInf PInf
  | PInf, PInf | NInf, NInf => PInf
  | PInf, NInf | NInf, PInf => NInf
  end.

Definition xdiv (x y : xnum) : xnum :=
  match x, y with
  | NaN, _ | _, NaN => NaN
  | Fin a, Fin b =>
      if Qeq_bool b 0 then sign_pick a PInf NInf else Fin (a / b)
  | Fin _, (PInf | NInf) => Fin 0
  | PInf, Fin b => match (b ?= 0)%Q with Lt => NInf | _ => PInf end
  | NInf, Fin b => match (b ?= 0)%Q with Lt => PInf | _ => NInf end
  | (PInf | NInf), (PInf | NInf) => NaN
  end.

Definition xadd (x y : xnum) : xnum :=
  match x, y with
  | NaN, _ | _, NaN => NaN
  | Fin a, Fin b => Fin (a + b)
  | PInf, NInf | NInf, PInf => NaN
  | PInf, _ | _, PInf => PInf
  | NInf, _ | _, NInf => NInf
  end.

Definition xopp (x : xnum) : xnum :=
  match x with
  | Fin a => Fin (- a)
  | PInf => NInf
  | NInf => PInf
  | NaN => NaN
  end.

Definition xsub (x y : xnum) : xnum := xadd x (xopp y).

Definition xabs (x : xnum) : xnum :=
  match x with
  | Fin a => Fin (Qabs a)
  | PInf | NInf => PInf
  | NaN => NaN
  end.

(** Comparisons: every comparison with nan is false. *)
Definition xleb (x y : xnum) : bool :=
  match x, y with
  | NaN, _ | _, NaN => false
  | Fin a, Fin b => Qle_bool a b
  | NInf, _ => true
  | _, PInf => true
  | _, _ => false
  end.

Definition xltb (x y : xnum) : bool :=
  match x, y with
  | NaN, _ | _, NaN => false
  | Fin a, Fin b => negb (Qle_bool b a)
  | NInf, NInf | PInf, PInf => false
  | NInf, _ => true
  | _, PInf => true
  | _, _ => false
  end.

Definition xgeb (x y : xnum) : bool := xleb y x.
Definition xgtb (x y : xnum) : bool := xltb y x.

(** Equality of values: rationals up to [Qeq]. *)
Definition xeq (x y : xnum) : Prop :=
  match x, y with
  | Fin a, Fin b => (a == b)%Q
  | PInf, PInf | NInf, NInf | NaN, NaN => True
  | _, _ => False
  end.


(** Decimal scientific constants: [sci m e] is m * 10^e. *)
Definition pow10 (e : Z) : Q :=
  match e with
  | Z0 => 1
  | Zpos p => inject_Z (10 ^ Zpos p)
  | Zneg p => 1 # (Pos.pow 10 p)
  end.

Definition sci (m : Q) (e : Z) : xnum := Fin (m * pow10 e).

(** [math.pi], the double 0x400921FB54442D18, as the rational it is. *)
Definition math_pi : xnum := Fin (884279719003555 # 281474976710656).

(* ===================================================================== *)
(** * Characters and the [re] patterns of the source                      *)
(* ===================================================================== *)

Definition code (c : ascii) : N := N_of_ascii c.

Definition in_range (lo hi : N) (c : ascii) : bool :=
  (lo <=? code c)%N && (code c <=? hi)%N.

(** [\s] on code points below 256: TAB..CR, FS..US, space, NEL, NBSP. *)
Definition is_space (c : ascii) : bool :=
  in_range 9 13 c || in_range 28 32 c || (code c =? 133)%N || (code c =? 160)%N.

(** [\S] *)
Definition is_nonspace (c : ascii) : bool := negb (is_space c).

(** [\d] on code points below 256. *)
Definition is_digit (c : ascii) : bool := in_range 48 57 c.

Definition one_of (set : string) (c : ascii) : bool :=
  existsb (fun d => (code d =? code c)%N) (list_ascii_of_string set).

(** A pattern is a sequence of greedy quantified character classes:
    [cls{lo,hi}], [hi = None] for unbounded. *)
Record atom : Type := Atom {
  cls : ascii -> bool;
  lo : nat;
  hi : option nat
}.

Definition star (p : ascii -> bool) : atom := Atom p 0 None.
Definition plus (p : ascii -> bool) : atom := Atom p 1 None.
Definition opt (p : ascii -> bool) : atom := Atom p 0 (Some 1).
Definition once (p : ascii -> bool) : atom := Atom p 1 (Some 1).

(** Length of the longest prefix of [s] in class [p], at most [bound]. *)
Fixpoint span (p : ascii -> bool) (bound : option nat) (s : list ascii) : nat :=
  match bound, s with
  | Some O, _ => O
  | _, [] => O
  | _, c :: r =>
      if p c then S (span p (pred <$> bound) r) else O
  end.

(** Greedy choice with backtracking: the largest count [k' <= k], [k' >= lo],
    for which the continuation [f] succeeds. *)
Fixpoint first_down {B} (f : nat -> option B) (lo k : nat) : option B :=
  match (if (lo <=? k)%nat then f k else None) with
  | Some r => Some r
  | None => match k with O => None | S k' => first_down f lo k' end
  end.

(** [re.match]: the match is anchored at the start only.  The result is the
    text each atom matched, for the first success in backtracking order. *)
Fixpoint re_match (pat : list atom) (s : list ascii) : option (list (list ascii)) :=
  match pat with
  | [] => Some []
  | a :: rest =>
      first_down
        (fun k => match re_match rest (drop k s) with
                  | Some gs => Some (take k s :: gs)
                  | None => None
                  end)
        (lo a) (span (cls a) (hi a) s)
  end.

Definition str (cs : list ascii) : string := string_of_list_ascii cs.
Definition chars (s : string) : list ascii := list_ascii_of_string s.

(* ===================================================================== *)
(** * Exceptions                                                          *)
(* ===================================================================== *)

Inductive exn : Type :=
  | ValueError (msg : string)
  | KeyError (key : string)
  | TypeError
  | AttributeError (name : string)
  | UndefinedVariableError (name : string)
  | SyntaxError
  | Exception (msg : string).

Inductive result (A : Type) : Type :=
  | Ok (a : A)
  | Raise (e : exn).
Arguments Ok {A} a.
Arguments Raise {A} e.

(* ===================================================================== *)
(** * [float(str)]                                                        *)
(* ===================================================================== *)

Definition digit_val (c : ascii) : Z := Z.of_N (code c) - 48.

(** Value of a digit string, most significant digit first. *)
Definition digits_val (ds : list ascii) : Z :=
  fold_left (fun acc c => 10 * acc + digit_val c)%Z ds 0%Z.

(** digitpart ::= digit (["_"] digit)*, read greedily.  [digitpart_tail]
    reads what may follow a digit; both return the digits read and the
    remaining text ([[]] digits when the text starts with none). *)
Fixpoint digitpart_tail (cs : list ascii) : list ascii * list ascii :=
  match cs with
  | c :: r =>
      if is_digit c then
        let '(ds, r') := digitpart_tail r in (c :: ds, r')
      else if (code c =? 95)%N then
        match r with
        | d :: r2 =>
            if is_digit d then
              let '(ds, r') := digitpart_tail r2 in (d :: ds, r')
            else ([], cs)
        | [] => ([], cs)
        end
      else ([], cs)
  | [] => ([], [])
  end.

Definition digitpart (cs : list ascii) : list ascii * list ascii :=
  match cs with
  | c :: r =>
      if is_digit c then
        let '(ds, r') := digitpart_tail r in (c :: ds, r')
      else ([], cs)
  | [] => ([], [])
  end.

Fixpoint dropwhile (p : ascii -> bool) (cs : list ascii) : list ascii :=
  match cs with
  | c :: r => if p c then dropwhile p r else cs
  | [] => []
  end.

Definition strip (cs : list ascii) : list ascii :=
  rev (dropwhile is_space (rev (dropwhile is_space cs))).

Definition lower (c : ascii) : ascii :=
  if in_range 65 90 c then ascii_of_N (code c + 32) else c.

Definition take_sign (cs : list ascii) : bool * list ascii :=
  match cs with
  | c :: r =>
      if (code c =? 45)%N then (true, r)
      else if (code c =? 43)%N then (false, r)
      else (false, cs)
  | [] => (false, [])
  end.

(** exponent ::= ("e" | "E") [sign] digitpart, then the end of the text. *)
Definition exponent (cs : list ascii) : option Z :=
  match cs with
  | [] => Some 0%Z
  | c :: r =>
      if (code (lower c) =? 101)%N then
        let '(neg, r1) := take_sign r in
        match digitpart r1 with
        | (d :: ds, []) =>
            let e := digits_val (d :: ds) in Some (if neg then - e else e)%Z
        | _ => None
        end
      else None
  end.

(** floatnumber ::= ([digitpart] "." digitpart | digitpart ["."]) [exponent] *)
Definition floatnumber (cs : list ascii) : option Q :=
  let '(ip, r1) := digitpart cs in
  let '(fp, r2) :=
    match r1 with
    | c :: r => if (code c =? 46)%N then digitpart r else ([], r1)
    | [] => ([], [])
    end in
  match ip, fp with
  | [], [] => None
  | _, _ =>
      match exponent r2 with
      | Some e =>
          Some (inject_Z (digits_val (ip ++ fp))
                * pow10 (e - Z.of_nat (length fp)))%Q
      | None => None
      end
  end.

(** [float(s)] for a string [s]: [None] stands for ValueError. *)
Definition py_float (s : string) : option xnum :=
  let '(neg, body) := take_sign (strip (chars s)) in
  let word := str (map lower body) in
  if (word =? "inf") || (word =? "infinity") then
    Some (if neg then NInf else PInf)
  else if word =? "nan" then Some NaN
  else match floatnumber body with
       | Some q => Some (Fin (if neg then - q else q))
       | None => None
       end.

(* ===================================================================== *)
(** * OPS/DF_OPS.py: parse_condition, parse_from_number                   *)
(* ===================================================================== *)

(** r'(\S+)\s*(=|<|>)\s*(\S+)' *)
Definition condition_pattern : list atom :=
  [plus is_nonspace; star is_space; once (one_of "=<>");
   star is_space; plus is_nonspace].

Definition parse_condition (condition : string)
  : result (string * string * string) :=
  match re_match condition_pattern (chars condition) with
  | Some [lhs; _; op; _; rhs] => Ok (str lhs, str op, str rhs)
  | _ => Raise (ValueError ("Invalid condition format: " ++ condition))
  end.

(** The [units] dictionary. *)
Definition units : list (string * xnum) :=
  [("T", sci 1 12); ("G", sci 1 9); ("M", sci 1 6); ("k", sci 1 3);
   ("", Fin 1); ("m", sci 1 (-3)); ("u", sci 1 (-6)); ("n", sci 1 (-9));
   ("p", sci 1 (-12)); ("f", sci 1 (-15))].

Definition dict_get {V} (d : list (string * V)) (k : string) : option V :=
  snd <$> find (fun kv => (fst kv =? k)) d.

(** r"([-+]?\d*\.?\d+)([TGMkmunpf]?)" *)
Definition number_pattern : list atom :=
  [opt (one_of "-+"); star is_digit; opt (one_of "."); plus is_digit;
   opt (one_of "TGMkmunpf")].

Definition parse_from_number (formatted_value : string) : result xnum :=
  match re_match number_pattern (chars formatted_value) with
  | Some [sg; d1; dot; d2; u] =>
      match py_float (str (sg ++ d1 ++ dot ++ d2)) with
      | None => Raise (ValueError "could not convert string to float")
      | Some number =>
          let unit := str u in
          match dict_get units unit with
          | None => Raise (ValueError "Invalid unit in formatted value")
          | Some scale => Ok (xmul number scale)
          end
      end
  | _ => Raise (ValueError "Invalid formatted value")
  end.

(* ===================================================================== *)
(** * main_app.py: format_with_units                                      *)
(* ===================================================================== *)

(** Decimal digits of a non-negative integer; [fuel] bounds the number of
    digits. *)
Definition digit_char (d : Z) : ascii := ascii_of_N (Z.to_N d + 48).

Fixpoint digits_of (fuel : nat) (n : Z) : list ascii :=
  match fuel with
  | O => []
  | S fuel' =>
      let d := digit_char (n mod 10) in
      if (n <? 10)%Z then [d] else digits_of fuel' (n / 10) ++ [d]
  end.

Definition Z_digits (n : Z) : list ascii :=
  digits_of (S (Z.to_nat (Z.log2 n))) n.

(** Nearest integer, ties to even. *)
Definition round_half_even (q : Q) : Z :=
  let f := Qfloor q in
  let r := (q - inject_Z f)%Q in
  match (r ?= 1 # 2)%Q with
  | Lt => f
  | Gt => (f + 1)%Z
  | Eq => if Z.even f then f else (f + 1)%Z
  end.

(** A decimal with two places: sign, integer digits, point, two digits;
    [n] is the value in hundredths. *)
Definition decimal2 (neg : bool) (n : Z) : list ascii :=
  (if neg then chars "-" else [])
    ++ Z_digits (n / 100) ++ chars "."
    ++ Z_digits (n mod 100 / 10) ++ Z_digits ((n mod 100) mod 10).

(** f"{x:.2f}" *)
Definition format_2f (x : xnum) : list ascii :=
  match x with
  | Fin q => decimal2 (negb (Qle_bool 0 q)) (round_half_even (Qabs q * 100))
  | PInf => chars "inf"
  | NInf => chars "-inf"
  | NaN => chars "nan"
  end.

(** str(round(value, 2)): two decimals, trailing zeros dropped down to one. *)
Definition str_round2 (x : xnum) : list ascii :=
  match x with
  | Fin q =>
      let n := round_half_even (Qabs q * 100) in
      let frac := (n mod 100)%Z in
      (if Qle_bool 0 q then [] else chars "-")
        ++ Z_digits (n / 100) ++ chars "."
        ++ Z_digits (frac / 10)
        ++ (if (frac mod 10 =? 0)%Z then [] else Z_digits (frac mod 10))
  | _ => format_2f x
  end.

Definition si_units : list string :=
  ["T"; "G"; "M"; "k"; ""; "m"; "u"; "n"; "p"; "f"].
Definition si_scales : list xnum :=
  [sci 1 12; sci 1 9; sci 1 6; sci 1 3; Fin 1; sci 1 (-3); sci 1 (-6);
   sci 1 (-9); sci 1 (-12); sci 1 (-15)].

(** The [for unit, scale in zip(units, scales)] loop with its early return;
    falling out of the loop reaches the final [return]. *)
Fixpoint format_loop (table : list (string * xnum)) (value : xnum) : string :=
  match table with
  | (unit, scale) :: rest =>
      if xgeb (xabs value) scale || (unit =? "f") then
        str (format_2f (xdiv value scale) ++ chars unit)
      else format_loop rest value
  | [] => str (str_round2 value)
  end.

Definition format_with_units (value : xnum) : string :=
  format_loop (zip si_units si_scales) value.

(* ===================================================================== *)
(** * DataFrames                                                          *)
(* ===================================================================== *)

Inductive cell : Type :=
  | Num (x : xnum)
  | Str (s : string)
  | Bool (b : bool).

(** A frame: the column names in order, and the rows in order, each with
    its index label and its cells by column name. *)
Record DataFrame : Type := Frame {
  columns : list string;
  rows : list (nat * gmap string cell)
}.

(** A numeric Series is a map from index labels to values: operations on
    two Series align them on their labels. *)
Abbreviation Series := (gmap nat xnum).
Abbreviation Mask := (gmap nat bool).

Definition result_map {A B} (f : A -> B) (r : result A) : result B :=
  match r with
  | Ok a => Ok (f a)
  | Raise e => Raise e
  end.

Definition result_bind {A B} (r : result A) (f : A -> result B) : result B :=
  match r with
  | Ok a => f a
  | Raise e => Raise e
  end.

(** Reading a cell as a float (a bool counts as 0 or 1), a bool, a string. *)
Definition cell_num (oc : option cell) : option xnum :=
  match oc with
  | Some (Num x) => Some x
  | Some (Bool b) => Some (Fin (if b then 1 else 0))
  | _ => None
  end.

Definition cell_bool (oc : option cell) : option bool :=
  match oc with
  | Some (Bool b) => Some b
  | _ => None
  end.

Definition cell_str (oc : option cell) : option string :=
  match oc with
  | Some (Str s) => Some s
  | _ => None
  end.

(** [F[c]] read through [rd]: KeyError for an unknown column; TypeError
    when a cell has not the type the operation applied next needs (raised
    here, where the column is read). *)
Definition column {A} (rd : option cell -> option A) (F : DataFrame)
    (c : string) : result (list (nat * A)) :=
  if bool_decide (c ∈ columns F) then
    match mapM (fun lr : nat * gmap string cell =>
                  pair lr.1 <$> rd (lr.2 !! c)) (rows F) with
    | Some kvs => Ok kvs
    | None => Raise TypeError
    end
  else Raise (KeyError c).

Definition getitem (F : DataFrame) (c : string) : result Series :=
  result_map list_to_map (column cell_num F c).

Definition getitem_bool (F : DataFrame) (c : string) : result Mask :=
  result_map list_to_map (column cell_bool F c).

Definition getitem_str (F : DataFrame) (c : string)
  : result (list (nat * string)) :=
  column cell_str F c.

Definition add_column (cols : list string) (c : string) : list string :=
  if bool_decide (c ∈ cols) then cols else cols ++ [c].

(** [F[c] = value], the value given per index label.  (Assigning a Series to
    a frame without rows would adopt the labels of the Series; the source
    only assigns Series computed from the frame itself.) *)
Definition setitem_with (F : DataFrame) (c : string) (f : nat -> cell)
  : DataFrame :=
  Frame (add_column (columns F) c)
        ((fun lr : nat * gmap string cell => (lr.1, <[c := f lr.1]> lr.2))
           <$> rows F).

Definition setitem (F : DataFrame) (c : string) (s : Series) : DataFrame :=
  setitem_with F c (fun l => Num (default NaN (s !! l))).

Definition setitem_bool (F : DataFrame) (c : string) (s : Mask) : DataFrame :=
  setitem_with F c (fun l => from_option Bool (Num NaN) (s !! l)).

Definition setitem_scalar (F : DataFrame) (c : string) (v : cell) : DataFrame :=
  setitem_with F c (fun _ => v).

(** [F[mask]]: the rows whose label the mask maps to True. *)
Definition select (F : DataFrame) (mask : Mask) : DataFrame :=
  Frame (columns F)
        (filter (fun lr : nat * gmap string cell => mask !! lr.1 = Some true)
                (rows F)).

(** [F[cols]]: the sub-frame of the listed columns. *)
Definition getitems (F : DataFrame) (cols : list string) : result DataFrame :=
  match find (fun c => negb (bool_decide (c ∈ columns F))) cols with
  | Some c => Raise (KeyError c)
  | None =>
      Ok (Frame cols
            ((fun lr : nat * gmap string cell =>
                (lr.1, filter (fun kv : string * cell => kv.1 ∈ cols) lr.2))
               <$> rows F))
  end.

(** One row of [frame.multiply(series, axis=0)] / [frame.divide(...)]. *)
Definition row_arith (f : xnum -> xnum -> xnum) (cols : list string)
    (r : gmap string cell) (x : xnum) : option (gmap string cell) :=
  foldr (fun c acc =>
           r' ← acc; v ← cell_num (r !! c); Some (<[c := Num (f v x)]> r'))
        (Some r) cols.

(** [F.multiply(s, axis=0)] and [F.divide(s, axis=0)] on the rows of [F];
    a label [s] lacks gives nan.  (Labels of [s] that [F] lacks would add
    all-nan rows, which the assignment that follows drops.) *)
Definition frame_arith (f : xnum -> xnum -> xnum) (F : DataFrame) (s : Series)
  : result DataFrame :=
  match mapM (fun lr : nat * gmap string cell =>
                pair lr.1 <$> row_arith f (columns F) lr.2
                                 (default NaN (s !! lr.1))) (rows F) with
  | Some rs => Ok (Frame (columns F) rs)
  | None => Raise TypeError
  end.

(** [F[cols] = G]: the columns of [G], aligned on the labels of [F]. *)
Definition setitems (F : DataFrame) (cols : list string) (G : DataFrame)
  : DataFrame :=
  let g : gmap nat (gmap string cell) := list_to_map (rows G) in
  Frame (foldl add_column (columns F) cols)
        ((fun lr : nat * gmap string cell =>
            (lr.1,
             foldr (fun c r' =>
                      <[c := default (Num NaN) (g !! lr.1 ≫= (.!! c))]> r')
                   lr.2 cols))
           <$> rows F).

(** [pd.concat([A, B], ignore_index=True)]: the union of the columns, nan
    where a frame lacks one, and the rows renumbered from 0. *)
Definition fill (cols : list string) (r : gmap string cell)
  : gmap string cell :=
  foldr (fun c r' => <[c := default (Num NaN) (r !! c)]> r') r cols.

Definition pd_concat (A B : DataFrame) : DataFrame :=
  let cols := columns A ++ filter (fun c => c ∉ columns A) (columns B) in
  Frame cols
        (imap (fun i (lr : nat * gmap string cell) => (i, fill cols lr.2))
              (rows A ++ rows B)).

(** Series arithmetic, aligned on the labels; a label one side lacks gives
    nan there. *)
Definition series_zip (f : xnum -> xnum -> xnum) (s1 s2 : Series) : Series :=
  merge (fun a b =>
           match a, b with
           | None, None => None
           | _, _ => Some (f (default NaN a) (default NaN b))
           end) s1 s2.

Definition series_and (m1 m2 : Mask) : Mask :=
  merge (fun a b =>
           match a, b with
           | None, None => None
           | _, _ => Some (default false a && default false b)
           end) m1 m2.

(* ===================================================================== *)
(** * [DataFrame.eval] on the expressions the source builds               *)
(* ===================================================================== *)

(** A number token as a Python literal of the expression language: what
    [float] reads, except the words inf and nan (they are names there) and
    integers written with superfluous leading zeros (a syntax error). *)
Definition leading_zero_int (tok : string) : bool :=
  let body := (take_sign (chars tok)).2 in
  forallb (fun c => is_digit c || (code c =? 95)%N) body
  && match body with
     | c :: _ => (code c =? 48)%N
     | [] => false
     end
  && existsb (fun c => in_range 49 57 c) body.

Definition eval_number (tok : string) : result xnum :=
  match py_float tok with
  | Some (Fin q) => if leading_zero_int tok then Raise SyntaxError else Ok (Fin q)
  | Some _ => Raise (UndefinedVariableError tok)
  | None => Raise SyntaxError
  end.

(** The text of a float inside an f-string names a number only if finite. *)
Definition repr_number (x : xnum) : result xnum :=
  match x with
  | Fin q => Ok (Fin q)
  | PInf | NInf => Raise (UndefinedVariableError "inf")
  | NaN => Raise (UndefinedVariableError "nan")
  end.

Inductive cmp : Type := Le | Ge.

(** The right operands the f-strings of the source build:
    "{tok}", "{tok}+{x}" and "{tok}-{x}". *)
Inductive operand : Type :=
  | Lit (tok : string)
  | LitPlus (tok : string) (x : xnum)
  | LitMinus (tok : string) (x : xnum).

Definition eval_operand (o : operand) : result xnum :=
  match o with
  | Lit tok => eval_number tok
  | LitPlus tok x =>
      result_bind (eval_number tok) (fun n =>
      result_bind (repr_number x) (fun y => Ok (xadd n y)))
  | LitMinus tok x =>
      result_bind (eval_number tok) (fun n =>
      result_bind (repr_number x) (fun y => Ok (xsub n y)))
  end.

Definition compare (c : cmp) (x y : xnum) : bool :=
  match c with
  | Le => xleb x y
  | Ge => xgeb x y
  end.

(** [F.eval("{lhs} <= {rhs}")] and [F.eval("{lhs} >= {rhs}")], for a left
    operand naming a column.  Other expressions of the pandas language are
    outside the embedding. *)
Definition frame_eval (F : DataFrame) (lhs : string) (c : cmp) (rhs : operand)
  : result Mask :=
  result_bind (eval_operand rhs) (fun y =>
    if bool_decide (lhs ∈ columns F) then
      result_map (fmap (fun x => compare c x y)) (getitem F lhs)
    else Raise (UndefinedVariableError lhs)).

(* ===================================================================== *)
(** * The heap of frames, the object, and the monad of methods            *)
(* ===================================================================== *)

(** Values of the attributes of a [DF_OPS] object. *)
Inductive pyobj : Type :=
  | PyInt (z : Z)
  | PyFrame (l : positive)
  | PyList (xs : list string).

(** The state: the frames by address, and the attribute dictionary of
    [self]. *)
Record world : Type := World {
  heap : gmap positive DataFrame;
  self : gmap string pyobj
}.

Definition M (A : Type) : Type := world -> result A * world.

Definition ret {A} (a : A) : M A := fun w => (Ok a, w).

Definition bind {A B} (m : M A) (k : A -> M B) : M B :=
  fun w =>
    match m w with
    | (Ok a, w') => k a w'
    | (Raise e, w') => (Raise e, w')
    end.

Definition raise {A} (e : exn) : M A := fun w => (Raise e, w).

Definition lift {A} (r : result A) : M A := fun w => (r, w).

Notation "'let!' x ':=' m 'in' k" := (bind m (fun x => k))
  (at level 10, x pattern, m at level 100, k at level 200,
   format "'[v' 'let!'  x  ':='  m  'in' '/' k ']'").
Notation "'do!' m 'in' k" := (bind m (fun _ => k))
  (at level 10, m at level 100, k at level 200,
   format "'[v' 'do!'  m  'in' '/' k ']'").

Fixpoint map_m {A B} (f : A -> M B) (xs : list A) : M (list B) :=
  match xs with
  | [] => ret []
  | x :: xs' =>
      let! y := f x in
      let! ys := map_m f xs' in
      ret (y :: ys)
  end.

Fixpoint for_each {A} (xs : list A) (body : A -> M unit) : M unit :=
  match xs with
  | [] => ret tt
  | x :: xs' => do! body x in for_each xs' body
  end.

(** A loop that carries a local variable. *)
Fixpoint fold_m {A S} (body : S -> A -> M S) (s : S) (xs : list A) : M S :=
  match xs with
  | [] => ret s
  | x :: xs' => let! s' := body s x in fold_m body s' xs'
  end.

(** Attributes. *)
Definition attr (name : string) : M pyobj :=
  fun w =>
    match self w !! name with
    | Some v => (Ok v, w)
    | None => (Raise (AttributeError name), w)
    end.

Definition attr_frame (name : string) : M positive :=
  let! v := attr name in
  match v with
  | PyFrame l => ret l
  | _ => raise TypeError
  end.

Definition attr_list (name : string) : M (list string) :=
  let! v := attr name in
  match v with
  | PyList xs => ret xs
  | _ => raise TypeError
  end.

Definition set_attr (name : string) (v : pyobj) : M unit :=
  fun w => (Ok tt, World (heap w) (<[name := v]> (self w))).

(** Frames on the heap. *)
Definition deref (l : positive) : M DataFrame :=
  fun w =>
    match heap w !! l with
    | Some F => (Ok F, w)
    | None => (Raise (Exception "dangling reference"), w)
    end.

Definition alloc (F : DataFrame) : M positive :=
  fun w =>
    let l := fresh (dom (heap w)) in
    (Ok l, World (<[l := F]> (heap w)) (self w)).

Definition store (l : positive) (F : DataFrame) : M unit :=
  fun w => (Ok tt, World (<[l := F]> (heap w)) (self w)).

(** Reading from a frame object: [l[c]], [l.columns], [l.eval(...)]. *)
Definition read {A} (l : positive) (f : DataFrame -> result A) : M A :=
  let! F := deref l in lift (f F).

(** In-place update of a frame object: [l[c] = ...]. *)
Definition update (l : positive) (f : DataFrame -> DataFrame) : M unit :=
  let! F := deref l in store l (f F).

(** A new frame object made from a frame object: [l.copy()], [l[mask]]. *)
Definition derive (l : positive) (f : DataFrame -> DataFrame) : M positive :=
  let! F := deref l in alloc (f F).

(** [self.<a>[c]] *)
Definition self_getitem (a c : string) : M Series :=
  let! l := attr_frame a in read l (fun F => getitem F c).

Definition float (s : string) : M xnum :=
  match py_float s with
  | Some x => ret x
  | None => raise (ValueError "could not convert string to float")
  end.

(* ===================================================================== *)
(** * OPS/DF_OPS.py: class DF_OPS                                         *)
(* ===================================================================== *)

Definition in_list (x : string) (xs : list string) : bool :=
  bool_decide (x ∈ xs).

(** [Series.apply(parse_from_number)] on a Series of strings. *)
Fixpoint apply_parse (s : list (nat * string)) : result (list (nat * xnum)) :=
  match s with
  | [] => Ok []
  | (l, v) :: s' =>
      result_bind (parse_from_number v) (fun x =>
      result_map (cons (l, x)) (apply_parse s'))
  end.

(** [add_specs_df(self)] *)
Definition add_specs_df : M positive :=
  let! mod_df := (let! d := attr_frame "df" in derive d id) in
  let! specs := attr_list "specs" in
  do! for_each specs (fun spec =>
        if spec =? "intrinsic_gain" then
          let! gm := read mod_df (fun F => getitem F "gm") in
          let! rout := read mod_df (fun F => getitem F "rout") in
          update mod_df (fun F =>
            setitem F "intrinsic_gain" (series_zip xmul gm rout))
        else if spec =? "ft" then
          let! gm := read mod_df (fun F => getitem F "gm") in
          let! cgg := read mod_df (fun F => getitem F "cgg") in
          update mod_df (fun F =>
            setitem F "ft"
              (series_zip xdiv gm (xmul (xmul (Fin 2) math_pi) <$> cgg)))
        else if spec =? "gmoverid" then
          let! gm := read mod_df (fun F => getitem F "gm") in
          let! i_d := read mod_df (fun F => getitem F "id") in
          update mod_df (fun F =>
            setitem F "gmoverid" (series_zip xdiv gm i_d))
        else ret tt) in
  ret mod_df.

(** [__init__(self, df)] *)
Definition init (df : positive) : M unit :=
  do! set_attr "df" (PyFrame df) in
  do! (let! d := attr_frame "df" in
       let! w := read d (fun F => getitem_str F "W") in
       let! parsed := lift (apply_parse w) in
       let! d' := attr_frame "df" in
       update d' (fun F => setitem F "W" (list_to_map parsed))) in
  do! set_attr "specs"
        (PyList ["intrinsic_gain"; "ft"; "area"; "gmoverid"]) in
  do! (let! m := add_specs_df in set_attr "mod_df" (PyFrame m)) in
  do! set_attr "conditional_df" (PyInt 0) in
  do! set_attr "proportional" (PyList ["cgg"; "gm"; "gmb"; "id"]) in
  set_attr "inversly" (PyList ["rout"]).

(** The body of the first loop of [compute_conditional_df] (lines 66-85),
    for one parsed condition [row]; [flag] is the local variable. *)
Definition resize_body (WoverL_min Wmax : xnum) (flag : bool)
    (row : string * string * string) : M bool :=
  let '(row0, _, row2) := row in
  let! temp_copy := (let! m := attr_frame "mod_df" in derive m id) in
  let! proportional := attr_list "proportional" in
  do! (if in_list row0 proportional then
         let! w := self_getitem "mod_df" "W" in
         let! t := float row2 in
         let! v := self_getitem "mod_df" row0 in
         update temp_copy (fun F =>
           setitem F "W" (series_zip xmul w (xdiv t <$> v)))
       else
         let! inversly := attr_list "inversly" in
         if in_list row0 inversly then
           let! w := self_getitem "mod_df" "W" in
           let! v := self_getitem "mod_df" row0 in
           let! t := float row2 in
           update temp_copy (fun F =>
             setitem F "W" (series_zip xmul w ((fun x => xdiv x t) <$> v)))
         else ret tt) in
  let! proportional := attr_list "proportional" in
  let! inversly := attr_list "inversly" in
  if in_list row0 (proportional ++ inversly) then
    do! update temp_copy (fun F => setitem_scalar F "condition" (Str row0)) in
    let! temp_copy :=
      (let! w := read temp_copy (fun F => getitem F "W") in
       derive temp_copy (fun F => select F ((fun x => xltb x Wmax) <$> w))) in
    let! temp_copy :=
      (let! w := read temp_copy (fun F => getitem F "W") in
       let! l := read temp_copy (fun F => getitem F "L") in
       derive temp_copy (fun F =>
         select F ((fun x => xgtb x WoverL_min) <$> series_zip xdiv w l))) in
    do! (let! proportional := attr_list "proportional" in
         let! sub := read temp_copy (fun F => getitems F proportional) in
         let! w := read temp_copy (fun F => getitem F "W") in
         let! w0 := self_getitem "df" "W" in
         let! scaled := lift (frame_arith xmul sub (series_zip xdiv w w0)) in
         let! proportional := attr_list "proportional" in
         update temp_copy (fun F => setitems F proportional scaled)) in
    do! (let! inversly := attr_list "inversly" in
         let! sub := read temp_copy (fun F => getitems F inversly) in
         let! w := read temp_copy (fun F => getitem F "W") in
         let! w0 := self_getitem "df" "W" in
         let! scaled := lift (frame_arith xdiv sub (series_zip xdiv w w0)) in
         let! inversly := attr_list "inversly" in
         update temp_copy (fun F => setitems F inversly scaled)) in
    do! (let! acc := attr_frame "conditional_df" in
         let! A := deref acc in
         let! B := deref temp_copy in
         let! c := alloc (pd_concat A B) in
         set_attr "conditional_df" (PyFrame c)) in
    ret true
  else ret flag.

(** The body of the second loop (lines 93-102), for one parsed condition. *)
Definition match_body (tolerance_percent : xnum)
    (condition : string * string * string) : M unit :=
  let '(c0, c1, c2) := condition in
  let and_eval (c : cmp) (rhs : operand) : M unit :=
    let! l := attr_frame "conditional_df" in
    let! met := read l (fun F => getitem_bool F "met_specs") in
    let! l' := attr_frame "conditional_df" in
    let! hit := read l' (fun F => frame_eval F c0 c rhs) in
    let! l'' := attr_frame "conditional_df" in
    update l'' (fun F => setitem_bool F "met_specs" (series_and met hit)) in
  if c1 =? "=" then
    let! t := float c2 in
    let tolerance := xmul (xdiv tolerance_percent (Fin 100)) t in
    do! and_eval Le (LitPlus c2 tolerance) in
    and_eval Ge (LitMinus c2 tolerance)
  else if c1 =? ">" then and_eval Ge (Lit c2)
  else if c1 =? "<" then and_eval Le (Lit c2)
  else ret tt.

(** [compute_conditional_df(self, conditions, tolerance_percent=1.0,
    WoverL_min=0.5, Wmax=100e-6)] *)
Definition compute_conditional_df (conditions : list string)
    (tolerance_percent WoverL_min Wmax : xnum) : M unit :=
  let! parsed_conditions :=
    map_m (fun cond => lift (parse_condition cond)) conditions in
  do! (let! m := attr_frame "mod_df" in
       let! cols := read m (fun F => Ok (columns F)) in
       let! e := alloc (Frame cols []) in
       set_attr "conditional_df" (PyFrame e)) in
  let! flag := fold_m (resize_body WoverL_min Wmax) false parsed_conditions in
  do! (let! l := attr_frame "conditional_df" in
       let! w := read l (fun F => getitem F "W") in
       let! l' := attr_frame "conditional_df" in
       let! len := read l' (fun F => getitem F "L") in
       let! l'' := attr_frame "conditional_df" in
       update l'' (fun F => setitem F "area" (series_zip xmul w len))) in
  if negb flag then raise (Exception "The conditions are not sufficient")
  else
    do! (let! l := attr_frame "conditional_df" in
         update l (fun F => setitem_scalar F "met_specs" (Bool true))) in
    for_each parsed_conditions (match_body tolerance_percent).

Definition default_tolerance_percent : xnum := Fin 1.
Definition default_WoverL_min : xnum := sci 5 (-1).
Definition default_Wmax : xnum := sci 100 (-6).

(* ===================================================================== *)
(** * A constructed object, and an example                                *)
(* ===================================================================== *)

(** The attributes [__init__] leaves behind: [df] and [mod_df] refer to the
    frames [Fd] and [Fm] on the heap. *)
Record constructed (w : world) (d m : positive) (Fd Fm : DataFrame)
  : Prop := Constructed {
  has_df : self w !! "df" = Some (PyFrame d);
  has_mod_df : self w !! "mod_df" = Some (PyFrame m);
  has_proportional :
    self w !! "proportional" = Some (PyList ["cgg"; "gm"; "gmb"; "id"]);
  has_inversly : self w !! "inversly" = Some (PyList ["rout"]);
  heap_df : heap w !! d = Some Fd;
  heap_mod_df : heap w !! m = Some Fm
}.

(** The columns that drive a resize. *)
Definition resizable (v : string) : Prop :=
  v ∈ ["cgg"; "gm"; "gmb"; "id"; "rout"].

(** A table as it is read from a file: three operating points, [W] still
    text. *)
Definition example_row (l : nat) (w : string) (len gm gmb rout cgg i_d : xnum)
    (region : Z) : nat * gmap string cell :=
  (l, list_to_map
        [("W", Str w); ("L", Num len); ("gm", Num gm); ("gmb", Num gmb);
         ("rout", Num rout); ("cgg", Num cgg); ("id", Num i_d);
         ("region", Num (xnum_of_Z region))]).

Definition example_table : DataFrame :=
  Frame ["W"; "L"; "gm"; "gmb"; "rout"; "cgg"; "id"; "region"]
    [example_row 0 "1u" (sci 1 (-7)) (sci 1 (-3)) (sci 2 (-4)) (sci 5 4)
       (sci 1 (-12)) (sci 2 (-4)) 2;
     example_row 1 "2u" (sci 1 (-7)) (sci 2 (-3)) (sci 4 (-4)) (sci 3 4)
       (sci 2 (-12)) (sci 4 (-4)) 2;
     example_row 2 "80u" (sci 1 (-7)) (sci 1 (-3)) (sci 4 (-4)) (sci 3 4)
       (sci 2 (-12)) (sci 4 (-4)) 1].

(** The world after [DF_OPS(example_table)]. *)
Definition example_world : world :=
  Eval vm_compute in
    (init 1%positive (World {[ 1%positive := example_table ]} ∅)).2.

(** Its frames [df] (at address 1) and [mod_df] (at address 2). *)
Definition example_df : DataFrame :=
  Eval vm_compute in default (Frame [] []) (heap example_world !! 1%positive).
Definition example_mod_df : DataFrame :=
  Eval vm_compute in default (Frame [] []) (heap example_world !! 2%positive).

(* ===================================================================== *)
(** * Rows, in the words of the specification                             *)
(* ===================================================================== *)

(** The number in column [c] of a row (nan where there is none). *)
Definition num_at (r : gmap string cell) (c : string) : xnum :=
  default NaN (cell_num (r !! c)).

(** Column [c] of a frame has a number in every row. *)
Definition numeric (F : DataFrame) (c : string) : Prop :=
  c ∈ columns F
  /\ Forall (fun lr : nat * gmap string cell => is_Some (cell_num (lr.2 !! c)))
            (rows F).

Definition numericb (F : DataFrame) (c : string) : bool :=
  bool_decide (c ∈ columns F)
  && forallb (fun lr : nat * gmap string cell =>
                match cell_num (lr.2 !! c) with Some _ => true | None => false end)
             (rows F).

(** Column [c] as a Series. *)
Definition col_series (F : DataFrame) (c : string) : Series :=
  list_to_map ((fun lr : nat * gmap string cell => (lr.1, num_at lr.2 c))
                 <$> rows F).

(** The index labels of a frame. *)
Definition labels (F : DataFrame) : list nat := (rows F).*1.

(** A row with its derived specifications (section 3 of the spec):
    intrinsic_gain = gm*rout, ft = gm/(2*pi*cgg), gmoverid = gm/id. *)
Definition derived_specs (r : gmap string cell) : gmap string cell :=
  <["gmoverid" := Num (xdiv (num_at r "gm") (num_at r "id"))]>
    (<["ft" := Num (xdiv (num_at r "gm")
                      (xmul (xmul (Fin 2) math_pi) (num_at r "cgg")))]>
       (<["intrinsic_gain" := Num (xmul (num_at r "gm") (num_at r "rout"))]> r)).

Definition extended (F : DataFrame) : DataFrame :=
  Frame (add_column (add_column (add_column (columns F) "intrinsic_gain") "ft")
                    "gmoverid")
        ((fun lr : nat * gmap string cell => (lr.1, derived_specs lr.2))
           <$> rows F).

(* ===================================================================== *)
(** * The resizing step on frame values and on rows                       *)
(* ===================================================================== *)

(** Lines 66-81 of [compute_conditional_df] on frame values: the frame
    a resizable condition on column [v] with target [t] appends, made from
    the base table [Fm] and the original table [Fd]. *)
Definition resize_frame (prop inv : list string) (WoverL_min Wmax : xnum)
    (v : string) (t : xnum) (Fm Fd : DataFrame) : result DataFrame :=
  result_bind (getitem Fm "W") (fun w =>
  result_bind (getitem Fm v) (fun g =>
  let T1 := setitem Fm "W"
              (series_zip xmul w
                 (if in_list v prop then xdiv t <$> g
                  else (fun x => xdiv x t) <$> g)) in
  let T2 := setitem_scalar T1 "condition" (Str v) in
  result_bind (getitem T2 "W") (fun w2 =>
  let T3 := select T2 ((fun x => xltb x Wmax) <$> w2) in
  result_bind (getitem T3 "W") (fun w3 =>
  result_bind (getitem T3 "L") (fun l3 =>
  let T4 := select T3 ((fun x => xgtb x WoverL_min) <$> series_zip xdiv w3 l3) in
  result_bind (getitems T4 prop) (fun s4 =>
  result_bind (getitem T4 "W") (fun w4 =>
  result_bind (getitem Fd "W") (fun w0 =>
  result_bind (frame_arith xmul s4 (series_zip xdiv w4 w0)) (fun sc =>
  let T5 := setitems T4 prop sc in
  result_bind (getitems T5 inv) (fun s5 =>
  result_bind (getitem T5 "W") (fun w5 =>
  result_bind (getitem Fd "W") (fun w0' =>
  result_bind (frame_arith xdiv s5 (series_zip xdiv w5 w0')) (fun sc' =>
  Ok (setitems T5 inv sc')))))))))))))).

(** The resized width of a row for the condition [v = t] (or [v > t],
    [v < t]): W * t / row[v] for a proportional quantity, W * row[v] / t for
    the inverse one. *)
Definition new_width (v : string) (t : xnum) (r : gmap string cell) : xnum :=
  xmul (num_at r "W")
       (if in_list v ["cgg"; "gm"; "gmb"; "id"] then xdiv t (num_at r v)
        else xdiv (num_at r v) t).

(** The geometry filter: W' < Wmax and W'/L > WoverL_min. *)
Definition keeps (WoverL_min Wmax : xnum) (v : string) (t : xnum)
    (r : gmap string cell) : bool :=
  xltb (new_width v t r) Wmax
  && xgtb (xdiv (new_width v t r) (num_at r "L")) WoverL_min.

(** The rescaled row: the new width, the condition tag, every proportional
    column multiplied and every inverse column divided by W'/W. *)
Definition rescaled (v : string) (t : xnum) (r : gmap string cell)
  : gmap string cell :=
  let W' := new_width v t r in
  let k := xdiv W' (num_at r "W") in
  foldr (fun c acc => <[c := Num (xdiv (num_at r c) k)]> acc)
    (foldr (fun c acc => <[c := Num (xmul (num_at r c) k)]> acc)
       (<["condition" := Str v]> (<["W" := Num W']> r))
       ["cgg"; "gm"; "gmb"; "id"])
    ["rout"].

(** The rows a resizable condition appends. *)
Definition batch (WoverL_min Wmax : xnum) (v : string) (t : xnum)
    (Fm : DataFrame) : list (nat * gmap string cell) :=
  (fun lr : nat * gmap string cell => (lr.1, rescaled v t lr.2))
    <$> filter (fun lr : nat * gmap string cell =>
                  keeps WoverL_min Wmax v t lr.2 = true) (rows Fm).

(** [df] and [mod_df] have the same labels, in the same order, and the same
    widths. *)
Definition same_widths (Fd Fm : DataFrame) : Prop :=
  Forall2 (fun a b : nat * gmap string cell =>
             a.1 = b.1 /\ num_at a.2 "W" = num_at b.2 "W")
          (rows Fd) (rows Fm).

(* ===================================================================== *)
(** * The result table, row by row                                        *)
(* ===================================================================== *)

(** The (condition, source row) pairs that survive the geometry filter, in
    the order in which [compute_conditional_df] appends their rows: for
    every resizable condition in turn, the rows of the base table that
    [keeps] retains.  An entry is (variable, target, (label, row)). *)
Definition contributions (WoverL_min Wmax : xnum) (Fm : DataFrame)
    (parsed : list (string * string * string))
  : list (string * xnum * (nat * gmap string cell)) :=
  parsed ≫= fun cond : string * string * string =>
    let '(v, _, tok) := cond in
    if in_list v ["cgg"; "gm"; "gmb"; "id"; "rout"] then
      match py_float tok with
      | Some t =>
          (fun lr : nat * gmap string cell => (v, t, lr))
            <$> filter (fun lr : nat * gmap string cell =>
                          keeps WoverL_min Wmax v t lr.2 = true) (rows Fm)
      | None => []
      end
    else [].

(** The comparisons the second loop makes for a condition, in order:
    (column, comparison, right operand). *)
Definition checks (tolerance_percent : xnum) (cond : string * string * string)
  : list (string * cmp * xnum) :=
  let '(v, op, tok) := cond in
  let t := default NaN (py_float tok) in
  if op =? "=" then
    let tolerance := xmul (xdiv tolerance_percent (Fin 100)) t in
    [(v, Le, xadd t tolerance); (v, Ge, xsub t tolerance)]
  else if op =? ">" then [(v, Ge, t)]
  else if op =? "<" then [(v, Le, t)]
  else [].

(** The flag after a list of comparisons: each one is evaluated on the row
    as it is then, [met_specs] included. *)
Definition check_fold (cs : list (string * cmp * xnum)) (r : gmap string cell)
    (b0 : bool) : bool :=
  fold_left (fun b (chk : string * cmp * xnum) =>
               b && compare chk.1.2
                      (num_at (<["met_specs" := Bool b]> r) chk.1.1) chk.2)
            cs b0.

(** An output row [out] for the contribution [k]: it carries the rescaled
    row (other columns are as in the source row), the area W'*L, and the
    flag. *)
Definition output_row (tolerance_percent : xnum)
    (parsed : list (string * string * string))
    (out : nat * gmap string cell)
    (k : string * xnum * (nat * gmap string cell)) : Prop :=
  exists r1,
    out.2 = <["met_specs" :=
                Bool (check_fold (parsed ≫= checks tolerance_percent) r1 true)]> r1
    /\ r1 !! "area"
       = Some (Num (xmul (new_width k.1.1 k.1.2 k.2.2) (num_at k.2.2 "L")))
    /\ forall c x, c <> "area" ->
                   rescaled k.1.1 k.1.2 k.2.2 !! c = Some x -> r1 !! c = Some x.

(** The literal of a condition with one of the three operators reads as a
    finite number. *)
Definition finite_literal (cond : string * string * string) : Prop :=
  cond.1.2 ∈ ["="; ">"; "<"] -> exists q, py_float cond.2 = Some (Fin q).






(** The value of such a text: the digits read as an integer, scaled down by
    the number of digits after the point, with the sign. *)
Definition number_value (sg d1 dot d2 : list ascii) : Q :=
  let q := (inject_Z (digits_val (d1 ++ d2))
            * pow10 (0 - Z.of_nat (match dot with
                                   | [] => 0
                                   | _ => length d2
                                   end)))%Q in
  if bool_decide (sg = chars "-") then (- q)%Q else q.

(** Line 39 of [__init__] on a frame value: the text in column [W] of every
    row replaced by the number [parse_from_number] reads from it. *)
Definition width_of_text (r : gmap string cell) : xnum :=
  match r !! "W" with
  | Some (Str s) =>
      match parse_from_number s with
      | Ok x => x
      | Raise _ => NaN
      end
  | _ => NaN
  end.

Definition converted (F : DataFrame) : DataFrame :=
  Frame (add_column (columns F) "W")
        ((fun lr : nat * gmap string cell =>
            (lr.1, <["W" := Num (width_of_text lr.2)]> lr.2)) <$> rows F).

(** Column [W] of a frame holds text that [parse_from_number] reads. *)
Definition width_texts (F : DataFrame) : Prop :=
  "W" ∈ columns F
  /\ Forall (fun lr : nat * gmap string cell =>
               exists s x, lr.2 !! "W" = Some (Str s)
                           /\ parse_from_number s = Ok x) (rows F).

(** The attributes [__init__] sets, on top of the ones there were. *)
Definition init_attrs (d m : positive) (s : gmap string pyobj)
  : gmap string pyobj :=
  <["inversly" := PyList ["rout"]]>
    (<["proportional" := PyList ["cgg"; "gm"; "gmb"; "id"]]>
       (<["conditional_df" := PyInt 0]>
          (<["mod_df" := PyFrame m]>
             (<["specs" := PyList ["intrinsic_gain"; "ft"; "area"; "gmoverid"]]>
                (<["df" := PyFrame d]> s))))).

(* ===================================================================== *)
(** * main_app.py: plot_with_conditions                                   *)
(* ===================================================================== *)

(** Python's truth value of [hue_variable]: None and "" are false. *)
Definition truthy (s : option string) : bool :=
  match s with
  | Some (String _ _) => true
  | _ => false
  end.

(** [value == True] and [value == False] on a cell: a bool, or the number 1
    (0). *)
Definition cell_is_true (oc : option cell) : bool :=
  match oc with
  | Some (Bool b) => b
  | Some (Num (Fin q)) => Qeq_bool q 1
  | _ => false
  end.

Definition cell_is_false (oc : option cell) : bool :=
  match oc with
  | Some (Bool b) => negb b
  | Some (Num (Fin q)) => Qeq_bool q 0
  | _ => false
  end.

(** [F[mask]] for a mask computed from [F] itself, row by row. *)
Definition where_rows (F : DataFrame) (p : gmap string cell -> bool)
  : DataFrame :=
  Frame (columns F)
        (filter (fun lr : nat * gmap string cell => p lr.2 = true) (rows F)).

(** A cell of a float column. *)
Definition cell_float (oc : option cell) : option xnum :=
  match oc with
  | Some (Num x) => Some x
  | _ => None
  end.

Definition float_at (r : gmap string cell) (c : string) : xnum :=
  default NaN (cell_float (r !! c)).

(** [Series.min()] and [Series.max()] of a float column: nan is skipped,
    and is the result when nothing else is there. *)
Definition pick (better : xnum -> xnum -> bool) (acc : option xnum) (x : xnum)
  : option xnum :=
  match x with
  | NaN => acc
  | _ =>
      match acc with
      | None => Some x
      | Some a => Some (if better a x then a else x)
      end
  end.

Definition series_min (xs : list xnum) : xnum :=
  default NaN (fold_left (pick xleb) xs None).
Definition series_max (xs : list xnum) : xnum :=
  default NaN (fold_left (pick xgeb) xs None).

(** Lines 48-54: the hue threshold filter on a float column [hue]. *)
Definition hue_filter (df : DataFrame) (hue : string) (hue_threshold : xnum)
    (hue_threshold_direction : option string) : result DataFrame :=
  result_bind (column cell_float df hue) (fun vs =>
    let hue_min := series_min vs.*2 in
    let hue_max := series_max vs.*2 in
    let threshold_value :=
      xadd hue_min (xmul (xdiv hue_threshold (Fin 100)) (xsub hue_max hue_min)) in
    if bool_decide (hue_threshold_direction = Some "down") then
      Ok (where_rows df (fun r => xgeb (float_at r hue) threshold_value))
    else if bool_decide (hue_threshold_direction = Some "up") then
      Ok (where_rows df (fun r => xleb (float_at r hue) threshold_value))
    else Ok df).

(** Lines 43-54: the rows that are drawn. *)
Definition plot_selection (df : DataFrame) (condition_column : string)
    (plot_only_true : bool) (hue_variable : option string)
    (hue_threshold : option xnum) (hue_threshold_direction : option string)
  : result DataFrame :=
  let df :=
    if plot_only_true then
      where_rows df (fun r => cell_is_true (r !! condition_column))
    else df in
  if truthy hue_variable then
    match hue_threshold with
    | Some p =>
        hue_filter df (default "" hue_variable) p hue_threshold_direction
    | None => Ok df
    end
  else Ok df.

(** [Series.map({True: t, False: f})]: nan (here [None]) for other values. *)
Definition map_flag {A} (t f : A) (oc : option cell) : option A :=
  if cell_is_true oc then Some t
  else if cell_is_false oc then Some f
  else None.

Definition flag_column {A} (t f : A) (df : DataFrame) (c : string)
  : list (nat * option A) :=
  (fun lr : nat * gmap string cell => (lr.1, map_flag t f (lr.2 !! c)))
    <$> rows df.

(** [df[c]] as it is handed to matplotlib: the cells, whatever they hold. *)
Definition raw_column (df : DataFrame) (c : string)
  : result (list (nat * option cell)) :=
  if bool_decide (c ∈ columns df) then
    Ok ((fun lr : nat * gmap string cell => (lr.1, lr.2 !! c)) <$> rows df)
  else Raise (KeyError c).

(** What a call of [plot_with_conditions] can raise: an exception of the
    data part or of a library, or the error of reading a local variable
    that has no value. *)
Inductive plot_exn : Type :=
  | Raised (e : exn)
  | UnboundLocalError (name : string).

Inductive outcome (A : Type) : Type :=
  | Done (a : A)
  | Fails (e : plot_exn).
Arguments Done {A} a.
Arguments Fails {A} e.

(** The figure and the calls into matplotlib and tkinter, left abstract:
    every call may change the figure and may raise. *)
Record matplotlib : Type := Matplotlib {
  figure : Type;
  norm_t : Type;
  colors_t : Type;
  axes_t : Type;
  scatter_t : Type;
  (* lines 61-63: plt.Normalize(min, max), plt.get_cmap, cmap(norm(...)) *)
  hue_colors : option string -> list (nat * option cell) ->
               figure -> outcome (norm_t * colors_t) * figure;
  (* line 68: fig.clf() *)
  fig_clf : figure -> outcome unit * figure;
  (* line 71: fig.add_subplot(111) *)
  add_subplot : figure -> outcome axes_t * figure;
  (* line 74: ax.scatter(x, y, c=colors, s=sizes, cmap=colormap, norm=norm) *)
  ax_scatter : axes_t -> list (nat * option cell) -> list (nat * option cell) ->
               list (nat * option string) + colors_t ->
               list (nat * option xnum) -> option string -> norm_t ->
               figure -> outcome scatter_t * figure;
  (* lines 76-117: colorbar, tick formatters, the pick handler, labels,
     layout and drawing *)
  decorate : DataFrame -> string * string -> option string ->
             option string -> norm_t -> list (nat * option xnum) -> xnum ->
             axes_t -> scatter_t -> figure -> outcome unit * figure
}.

Definition PM (lib : matplotlib) (A : Type) : Type :=
  figure lib -> outcome A * figure lib.

Definition pret {lib A} (a : A) : PM lib A := fun g => (Done a, g).

Definition pbind {lib A B} (m : PM lib A) (k : A -> PM lib B) : PM lib B :=
  fun g =>
    match m g with
    | (Done a, g') => k a g'
    | (Fails e, g') => (Fails e, g')
    end.

Definition pfail {lib A} (e : plot_exn) : PM lib A := fun g => (Fails e, g).

Definition plift {lib A} (r : result A) : PM lib A :=
  fun g =>
    match r with
    | Ok a => (Done a, g)
    | Raise e => (Fails (Raised e), g)
    end.

Notation "'let?' x ':=' m 'in' k" := (pbind m (fun x => k))
  (at level 10, x pattern, m at level 100, k at level 200,
   format "'[v' 'let?'  x  ':='  m  'in' '/' k ']'").
Notation "'do?' m 'in' k" := (pbind m (fun _ => k))
  (at level 10, m at level 100, k at level 200,
   format "'[v' 'do?'  m  'in' '/' k ']'").

(** [plot_with_conditions(df, axes, condition_column, fig, ax, ...)]; the
    local variable [norm] has a value only after line 61. *)
Definition plot_with_conditions (lib : matplotlib) (df : DataFrame)
    (axes : string * string) (condition_column : string)
    (true_color false_color : string) (plot_only_true : bool)
    (false_size true_size : xnum) (hue_variable : option string)
    (colormap : option string) (hue_threshold : option xnum)
    (hue_threshold_direction : option string) : PM lib unit :=
  let '(x_axis, y_axis) := axes in
  if negb (in_list condition_column (columns df)) then
    pfail (Raised (ValueError ("Condition column '" ++ condition_column
                               ++ "' does not exist in the DataFrame")))
  else if truthy hue_variable
          && negb (in_list (default "" hue_variable) (columns df)) then
    pfail (Raised (ValueError ("Hue variable column '"
                               ++ default "" hue_variable
                               ++ "' does not exist in the DataFrame")))
  else
    let? df := plift (plot_selection df condition_column plot_only_true
                        hue_variable hue_threshold hue_threshold_direction) in
    let sizes := flag_column true_size false_size df condition_column in
    let? norm_colors :=
      (if truthy hue_variable then
         let? hue := plift (raw_column df (default "" hue_variable)) in
         let? nc := hue_colors lib colormap hue in
         pret (Some nc.1, inr nc.2)
       else
         pret (None,
               inl (flag_column true_color false_color df condition_column))) in
    let '(norm, colors) := norm_colors in
    do? fig_clf lib in
    let? ax := add_subplot lib in
    let? xs := plift (raw_column df x_axis) in
    let? ys := plift (raw_column df y_axis) in
    match norm with
    | None => pfail (UnboundLocalError "norm")
    | Some norm =>
        let? scatter := ax_scatter lib ax xs ys colors sizes colormap norm in
        decorate lib df axes hue_variable colormap norm sizes true_size ax
          scatter
    end.

(** A figure that records nothing, with calls that all succeed. *)
Definition silent_matplotlib : matplotlib :=
  Matplotlib unit unit unit unit unit
    (fun _ _ g => (Done (tt, tt), g))
    (fun g => (Done tt, g))
    (fun g => (Done tt, g))
    (fun _ _ _ _ _ _ _ g => (Done tt, g))
    (fun _ _ _ _ _ _ _ _ _ g => (Done tt, g)).

(** What the first loop of [compute_conditional_df] keeps true of the
    accumulated table: the rows are numbered from 0 and the columns of the
    base table are there. *)
Definition renumbered (Fm F : DataFrame) : Prop :=
  labels F = seq 0 (length (rows F))
  /\ forall c, c ∈ columns Fm -> c ∈ columns F.

(** A table without the column gmb, and the object made from it. *)
Definition bare_table : DataFrame :=
  Frame ["W"; "L"; "gm"; "rout"; "cgg"; "id"]
    [(0%nat, list_to_map
               [("W", Str "1u"); ("L", Num (sci 1 (-7)));
                ("gm", Num (sci 1 (-3))); ("rout", Num (sci 5 4));
                ("cgg", Num (sci 1 (-12))); ("id", Num (sci 2 (-4)))])].

Definition bare_world : world :=
  Eval vm_compute in
    (init 1%positive (World {[ 1%positive := bare_table ]} ∅)).2.

Definition bare_df : DataFrame :=
  Eval vm_compute in default (Frame [] []) (heap bare_world !! 1%positive).
Definition bare_mod_df : DataFrame :=
  Eval vm_compute in default (Frame [] []) (heap bare_world !! 2%positive).

(* ===================================================================== *)
(** * The grammars in the words of the specification                      *)
(* ===================================================================== *)

(** The text each atom of a pattern may match. *)
Definition atom_accepts (a : atom) (g : list ascii) : Prop :=
  Forall (fun c => cls a c = true) g
  /\ (lo a <= length g)%nat
  /\ (forall h, hi a = Some h -> (length g <= h)%nat).



(* ===================================================================== *)
(** * Theorems                                                            *)
(* ===================================================================== *)

Section Regex.

Lemma first_down_Some {B} (f : nat -> option B) lo k r :
  first_down f lo k = Some r ->
  exists k', (lo <= k' <= k)%nat /\ f k' = Some r.
Proof.
  induction k as [|k IH]; simpl.
  - destruct (lo <=? 0)%nat eqn:E; [|discriminate].
    destruct (f 0%nat) eqn:F; [|discriminate].
    intros [= <-]. apply Nat.leb_le in E. exists 0%nat. split; [lia|done].
  - destruct (lo <=? S k)%nat eqn:E.
    + destruct (f (S k)) eqn:F.
      * intros [= <-]. apply Nat.leb_le in E. exists (S k). split; [lia|done].
      * intros H. destruct (IH H) as (k' & ? & ?). exists k'. split; [lia|done].
    + intros H. destruct (IH H) as (k' & ? & ?). exists k'. split; [lia|done].
Qed.

Lemma first_down_None {B} (f : nat -> option B) lo k :
  first_down f lo k = None ->
  forall k', (lo <= k' <= k)%nat -> f k' = None.
Proof.
  induction k as [|k IH]; simpl; intros H k' Hk.
  - assert (k' = 0)%nat as -> by lia.
    destruct (lo <=? 0)%nat eqn:E.
    + destruct (f 0%nat); [discriminate|done].
    + apply Nat.leb_gt in E. lia.
  - destruct (lo <=? S k)%nat eqn:E.
    + destruct (f (S k)) eqn:F; [discriminate|].
      destruct (decide (k' = S k)) as [->|]; [done|]. apply IH; [done|lia].
    + apply Nat.leb_gt in E. apply IH; [done|lia].
Qed.

(** The first try succeeds when the greedy count itself works. *)
Lemma first_down_top {B} (f : nat -> option B) lo k r :
  (lo <= k)%nat -> f k = Some r -> first_down f lo k = Some r.
Proof.
  intros Hle Hf. destruct k; simpl.
  - apply Nat.leb_le in Hle. by rewrite Hle, Hf.
  - apply Nat.leb_le in Hle. by rewrite Hle, Hf.
Qed.

Lemma span_class p b s : Forall (fun c => p c = true) (take (span p b s) s).
Proof.
  revert b. induction s as [|c s IH]; intros b.
  - destruct b as [[|?]|]; constructor.
  - destruct b as [[|n]|]; simpl; try constructor.
    + destruct (p c) eqn:E; simpl; [|constructor].
      constructor; [done|]. apply IH.
    + destruct (p c) eqn:E; simpl; [|constructor].
      constructor; [done|]. apply IH.
Qed.

Lemma span_length p b s : (span p b s <= length s)%nat.
Proof.
  revert b. induction s as [|c s IH]; intros b.
  - destruct b as [[|?]|]; simpl; lia.
  - destruct b as [[|n]|]; simpl; try lia.
    + destruct (p c); simpl; [|lia]. specialize (IH (Some n)). simpl in IH. lia.
    + destruct (p c); simpl; [|lia]. specialize (IH None). simpl in IH. lia.
Qed.

Lemma span_bound p h s : (span p (Some h) s <= h)%nat.
Proof.
  revert h. induction s as [|c s IH]; intros h.
  - destruct h; simpl; lia.
  - destruct h as [|h]; simpl; [lia|].
    destruct (p c); [|lia]. specialize (IH h). simpl. lia.
Qed.

(** The greedy count is the largest admissible one. *)
Lemma span_max p b g rest :
  Forall (fun c => p c = true) g ->
  (forall h, b = Some h -> (length g <= h)%nat) ->
  (length g <= span p b (g ++ rest))%nat.
Proof.
  revert b. induction g as [|c g IH]; intros b Hg Hb; simpl; [lia|].
  inversion Hg as [|? ? Hc Hg']; subst.
  destruct b as [[|n]|]; simpl.
  - specialize (Hb 0%nat eq_refl). simpl in Hb. lia.
  - rewrite Hc. apply le_n_S. apply (IH (Some n)); [done|].
    intros h [= <-]. specialize (Hb (S n) eq_refl). simpl in Hb. lia.
  - rewrite Hc. apply le_n_S. apply (IH None); [done|]. intros h [=].
Qed.

(** Soundness of [re_match]: the groups are texts the atoms accept, and
    together they are a prefix of the subject. *)
Lemma re_match_sound pat s gs :
  re_match pat s = Some gs ->
  Forall2 atom_accepts pat gs /\ exists rest, s = List.concat gs ++ rest.
Proof.
  revert s gs. induction pat as [|a pat IH]; intros s gs; simpl.
  - intros [= <-]. split; [constructor|]. by exists s.
  - intros H. apply first_down_Some in H as (k & Hk & H).
    destruct (re_match pat (drop k s)) as [gs'|] eqn:E; [|discriminate].
    injection H as <-. destruct (IH _ _ E) as [Hall [rest Hrest]].
    assert (k <= length s)%nat as Hks
      by (pose proof (span_length (cls a) (hi a) s); lia).
    split.
    + constructor; [|done]. repeat split.
      * pose proof (span_class (cls a) (hi a) s) as Hc.
        replace (take k s) with (take k (take (span (cls a) (hi a) s) s))
          by (rewrite take_take; f_equal; lia).
        by apply Forall_take.
      * rewrite length_take. lia.
      * intros h Hh. rewrite length_take.
        pose proof (span_bound (cls a) h s) as Hb. rewrite Hh in Hk. lia.
    + exists rest. simpl. rewrite <- app_assoc, <- Hrest.
      by rewrite take_drop.
Qed.

(** Completeness: if some prefix of the subject splits into texts the
    atoms accept, [re_match] succeeds. *)
Lemma re_match_complete pat gs rest :
  Forall2 atom_accepts pat gs ->
  is_Some (re_match pat (List.concat gs ++ rest)).
Proof.
  intros H. revert rest. induction H as [|a g pat gs Ha _ IH]; intros rest.
  - simpl. eauto.
  - simpl. destruct Ha as (Hcls & Hlo & Hhi).
    rewrite <- app_assoc.
    pose proof (span_max (cls a) (hi a) g (List.concat gs ++ rest) Hcls Hhi) as Hmax.
    match goal with |- is_Some ?t => destruct t eqn:E end; [eauto|].
    exfalso.
    pose proof (first_down_None _ _ _ E (length g) (conj Hlo Hmax)) as Hn.
    simpl in Hn. rewrite drop_app_length in Hn.
    destruct (IH rest) as [gs' Hgs']. by rewrite Hgs' in Hn.
Qed.

End Regex.

Section Parsers.

Lemma code_inj c d : (code d =? code c)%N = true -> c = d.
Proof.
  intros H. apply N.eqb_eq in H. unfold code in H.
  rewrite <- (ascii_N_embedding c), <- (ascii_N_embedding d). by rewrite H.
Qed.

Lemma one_of_elem set c :
  one_of set c = true -> c ∈ list_ascii_of_string set.
Proof.
  unfold one_of. intros H. apply existsb_exists in H as (d & Hin & Hd).
  apply code_inj in Hd as ->. by apply list_elem_of_In.
Qed.

Lemma str_chars s : str (chars s) = s.
Proof. apply string_of_list_ascii_of_string. Qed.

Lemma chars_str cs : chars (str cs) = cs.
Proof. apply list_ascii_of_string_of_list_ascii. Qed.





(** The unit of a successful match is always a key of [units]. *)
Lemma unit_group_known u :
  atom_accepts (opt (one_of "TGMkmunpf")) u ->
  is_Some (dict_get units (str u)).
Proof.
  intros (Hcls & _ & Hhi). specialize (Hhi 1%nat eq_refl).
  destruct u as [|c [|? ?]]; simpl in Hhi; try lia.
  - vm_compute. eauto.
  - inversion Hcls as [|? ? Hc _]; subst. simpl in Hc.
    apply one_of_elem in Hc. simpl in Hc.
    repeat (apply elem_of_cons in Hc as [->|Hc]; [vm_compute; eauto|]).
    by apply elem_of_nil in Hc.
Qed.

(** C6: the SI decoder never reaches its unit check: text after the number
    that is not a suffix is ignored, decode("10x") is 10.  The three
    examples of the claim hold. *)
Theorem parse_from_number_ignores_trailing_text :
  parse_from_number "10x" = Ok (Fin 10)
  /\ parse_from_number "10kk" = Ok (Fin 10000)
  /\ (forall s, parse_from_number s
                <> Raise (ValueError "Invalid unit in formatted value"))
  /\ parse_from_number "bad" = Raise (ValueError "Invalid formatted value")
  /\ parse_from_number "10k" = Ok (Fin 10000)
  /\ (exists q, parse_from_number "2.5u" = Ok (Fin q) /\ (q == 25 # 10000000)%Q).
Proof.
  split; [reflexivity|]. split; [reflexivity|].
  split; [|split; [reflexivity|split; [reflexivity|]]].
  - intros s. unfold parse_from_number.
    destruct (re_match number_pattern (chars s)) as [gs|] eqn:E; [|discriminate].
    apply re_match_sound in E as [Hall _]. unfold number_pattern in Hall.
    repeat match goal with
           | H : Forall2 _ (_ :: _) _ |- _ => inversion H; clear H; subst
           | H : Forall2 _ [] _ |- _ => inversion H; clear H; subst
           end.
    destruct (py_float _); [|discriminate].
    match goal with
    | H : atom_accepts (opt (one_of "TGMkmunpf")) _ |- _ =>
        apply unit_group_known in H as [sc ->]
    end.
    discriminate.
  - eexists. split; [vm_compute; reflexivity|]. reflexivity.
Qed.

End Parsers.

Section Digits.

Local Open Scope Z_scope.

Lemma digit_cases d :
  0 <= d < 10 ->
  d = 0 \/ d = 1 \/ d = 2 \/ d = 3 \/ d = 4 \/ d = 5 \/ d = 6 \/ d = 7
  \/ d = 8 \/ d = 9.
Proof. lia. Qed.

Ltac each_digit H :=
  apply digit_cases in H;
  repeat (destruct H as [-> | H]; [vm_compute; try done; auto|]);
  subst; vm_compute; try done; auto.

Lemma digit_char_is_digit d : 0 <= d < 10 -> is_digit (digit_char d) = true.
Proof. intros H. each_digit H. Qed.

Lemma digit_char_val d : 0 <= d < 10 -> digit_val (digit_char d) = d.
Proof. intros H. each_digit H. Qed.

Lemma is_digit_code c : is_digit c = true -> (48 <= code c <= 57)%N.
Proof.
  unfold is_digit, in_range. intros H. apply andb_true_iff in H as [H1 H2].
  apply N.leb_le in H1, H2. lia.
Qed.

Lemma is_digit_not_space c : is_digit c = true -> is_space c = false.
Proof.
  intros H. apply is_digit_code in H. unfold is_space, in_range.
  repeat match goal with
         | |- context [(?a <=? ?b)%N] =>
             destruct (N.leb_spec a b); try lia
         | |- context [(?a =? ?b)%N] =>
             destruct (N.eqb_spec a b); try lia
         end; reflexivity.
Qed.

Lemma is_digit_not_code c n :
  is_digit c = true -> (n < 48 \/ 57 < n)%N -> (code c =? n)%N = false.
Proof.
  intros H Hn. apply is_digit_code in H. apply N.eqb_neq. lia.
Qed.

Lemma is_digit_not_one_of c set :
  is_digit c = true ->
  Forall (fun d => is_digit d = false) (chars set) ->
  one_of set c = false.
Proof.
  intros H Hall. unfold one_of. apply not_true_iff_false. intros E.
  apply existsb_exists in E as (d & Hin & Hd). apply code_inj in Hd as ->.
  rewrite Forall_forall in Hall. apply list_elem_of_In in Hin.
  specialize (Hall _ Hin). congruence.
Qed.

Lemma is_digit_lower c : is_digit c = true -> lower c = c.
Proof.
  intros H. apply is_digit_code in H. unfold lower, in_range.
  destruct (N.leb_spec 65 (code c)); [lia|]. reflexivity.
Qed.

Lemma digits_val_snoc ds c :
  digits_val (ds ++ [c]) = 10 * digits_val ds + digit_val c.
Proof. unfold digits_val. by rewrite fold_left_app. Qed.

Lemma digits_val_app ds es :
  digits_val (ds ++ es) = digits_val ds * 10 ^ Z.of_nat (length es) + digits_val es.
Proof.
  induction es as [|e es IH] using rev_ind.
  - rewrite app_nil_r. simpl. change (digits_val []) with 0. lia.
  - rewrite app_assoc, !digits_val_snoc, IH, length_app. simpl.
    rewrite Nat2Z.inj_add, Z.pow_add_r by lia. simpl (Z.of_nat 1).
    change (10 ^ 1) with 10. lia.
Qed.

Lemma digits_of_spec fuel n :
  0 <= n < 2 ^ Z.of_nat (S fuel) ->
  digits_val (digits_of (S fuel) n) = n
  /\ Forall (fun c => is_digit c = true) (digits_of (S fuel) n)
  /\ digits_of (S fuel) n <> [].
Proof.
  revert n. induction fuel as [|fuel IH]; intros n Hn.
  - change (2 ^ Z.of_nat 1) with 2 in Hn. simpl digits_of.
    destruct (Z.ltb_spec n 10) as [Hlt|Hge]; [|lia].
    rewrite Z.mod_small by lia. repeat split.
    + unfold digits_val. simpl. rewrite digit_char_val by lia. lia.
    + repeat constructor. apply digit_char_is_digit. lia.
    + done.
  - remember (S fuel) as f eqn:Ef. simpl digits_of.
    destruct (Z.ltb_spec n 10) as [Hlt|Hge].
    + rewrite Z.mod_small by lia. repeat split.
      * unfold digits_val. simpl. rewrite digit_char_val by lia. lia.
      * repeat constructor. apply digit_char_is_digit. lia.
      * done.
    + assert (0 <= n / 10 < 2 ^ Z.of_nat f) as Hq.
      { rewrite (Nat2Z.inj_succ f), Z.pow_succ_r in Hn by lia.
        split; [apply Z.div_pos; lia|].
        apply Z.div_lt_upper_bound; lia. }
      subst f. destruct (IH _ Hq) as (Hv & Hd & Hne).
      assert (0 <= n mod 10 < 10) as Hm by (apply Z.mod_pos_bound; lia).
      repeat split.
      * rewrite digits_val_snoc, Hv, digit_char_val by done.
        rewrite (Z.div_mod n 10) at 3 by lia. lia.
      * apply Forall_app. split; [done|].
        repeat constructor. by apply digit_char_is_digit.
      * intros E. by apply app_eq_nil in E as [_ ?].
Qed.

Lemma Z_digits_spec n :
  0 <= n ->
  digits_val (Z_digits n) = n
  /\ Forall (fun c => is_digit c = true) (Z_digits n)
  /\ Z_digits n <> [].
Proof.
  intros Hn. unfold Z_digits. apply digits_of_spec. split; [done|].
  rewrite Nat2Z.inj_succ, Z2Nat.id by apply Z.log2_nonneg.
  destruct (decide (n = 0)) as [->|]; [done|].
  apply Z.log2_spec. lia.
Qed.

Lemma Z_digits_small d : 0 <= d < 10 -> Z_digits d = [digit_char d].
Proof.
  intros H. unfold Z_digits. simpl digits_of.
  destruct (Z.ltb_spec d 10); [|lia]. by rewrite Z.mod_small by lia.
Qed.

(** [digitpart] reads a run of digits up to a character that is neither a
    digit nor an underscore. *)
Definition stops_digits (rest : list ascii) : Prop :=
  match rest with
  | [] => True
  | c :: _ => is_digit c = false /\ (code c =? 95)%N = false
  end.

Lemma digitpart_tail_run ds rest :
  Forall (fun c => is_digit c = true) ds -> stops_digits rest ->
  digitpart_tail (ds ++ rest) = (ds, rest).
Proof.
  intros Hds Hrest. induction Hds as [|c ds Hc _ IH]; simpl.
  - destruct rest as [|c r]; [done|]. destruct Hrest as [Hd Hu].
    simpl. by rewrite Hd, Hu.
  - by rewrite Hc, IH.
Qed.

Lemma digitpart_run ds rest :
  ds <> [] -> Forall (fun c => is_digit c = true) ds -> stops_digits rest ->
  digitpart (ds ++ rest) = (ds, rest).
Proof.
  intros Hne Hds Hrest. destruct ds as [|c ds]; [done|].
  inversion Hds as [|? ? Hc Hds']; subst. simpl.
  by rewrite Hc, digitpart_tail_run.
Qed.

End Digits.

Section Codec.

Lemma span_exact p b g rest :
  Forall (fun c => p c = true) g ->
  (forall h, b = Some h -> (length g <= h)%nat) ->
  match rest with
  | [] => True
  | c :: _ => p c = false \/ b = Some (length g)
  end ->
  span p b (g ++ rest) = length g.
Proof.
  intros Hg. revert b. induction Hg as [|c g Hc _ IH]; intros b Hb Hrest.
  - simpl. destruct rest as [|c r].
    + by destruct b as [[|?]|].
    + destruct b as [[|n]|]; simpl; [done| |].
      * destruct Hrest as [-> | [=]]. done.
      * destruct Hrest as [-> | [=]]. done.
  - simpl. destruct b as [[|n]|].
    + specialize (Hb 0%nat eq_refl). simpl in Hb. lia.
    + rewrite Hc. f_equal. apply (IH (Some n)).
      * intros h [= <-]. specialize (Hb _ eq_refl). simpl in Hb. lia.
      * destruct rest; [done|]. destruct Hrest as [?|[= ->]]; auto.
    + rewrite Hc. f_equal. apply (IH None); [intros ? [=]|].
      destruct rest; [done|]. destruct Hrest as [?|[=]]; auto.
Qed.

(** One step of [re_match] where the greedy count is the right one. *)
Lemma re_match_step a pat g rest gs :
  atom_accepts a g ->
  span (cls a) (hi a) (g ++ rest) = length g ->
  re_match pat rest = Some gs ->
  re_match (a :: pat) (g ++ rest) = Some (g :: gs).
Proof.
  intros (_ & Hlo & _) Hspan Hrest. cbn [re_match]. rewrite Hspan.
  apply first_down_top; [done|].
  by rewrite drop_app_length, take_app_length, Hrest.
Qed.

Lemma dropwhile_head p c r : p c = false -> dropwhile p (c :: r) = c :: r.
Proof. intros H. simpl. by rewrite H. Qed.

Lemma strip_id c cs d ds :
  is_space c = false -> is_space d = false ->
  rev (c :: cs) = d :: ds -> strip (c :: cs) = c :: cs.
Proof.
  intros Hc Hd Hrev. unfold strip. rewrite (dropwhile_head _ _ _ Hc), Hrev.
  rewrite (dropwhile_head _ _ _ Hd), <- Hrev. apply rev_involutive.
Qed.

Lemma not_word_digit c cs w :
  is_digit c = true ->
  Forall (fun d => is_digit d = false) (take 1 (chars w)) ->
  (str (map lower (c :: cs)) =? w) = false.
Proof.
  intros Hc Hw. simpl. rewrite (is_digit_lower _ Hc).
  destruct w as [|d w]; [done|]. simpl in Hw. inversion Hw as [|? ? Hd _]; subst.
  simpl. destruct (Ascii.eqb_spec c d) as [->|]; [congruence|done].
Qed.

Lemma si_units_cases u :
  u ∈ si_units ->
  u = "T" \/ u = "G" \/ u = "M" \/ u = "k" \/ u = "" \/ u = "m" \/ u = "u"
  \/ u = "n" \/ u = "p" \/ u = "f".
Proof.
  unfold si_units. intros H.
  repeat (apply elem_of_cons in H as [->|H]; [tauto|]).
  by apply elem_of_nil in H.
Qed.

(** The digits of a two-place decimal. *)
Lemma decimal2_parts neg n :
  (0 <= n)%Z ->
  exists ip d1 d2,
    decimal2 neg n = (if neg then chars "-" else []) ++ ip ++ chars "." ++ [d1; d2]
    /\ ip <> []
    /\ Forall (fun c => is_digit c = true) ip
    /\ is_digit d1 = true /\ is_digit d2 = true
    /\ digits_val (ip ++ [d1; d2]) = n.
Proof.
  intros Hn. unfold decimal2.
  assert (0 <= n mod 100 < 100)%Z as Hm by (apply Z.mod_pos_bound; lia).
  assert (0 <= n mod 100 / 10 < 10)%Z as H1.
  { split; [apply Z.div_pos; lia|]. apply Z.div_lt_upper_bound; lia. }
  assert (0 <= (n mod 100) mod 10 < 10)%Z as H2
    by (apply Z.mod_pos_bound; lia).
  assert (0 <= n / 100)%Z as Hq by (apply Z.div_pos; lia).
  destruct (Z_digits_spec _ Hq) as (Hv & Hd & Hne).
  rewrite (Z_digits_small _ H1), (Z_digits_small _ H2).
  exists (Z_digits (n / 100)), (digit_char (n mod 100 / 10)),
    (digit_char ((n mod 100) mod 10)).
  repeat split; auto using digit_char_is_digit.
  rewrite digits_val_app, Hv. unfold digits_val. simpl.
  rewrite !digit_char_val by done.
  pose proof (Z.div_mod n 100). pose proof (Z.div_mod (n mod 100) 10). lia.
Qed.

Lemma py_float_decimal2 neg n :
  (0 <= n)%Z ->
  py_float (str (decimal2 neg n))
  = Some (Fin (if neg then - (inject_Z n * pow10 (-2))
               else inject_Z n * pow10 (-2))).
Proof.
  intros Hn.
  destruct (decimal2_parts neg n Hn)
    as (ip & d1 & d2 & -> & Hne & Hip & Hd1 & Hd2 & Hval).
  destruct ip as [|c ip]; [done|]. apply Forall_cons in Hip as [Hc Hip'].
  unfold py_float. rewrite chars_str.
  assert (strip ((if neg then chars "-" else []) ++ (c :: ip) ++ chars "." ++ [d1; d2])
          = (if neg then chars "-" else []) ++ (c :: ip) ++ chars "." ++ [d1; d2])
    as ->.
  { destruct neg; simpl.
    - eapply (strip_id _ _ d2); [done|by apply is_digit_not_space|].
      change ("-"%char :: c :: ip ++ ["."%char; d1; d2])
        with (("-"%char :: c :: ip) ++ ["."%char; d1] ++ [d2]).
      rewrite app_assoc. apply rev_unit.
    - eapply (strip_id _ _ d2);
        [by apply is_digit_not_space|by apply is_digit_not_space|].
      change (c :: ip ++ ["."%char; d1; d2])
        with ((c :: ip) ++ ["."%char; d1] ++ [d2]).
      rewrite app_assoc. apply rev_unit. }
  assert (take_sign ((if neg then chars "-" else []) ++ (c :: ip) ++ chars "." ++ [d1; d2])
          = (neg, (c :: ip) ++ chars "." ++ [d1; d2])) as ->.
  { destruct neg; [done|]. simpl.
    by rewrite !(is_digit_not_code c) by (done || lia). }
  cbv zeta. cbn [app].
  rewrite !(not_word_digit c) by (done || by repeat constructor).
  cbn [orb].
  unfold floatnumber.
  change (c :: ip ++ chars "." ++ [d1; d2])
    with ((c :: ip) ++ (chars "." ++ [d1; d2])).
  rewrite (digitpart_run (c :: ip) (chars "." ++ [d1; d2]));
    [|done|by constructor|by split].
  cbn [chars list_ascii_of_string app].
  change ((code "." =? 46)%N) with true. cbv iota.
  change [d1; d2] with ([d1; d2] ++ []).
  rewrite (digitpart_run [d1; d2] []); [|done|by repeat constructor|done].
  change (exponent []) with (Some 0%Z). cbv iota. cbn [length].
  change (digits_val (c :: ip ++ [d1; d2]))
    with (digits_val ((c :: ip) ++ [d1; d2])).
  rewrite Hval. change (0 - Z.of_nat 2)%Z with (-2)%Z.
  by destruct neg.
Qed.

Lemma re_match_decimal2 neg n u :
  (0 <= n)%Z -> u ∈ si_units ->
  exists sg ip dot fp,
    re_match number_pattern (decimal2 neg n ++ chars u)
    = Some [sg; ip; dot; fp; chars u]
    /\ sg ++ ip ++ dot ++ fp = decimal2 neg n.
Proof.
  intros Hn Hu.
  destruct (decimal2_parts neg n Hn)
    as (ip & d1 & d2 & -> & Hne & Hip & Hd1 & Hd2 & _).
  exists (if neg then chars "-" else []), ip, (chars "."), [d1; d2].
  split; [|done].
  destruct ip as [|c ip]; [done|]. apply Forall_cons in Hip as [Hc Hip'].
  unfold number_pattern. rewrite <- !app_assoc.
  apply re_match_step.
  { destruct neg; repeat split; simpl; try lia; repeat constructor.
    all: intros ? [= <-]; lia. }
  { apply span_exact.
    - destruct neg; repeat constructor.
    - destruct neg; intros ? [= <-]; simpl; lia.
    - destruct neg; simpl; [by right|left].
      apply is_digit_not_one_of; [done|by repeat constructor]. }
  apply re_match_step.
  { repeat split; simpl; try lia; [by constructor|intros ? [=]]. }
  { apply span_exact; [by constructor|intros ? [=]|]. simpl. by left. }
  apply re_match_step.
  { repeat split; simpl; try lia; repeat constructor. intros ? [= <-]. lia. }
  { apply span_exact; [repeat constructor|intros ? [= <-]; simpl; lia|].
    simpl. by right. }
  apply re_match_step.
  { repeat split; simpl; try lia; [by repeat constructor|intros ? [=]]. }
  { apply span_exact; [by repeat constructor|intros ? [=]|].
    apply si_units_cases in Hu.
    repeat (destruct Hu as [->|Hu]; [simpl; auto|]). subst. simpl. auto. }
  rewrite <- (app_nil_r (chars u)) at 1.
  apply re_match_step; [| |done].
  { apply si_units_cases in Hu.
    repeat (destruct Hu as [->|Hu];
            [repeat split; simpl; try lia; repeat constructor;
             intros ? [= <-]; lia|]).
    subst. repeat split; simpl; try lia; repeat constructor.
    intros ? [= <-]; lia. }
  { apply si_units_cases in Hu.
    repeat (destruct Hu as [->|Hu]; [reflexivity|]). subst. reflexivity. }
Qed.

End Codec.

Section RoundTrip.

Local Open Scope Q_scope.

Lemma round_half_even_spec r :
  0 <= r ->
  (0 <= round_half_even r)%Z
  /\ - (1 # 2) <= inject_Z (round_half_even r) - r <= 1 # 2.
Proof.
  intros Hr. unfold round_half_even.
  pose proof (Qfloor_le r) as Hlo. pose proof (Qlt_floor r) as Hhi.
  assert (0 <= Qfloor r)%Z as Hf.
  { change 0%Z with (Qfloor 0). by apply Qfloor_resp_le. }
  rewrite inject_Z_plus in Hhi. change (inject_Z 1) with 1 in Hhi.
  destruct (r - inject_Z (Qfloor r) ?= 1 # 2) eqn:E.
  - apply Qeq_alt in E.
    destruct (Z.even (Qfloor r)); (split; [lia|]);
      rewrite ?inject_Z_plus; change (inject_Z 1) with 1; lra.
  - apply Qlt_alt in E. split; [lia|]. lra.
  - apply Qgt_alt in E. split; [lia|].
    rewrite inject_Z_plus. change (inject_Z 1) with 1. lra.
Qed.

(** The decimal printed for a mantissa is within half a hundredth of it. *)
Lemma mantissa_error q :
  let n := round_half_even (Qabs q * 100) in
  let v := if negb (Qle_bool 0 q) then - (inject_Z n * pow10 (-2))
           else inject_Z n * pow10 (-2) in
  (0 <= n)%Z /\ Qabs (v - q) <= 1 # 200.
Proof.
  intros n v.
  assert (0 <= Qabs q * 100) as Hr.
  { pose proof (Qabs_nonneg q). lra. }
  destruct (round_half_even_spec _ Hr) as [Hn Herr]. fold n in Hn, Herr.
  split; [done|]. apply Qabs_Qle_condition. subst v.
  change (pow10 (-2)) with (1 # 100).
  destruct (Qle_bool 0 q) eqn:E; simpl.
  - apply Qle_bool_iff in E. rewrite (Qabs_pos q E) in Herr. lra.
  - assert (q < 0) as Hq.
    { apply Qnot_le_lt. intros H. apply Qle_bool_iff in H. congruence. }
    rewrite (Qabs_neg q) in Herr by lra. lra.
Qed.

Lemma scaled_error x sc v :
  0 < sc -> sc <= Qabs x -> Qabs (v - x / sc) <= 1 # 200 ->
  Qabs (v * sc - x) <= (5 # 1000) * Qabs x.
Proof.
  intros Hsc Hx Hv.
  assert (v * sc - x == (v - x / sc) * sc) as -> by (field; lra).
  rewrite Qabs_Qmult, (Qabs_pos sc) by lra.
  pose proof (Qabs_nonneg (v - x / sc)).
  apply Qle_trans with ((1 # 200) * sc).
  - apply Qmult_le_compat_r; lra.
  - lra.
Qed.

(** The table of [format_with_units] in descending order of scale. *)
Definition scale_ge (e1 e2 : string * xnum) : Prop :=
  exists a b, e1.2 = Fin a /\ e2.2 = Fin b /\ b <= a.

Lemma si_table_sorted : StronglySorted scale_ge (zip si_units si_scales).
Proof.
  unfold si_units, si_scales. simpl.
  repeat (constructor;
          [|repeat (constructor;
                    [eexists _, _; split; [reflexivity|split; [reflexivity|]];
                     by vm_compute|]);
            constructor]).
  constructor.
Qed.

Lemma si_table_units u sc :
  (u, sc) ∈ zip si_units si_scales -> u ∈ si_units /\ dict_get units u = Some sc.
Proof.
  unfold si_units, si_scales. simpl. intros H.
  repeat (apply elem_of_cons in H as [[= -> ->]|H];
          [split; [set_solver|reflexivity]|]).
  by apply elem_of_nil in H.
Qed.

Lemma si_table_positive u sc :
  (u, Fin sc) ∈ zip si_units si_scales -> 0 < sc.
Proof.
  unfold si_units, si_scales. simpl. intros H.
  repeat (apply elem_of_cons in H as [[= -> ->]|H]; [by vm_compute|]).
  by apply elem_of_nil in H.
Qed.

Lemma si_table_f sc :
  ("f", Fin sc) ∈ zip si_units si_scales -> sc = 1 * pow10 (-15).
Proof.
  unfold si_units, si_scales. simpl. intros H.
  repeat (apply elem_of_cons in H as [H|H];
          [try discriminate H; by injection H as <-|]).
  by apply elem_of_nil in H.
Qed.

(** The loop returns at the first entry whose scale is at most |x|. *)
Lemma format_loop_select table x :
  Forall (fun e : string * xnum =>
            exists sc, e.2 = Fin sc /\ 0 < sc
                       /\ (e.1 = "f" -> sc <= Qabs x)) table ->
  Exists (fun e : string * xnum => e.1 = "f") table ->
  exists pre u sc post,
    table = pre ++ (u, Fin sc) :: post
    /\ Forall (fun e : string * xnum =>
                 exists s', e.2 = Fin s' /\ ~ s' <= Qabs x) pre
    /\ sc <= Qabs x
    /\ format_loop table (Fin x)
       = str (format_2f (Fin (x / sc)) ++ chars u).
Proof.
  induction table as [|[u s] table IH]; intros Hall Hex.
  - inversion Hex.
  - apply Forall_cons in Hall as [(sc & Hs & Hpos & Hf) Hall].
    simpl in Hs, Hf. subst s. cbn [format_loop].
    unfold xgeb. cbn [xabs xleb].
    destruct (Qle_bool sc (Qabs x)) eqn:E.
    + exists [], u, sc, table. apply Qle_bool_iff in E.
      repeat split; [constructor|done|]. cbn [orb xdiv].
      destruct (Qeq_bool sc 0) eqn:Z; [|done].
      apply Qeq_bool_iff in Z. lra.
    + assert (~ sc <= Qabs x) as Hn
        by (intros H; apply Qle_bool_iff in H; congruence).
      destruct (String.eqb_spec u "f") as [->|Hu]; [by destruct Hn; auto|].
      cbn [orb].
      destruct IH as (pre & u' & sc' & post & -> & Hpre & Hle & Heq); [done| |].
      { apply Exists_cons in Hex as [?|?]; [done|done]. }
      exists ((u, Fin sc) :: pre), u', sc', post.
      repeat split; [|done|done]. constructor; [|done]. by exists sc.
Qed.

(** C7: for every number x with |x| in [1e-15, 1e12], encode picks the
    largest SI scale that is at most |x| (the table is scanned from T down
    to f), prints the mantissa x/scale with two decimals and appends the
    suffix; decoding that text gives a number within 0.5% of x. *)
Theorem si_round_trip (x : Q) :
  pow10 (-15) <= Qabs x <= pow10 12 ->
  exists unit scale y,
    (unit, Fin scale) ∈ zip si_units si_scales
    /\ scale <= Qabs x
    /\ (forall u' s', (u', Fin s') ∈ zip si_units si_scales ->
                      s' <= Qabs x -> s' <= scale)
    /\ format_with_units (Fin x)
       = str (format_2f (Fin (x / scale)) ++ chars unit)
    /\ parse_from_number (format_with_units (Fin x)) = Ok (Fin y)
    /\ Qabs (y - x) <= (5 # 1000) * Qabs x.
Proof.
  intros [Hlo _].
  destruct (format_loop_select (zip si_units si_scales) x)
    as (pre & u & sc & post & Htab & Hpre & Hle & Hfmt).
  { apply Forall_forall. intros [u s] Hin.
    assert (exists sc, s = Fin sc) as [sc ->].
    { revert Hin. unfold si_units, si_scales. simpl. intros H.
      repeat (apply elem_of_cons in H as [[= -> ->]|H]; [by eexists|]).
      by apply elem_of_nil in H. }
    exists sc. split; [done|]. split; [by eapply si_table_positive|].
    simpl. intros ->. apply si_table_f in Hin as ->.
    change (1 * pow10 (-15)) with (1 * (1 # 1000000000000000)).
    change (pow10 (-15)) with (1 # 1000000000000000) in Hlo. lra. }
  { apply Exists_exists. exists ("f", sci 1 (-15)).
    split; [|done]. unfold si_units, si_scales. simpl.
    repeat first [by apply list_elem_of_here | apply list_elem_of_further]. }
  assert ((u, Fin sc) ∈ zip si_units si_scales) as Hin
    by (rewrite Htab; set_solver).
  pose proof (si_table_positive _ _ Hin) as Hpos.
  destruct (si_table_units _ _ Hin) as [Hu Hdict].
  destruct (mantissa_error (x / sc)) as [Hn Herr].
  set (n := round_half_even (Qabs (x / sc) * 100)) in *.
  set (neg := negb (Qle_bool 0 (x / sc))) in *.
  eexists u, sc, _. split; [done|]. split; [done|].
  split; [|split; [exact Hfmt|]].
  - intros u' s' Hin' Hs'. rewrite Htab in Hin'.
    apply elem_of_app in Hin' as [Hin'|Hin'].
    + rewrite Forall_forall in Hpre. destruct (Hpre _ Hin') as (s'' & [= <-] & Hno).
      by destruct Hno.
    + apply elem_of_cons in Hin' as [[= -> ->]|Hin']; [lra|].
      pose proof si_table_sorted as Hsorted. rewrite Htab in Hsorted.
      apply StronglySorted_app_1_r in Hsorted.
      apply StronglySorted_cons in Hsorted as [Hsorted _].
      rewrite Forall_forall in Hsorted.
      destruct (Hsorted _ Hin') as (a & b & [= <-] & [= <-] & ?). done.
  - unfold format_with_units. rewrite Hfmt. cbn [format_2f]. fold n neg.
    unfold parse_from_number. rewrite chars_str.
    destruct (re_match_decimal2 neg n u Hn Hu)
      as (sg & ip & dot & fp & -> & Hcat).
    rewrite Hcat, py_float_decimal2 by done.
    rewrite str_chars, Hdict. cbn [xmul]. split; [reflexivity|].
    apply scaled_error; [done|done|]. exact Herr.
Qed.

(** [si_round_trip] at x = 1234.5, printed as 1.23k. *)
Lemma si_round_trip_witness :
  (pow10 (-15) <= Qabs (12345 # 10) <= pow10 12)
  /\ exists unit scale y,
      (unit, Fin scale) ∈ zip si_units si_scales
      /\ scale <= Qabs (12345 # 10)
      /\ (forall u' s', (u', Fin s') ∈ zip si_units si_scales ->
                        s' <= Qabs (12345 # 10) -> s' <= scale)
      /\ format_with_units (Fin (12345 # 10))
         = str (format_2f (Fin ((12345 # 10) / scale)) ++ chars unit)
      /\ parse_from_number (format_with_units (Fin (12345 # 10))) = Ok (Fin y)
      /\ Qabs (y - (12345 # 10)) <= (5 # 1000) * Qabs (12345 # 10).
Proof.
  assert (pow10 (-15) <= Qabs (12345 # 10) <= pow10 12) as H.
  { split; vm_compute; discriminate. }
  split; [exact H|]. exact (si_round_trip (12345 # 10) H).
Defined.

End RoundTrip.

(* ===================================================================== *)
(** ** Frame reasoning: what a method leaves alone                        *)
(* ===================================================================== *)

Section Preservation.

(** [preserves Inv m phi]: started in a world satisfying [Inv], [m] ends,
    normally or with an exception, in a world satisfying [Inv], and a
    value it returns satisfies [phi]. *)
Definition preserves (Inv : world -> Prop) {A} (m : M A) (phi : A -> Prop)
  : Prop :=
  forall w r w', Inv w -> m w = (r, w') ->
                 Inv w' /\ forall a, r = Ok a -> phi a.

Variable Inv : world -> Prop.

Lemma preserves_ret {A} (a : A) (phi : A -> Prop) :
  phi a -> preserves Inv (ret a) phi.
Proof. intros Ha w r w' HI [= <- <-]. split; [done|]. by intros ? [= <-]. Qed.

Lemma preserves_raise {A} e (phi : A -> Prop) : preserves Inv (raise e) phi.
Proof. intros w r w' HI [= <- <-]. split; [done|]. by intros ? [=]. Qed.

Lemma preserves_lift {A} (r0 : result A) : preserves Inv (lift r0) (fun _ => True).
Proof. intros w r w' HI [= <- <-]. by split. Qed.

Lemma preserves_bind {A B} (m : M A) (k : A -> M B) phi psi :
  preserves Inv m phi ->
  (forall a, phi a -> preserves Inv (k a) psi) ->
  preserves Inv (bind m k) psi.
Proof.
  intros Hm Hk w r w' HI. unfold bind.
  destruct (m w) as [[a|e] w1] eqn:E.
  - destruct (Hm _ _ _ HI E) as [HI1 Ha]. intros Hr.
    eapply Hk; [by apply Ha|exact HI1|exact Hr].
  - destruct (Hm _ _ _ HI E) as [HI1 _]. intros [= <- <-].
    split; [done|]. by intros ? [=].
Qed.

Lemma preserves_weaken {A} (m : M A) (phi psi : A -> Prop) :
  preserves Inv m phi -> (forall a, phi a -> psi a) -> preserves Inv m psi.
Proof.
  intros Hm Himp w r w' HI E. destruct (Hm _ _ _ HI E) as [? Ha].
  split; [done|]. intros a Hr. by apply Himp, Ha.
Qed.

Lemma preserves_map_m {A B} (f : A -> M B) xs :
  (forall x, preserves Inv (f x) (fun _ => True)) ->
  preserves Inv (map_m f xs) (fun _ => True).
Proof.
  intros Hf. induction xs as [|x xs IH]; simpl.
  - by apply preserves_ret.
  - eapply preserves_bind; [apply Hf|]. intros y _.
    eapply preserves_bind; [apply IH|]. intros ys _. by apply preserves_ret.
Qed.

Lemma preserves_for_each {A} (body : A -> M unit) xs :
  (forall x, preserves Inv (body x) (fun _ => True)) ->
  preserves Inv (for_each xs body) (fun _ => True).
Proof.
  intros Hb. induction xs as [|x xs IH]; simpl.
  - by apply preserves_ret.
  - eapply preserves_bind; [apply Hb|]. intros _ _. apply IH.
Qed.

Lemma preserves_fold_m {A S} (body : S -> A -> M S) s xs :
  (forall s x, preserves Inv (body s x) (fun _ => True)) ->
  preserves Inv (fold_m body s xs) (fun _ => True).
Proof.
  intros Hb. revert s. induction xs as [|x xs IH]; intros s; simpl.
  - by apply preserves_ret.
  - eapply preserves_bind; [apply Hb|]. intros s' _. apply IH.
Qed.

(** Operations that do not change the world. *)
Lemma preserves_attr name : preserves Inv (attr name) (fun _ => True).
Proof.
  intros w r w' HI. unfold attr. destruct (self w !! name); intros [= <- <-]; by split.
Qed.

Lemma preserves_attr_frame name :
  preserves Inv (attr_frame name) (fun _ => True).
Proof.
  unfold attr_frame. eapply preserves_bind; [apply preserves_attr|].
  intros [?|?|?] _; try apply preserves_raise. by apply preserves_ret.
Qed.

Lemma preserves_attr_list name :
  preserves Inv (attr_list name) (fun _ => True).
Proof.
  unfold attr_list. eapply preserves_bind; [apply preserves_attr|].
  intros [?|?|?] _; try apply preserves_raise. by apply preserves_ret.
Qed.

Lemma preserves_deref l : preserves Inv (deref l) (fun _ => True).
Proof.
  intros w r w' HI. unfold deref. destruct (heap w !! l); intros [= <- <-]; by split.
Qed.

Lemma preserves_read {A} l (f : DataFrame -> result A) :
  preserves Inv (read l f) (fun _ => True).
Proof.
  unfold read. eapply preserves_bind; [apply preserves_deref|].
  intros F _. apply preserves_lift.
Qed.

Lemma preserves_self_getitem a c :
  preserves Inv (self_getitem a c) (fun _ => True).
Proof.
  unfold self_getitem. eapply preserves_bind; [apply preserves_attr_frame|].
  intros l _. apply preserves_read.
Qed.

Lemma preserves_float s : preserves Inv (float s) (fun _ => True).
Proof.
  unfold float. destruct (py_float s); [by apply preserves_ret|apply preserves_raise].
Qed.

End Preservation.

Section BaseTable.

Variable m : positive.
Variable Fm : DataFrame.

(** The base table is in place. *)
Definition base_kept (w : world) : Prop :=
  self w !! "mod_df" = Some (PyFrame m) /\ heap w !! m = Some Fm.

(** ... and the stored result is not an alias of it. *)
Definition base_apart (w : world) : Prop :=
  base_kept w
  /\ forall c, self w !! "conditional_df" = Some (PyFrame c) -> c <> m.

Lemma apart_alloc F : preserves base_apart (alloc F) (fun l => l <> m).
Proof.
  intros w r w' [[Hs Hh] Hc] [= <- <-].
  assert (fresh (dom (heap w)) <> m) as Hne.
  { intros E. pose proof (is_fresh (dom (heap w))) as Hf. rewrite E in Hf.
    apply Hf. apply elem_of_dom. eauto. }
  split; [|by intros ? [= <-]].
  split; [split|]; simpl; [done| |done]. by rewrite lookup_insert_ne.
Qed.

Lemma apart_derive l f : preserves base_apart (derive l f) (fun l' => l' <> m).
Proof.
  unfold derive. eapply preserves_bind; [apply preserves_deref|].
  intros F _. apply apart_alloc.
Qed.

Lemma apart_store l F : l <> m -> preserves base_apart (store l F) (fun _ => True).
Proof.
  intros Hl w r w' [[Hs Hh] Hc] [= <- <-]. split; [|done].
  split; [split|]; simpl; [done| |done]. by rewrite lookup_insert_ne.
Qed.

Lemma apart_update l f : l <> m -> preserves base_apart (update l f) (fun _ => True).
Proof.
  intros Hl. unfold update. eapply preserves_bind; [apply preserves_deref|].
  intros F _. by apply apart_store.
Qed.

Lemma apart_set_result c :
  c <> m ->
  preserves base_apart (set_attr "conditional_df" (PyFrame c)) (fun _ => True).
Proof.
  intros Hc w r w' [[Hs Hh] _] [= <- <-]. split; [|done].
  split; [split|]; simpl; [by rewrite lookup_insert_ne|done|].
  intros c'. rewrite lookup_insert_eq. by intros [= <-].
Qed.

Lemma apart_result : preserves base_apart (attr_frame "conditional_df") (fun c => c <> m).
Proof.
  intros w r w' HI. unfold attr_frame, bind, attr.
  destruct (self w !! "conditional_df") as [[?|c|?]|] eqn:E;
    intros [= <- <-]; (split; [done|]); try (by intros ? [=]).
  intros ? [= <-]. destruct HI as [_ Hc]. by apply Hc.
Qed.

Ltac frame_step :=
  first
    [ apply preserves_ret; done
    | apply preserves_raise
    | eapply preserves_weaken; [apply preserves_raise|done]
    | apply apart_update; assumption
    | apply apart_set_result; assumption
    | eapply preserves_weaken;
        [first [ apply preserves_attr_list | apply preserves_attr_frame
               | apply preserves_read | apply preserves_self_getitem
               | apply preserves_float | apply preserves_deref
               | apply preserves_lift | apply apart_update; assumption
               | apply apart_set_result; assumption ]|done]
    | eapply preserves_bind;
        [first [ apply apart_result | apply apart_derive | apply apart_alloc
               | apply preserves_attr_list | apply preserves_attr_frame
               | apply preserves_read | apply preserves_self_getitem
               | apply preserves_float | apply preserves_deref
               | apply preserves_lift ]
        | intros ? ? ] ].

Lemma apart_resize_body a b flag row :
  preserves base_apart (resize_body a b flag row) (fun _ => True).
Proof.
  destruct row as [[row0 row1] row2]. unfold resize_body.
  eapply preserves_bind.
  { eapply preserves_bind; [apply preserves_attr_frame|]. intros ? _.
    apply apart_derive. }
  intros temp Htemp. frame_step.
  eapply preserves_bind with (phi := fun _ => True).
  { destruct (in_list row0 _).
    - repeat frame_step.
    - frame_step. destruct (in_list row0 _); repeat frame_step. }
  intros _ _. frame_step. frame_step.
  destruct (in_list row0 _); [|by apply preserves_ret].
  eapply preserves_bind; [by apply apart_update|]. intros _ _.
  eapply preserves_bind.
  { eapply preserves_bind; [apply preserves_read|]. intros ? _. apply apart_derive. }
  intros temp1 Htemp1.
  eapply preserves_bind.
  { eapply preserves_bind; [apply preserves_read|]. intros ? _.
    eapply preserves_bind; [apply preserves_read|]. intros ? _. apply apart_derive. }
  intros temp2 Htemp2.
  eapply preserves_bind with (phi := fun _ => True).
  { repeat frame_step. }
  intros _ _.
  eapply preserves_bind with (phi := fun _ => True).
  { repeat frame_step. }
  intros _ _.
  eapply preserves_bind with (phi := fun _ => True).
  { repeat frame_step. }
  intros _ _. by apply preserves_ret.
Qed.

Lemma apart_match_body p cond :
  preserves base_apart (match_body p cond) (fun _ => True).
Proof.
  destruct cond as [[c0 c1] c2]. unfold match_body.
  assert (forall c rhs,
    preserves base_apart
      (let! l := attr_frame "conditional_df" in
       let! met := read l (fun F => getitem_bool F "met_specs") in
       let! l' := attr_frame "conditional_df" in
       let! hit := read l' (fun F => frame_eval F c0 c rhs) in
       let! l'' := attr_frame "conditional_df" in
       update l'' (fun F => setitem_bool F "met_specs" (series_and met hit)))
      (fun _ => True)) as Hand.
  { intros c rhs. repeat frame_step. }
  destruct (c1 =? "=").
  - frame_step. eapply preserves_bind; [apply Hand|]. intros _ _. apply Hand.
  - destruct (c1 =? ">"); [apply Hand|].
    destruct (c1 =? "<"); [apply Hand|]. by apply preserves_ret.
Qed.

(** C9: whatever the condition list and the options, and however the call
    ends, [compute_conditional_df] leaves the attribute [mod_df] and the
    frame it refers to as they were; hence a second call on the same
    object starts from the same base table, and leaves it unchanged too. *)
Theorem compute_keeps_mod_df conditions p a b w r w' :
  self w !! "mod_df" = Some (PyFrame m) ->
  heap w !! m = Some Fm ->
  compute_conditional_df conditions p a b w = (r, w') ->
  (self w' !! "mod_df" = Some (PyFrame m) /\ heap w' !! m = Some Fm)
  /\ forall conditions2 p2 a2 b2 r2 w'',
       compute_conditional_df conditions2 p2 a2 b2 w' = (r2, w'') ->
       self w'' !! "mod_df" = Some (PyFrame m) /\ heap w'' !! m = Some Fm.
Proof.
  assert (forall conditions p a b w r w',
    base_kept w -> compute_conditional_df conditions p a b w = (r, w') ->
    base_kept w') as Hone.
  { clear. intros conditions p a b w r w' Hk. unfold compute_conditional_df.
    unfold bind at 1.
    destruct (map_m _ conditions w) as [[parsed|e] w0] eqn:Eparse.
    2:{ intros [= <- <-].
        eapply (preserves_map_m base_kept); [|exact Hk|exact Eparse].
        intros x. apply preserves_lift. }
    assert (base_kept w0) as Hk0.
    { eapply (preserves_map_m base_kept); [|exact Hk|exact Eparse].
      intros x. apply preserves_lift. }
    clear Eparse Hk w. unfold bind at 1.
    match goal with
    | |- context [match ?blk w0 with _ => _ end] =>
        destruct (blk w0) as [[[]|e] w1] eqn:Einit
    end.
    2:{ intros [= <- <-]. revert Einit. destruct Hk0 as [Hs Hh].
        unfold bind, attr_frame, attr, read, deref, bind, lift, alloc, set_attr, ret.
        rewrite Hs. simpl. rewrite Hh. simpl. discriminate. }
    assert (base_apart w1) as Ha1.
    { revert Einit. destruct Hk0 as [Hs Hh].
      unfold bind, attr_frame, attr, read, deref, bind, lift, alloc, set_attr, ret.
      rewrite Hs. simpl. rewrite Hh. simpl. intros [= <-].
      assert (fresh (dom (heap w0)) <> m) as Hne.
      { intros E. pose proof (is_fresh (dom (heap w0))) as Hf. rewrite E in Hf.
        apply Hf. apply elem_of_dom. eauto. }
      split; [split|]; simpl.
      - by rewrite lookup_insert_ne.
      - by rewrite lookup_insert_ne.
      - intros c. rewrite lookup_insert_eq. by intros [= <-]. }
    clear Einit Hk0 w0. intros Hrest.
    assert (preserves base_apart
      (let! flag := fold_m (resize_body a b) false parsed in
       do! (let! l := attr_frame "conditional_df" in
            let! w := read l (fun F => getitem F "W") in
            let! l' := attr_frame "conditional_df" in
            let! len := read l' (fun F => getitem F "L") in
            let! l'' := attr_frame "conditional_df" in
            update l'' (fun F => setitem F "area" (series_zip xmul w len))) in
       if negb flag then raise (Exception "The conditions are not sufficient")
       else
         do! (let! l := attr_frame "conditional_df" in
              update l (fun F => setitem_scalar F "met_specs" (Bool true))) in
         for_each parsed (match_body p)) (fun _ => True)) as Hp.
    { eapply preserves_bind.
      { apply preserves_fold_m. intros. apply apart_resize_body. }
      intros flag _.
      eapply preserves_bind with (phi := fun _ => True).
      { repeat frame_step. }
      intros _ _. destruct (negb flag); [apply preserves_raise|].
      eapply preserves_bind with (phi := fun _ => True).
      { repeat frame_step. }
      intros _ _. apply preserves_for_each. intros. apply apart_match_body. }
    destruct (Hp _ _ _ Ha1 Hrest) as [[Hk' _] _]. exact Hk'. }
  intros Hs Hh Hrun.
  assert (base_kept w') as Hk' by (eapply Hone; [split; eassumption|exact Hrun]).
  split; [exact Hk'|].
  intros conditions2 p2 a2 b2 r2 w'' Hrun2. eapply Hone; eassumption.
Qed.

End BaseTable.

(* ===================================================================== *)
(** ** Running the methods                                                *)
(* ===================================================================== *)

Section Running.

Lemma bind_ok {A B} (m : M A) (k : A -> M B) w a w1 :
  m w = (Ok a, w1) -> bind m k w = k a w1.
Proof. intros H. unfold bind. by rewrite H. Qed.

Lemma bind_raise {A B} (m : M A) (k : A -> M B) w e w1 :
  m w = (Raise e, w1) -> bind m k w = (Raise e, w1).
Proof. intros H. unfold bind. by rewrite H. Qed.

Lemma run_attr_frame a l w :
  self w !! a = Some (PyFrame l) -> attr_frame a w = (Ok l, w).
Proof. intros H. unfold attr_frame, bind, attr. by rewrite H. Qed.

Lemma run_attr_list a xs w :
  self w !! a = Some (PyList xs) -> attr_list a w = (Ok xs, w).
Proof. intros H. unfold attr_list, bind, attr. by rewrite H. Qed.

Lemma run_deref l F w : heap w !! l = Some F -> deref l w = (Ok F, w).
Proof. intros H. unfold deref. by rewrite H. Qed.

Lemma run_read {A} l (f : DataFrame -> result A) F w :
  heap w !! l = Some F -> read l f w = (f F, w).
Proof. intros H. unfold read, bind, deref, lift. by rewrite H. Qed.

Lemma run_read_ok {A} l (f : DataFrame -> result A) F a w :
  heap w !! l = Some F -> f F = Ok a -> read l f w = (Ok a, w).
Proof. intros H Hf. by rewrite (run_read _ _ _ _ H), Hf. Qed.

Lemma run_derive l f F w :
  heap w !! l = Some F ->
  derive l f w
  = (Ok (fresh (dom (heap w))),
     World (<[fresh (dom (heap w)) := f F]> (heap w)) (self w)).
Proof. intros H. unfold derive, bind, deref, alloc. by rewrite H. Qed.

Lemma run_update l f F w :
  heap w !! l = Some F ->
  update l f w = (Ok tt, World (<[l := f F]> (heap w)) (self w)).
Proof. intros H. unfold update, bind, deref, store. by rewrite H. Qed.

Lemma fresh_lookup (h : gmap positive DataFrame) : h !! fresh (dom h) = None.
Proof. apply not_elem_of_dom, is_fresh. Qed.

Lemma map_m_parse conditions parsed w :
  Forall2 (fun s c => parse_condition s = Ok c) conditions parsed ->
  map_m (fun cond => lift (parse_condition cond)) conditions w = (Ok parsed, w).
Proof.
  intros H. induction H as [|s c conditions parsed Hs _ IH]; [done|].
  simpl. unfold bind at 1. unfold lift at 1. rewrite Hs.
  unfold bind at 1. by rewrite IH.
Qed.

(** A condition on a column that is not resizable appends nothing: the
    loop body only makes (and forgets) a copy of the base table. *)
Lemma resize_body_filter a b flag row w d m Fd Fm :
  constructed w d m Fd Fm ->
  ~ resizable row.1.1 ->
  exists w1,
    resize_body a b flag row w = (Ok flag, w1)
    /\ self w1 = self w /\ heap w ⊆ heap w1.
Proof.
  intros [Hd Hm Hp Hi Hhd Hhm] Hrow. destruct row as [[row0 row1] row2].
  simpl in Hrow. unfold resize_body.
  assert (in_list row0 ["cgg"; "gm"; "gmb"; "id"] = false) as E1.
  { apply bool_decide_eq_false. intros H. apply Hrow. unfold resizable.
    change (row0 ∈ ["cgg"; "gm"; "gmb"; "id"] ++ ["rout"]).
    apply elem_of_app. by left. }
  assert (in_list row0 ["rout"] = false) as E2.
  { apply bool_decide_eq_false. intros H. apply Hrow. unfold resizable.
    change (row0 ∈ ["cgg"; "gm"; "gmb"; "id"] ++ ["rout"]).
    apply elem_of_app. by right. }
  assert (in_list row0 (["cgg"; "gm"; "gmb"; "id"] ++ ["rout"]) = false) as E3.
  { apply bool_decide_eq_false. intros H. apply Hrow. exact H. }
  erewrite bind_ok;
    [|erewrite bind_ok; [|by apply run_attr_frame]; by apply run_derive].
  set (w1 := World _ _).
  erewrite bind_ok; [|by apply run_attr_list]. rewrite E1.
  erewrite bind_ok;
    [|erewrite bind_ok; [|by apply run_attr_list]; rewrite E2; reflexivity].
  erewrite bind_ok; [|by apply run_attr_list].
  erewrite bind_ok; [|by apply run_attr_list]. rewrite E3.
  exists w1. split; [done|]. split; [done|].
  subst w1. simpl. apply insert_subseteq, fresh_lookup.
Qed.

Lemma resize_loop_filters a b flag parsed w d m Fd Fm :
  constructed w d m Fd Fm ->
  Forall (fun c : string * string * string => ~ resizable c.1.1) parsed ->
  exists w1,
    fold_m (resize_body a b) flag parsed w = (Ok flag, w1)
    /\ self w1 = self w /\ heap w ⊆ heap w1.
Proof.
  intros Hc Hall. revert w Hc.
  induction Hall as [|row parsed Hrow _ IH]; intros w Hc.
  - exists w. by repeat split.
  - destruct (resize_body_filter a b flag row w _ _ _ _ Hc Hrow)
      as (w1 & Hrun & Hs & Hh).
    assert (constructed w1 d m Fd Fm) as Hc1.
    { destruct Hc. split; rewrite ?Hs; try done; by eapply lookup_weaken. }
    destruct (IH w1 Hc1) as (w2 & Hrun2 & Hs2 & Hh2).
    exists w2. simpl. erewrite bind_ok by exact Hrun.
    split; [done|]. split; [congruence|]. by etrans.
Qed.

Lemma getitem_empty cols c :
  c ∈ cols -> getitem (Frame cols []) c = Ok ∅.
Proof.
  intros H. unfold getitem, column. simpl. by rewrite bool_decide_eq_true_2.
Qed.

(** The run of [compute_conditional_df] when no condition is resizable. *)
Lemma compute_without_resizable conditions parsed p a b w d m Fd Fm :
  constructed w d m Fd Fm ->
  "W" ∈ columns Fm -> "L" ∈ columns Fm ->
  Forall2 (fun s c => parse_condition s = Ok c) conditions parsed ->
  Forall (fun c : string * string * string => ~ resizable c.1.1) parsed ->
  exists w',
    compute_conditional_df conditions p a b w
    = (Raise (Exception "The conditions are not sufficient"), w')
    /\ self w' = <["conditional_df" := PyFrame (fresh (dom (heap w)))]> (self w)
    /\ heap w' !! fresh (dom (heap w))
       = Some (Frame (add_column (columns Fm) "area") [])
    /\ heap w' !! m = Some Fm.
Proof.
  intros Hc HW HL Hparse Hfilter. pose proof Hc as [Hd Hm Hp Hi Hhd Hhm].
  unfold compute_conditional_df.
  erewrite bind_ok by (by apply map_m_parse).
  set (e := fresh (dom (heap w))).
  erewrite bind_ok.
  2:{ erewrite bind_ok; [|by apply run_attr_frame].
      erewrite bind_ok; [|by eapply run_read_ok].
      unfold bind, alloc, set_attr. fold e. reflexivity. }
  set (w1 := World _ _).
  assert (e <> m) as Hem.
  { intros E. pose proof (fresh_lookup (heap w)) as Hf. fold e in Hf.
    rewrite E in Hf. congruence. }
  assert (constructed w1 d m Fd Fm) as Hc1.
  { subst w1. split; simpl; rewrite ?lookup_insert_ne; try done.
    intros E. pose proof (fresh_lookup (heap w)) as Hf. fold e in Hf.
    rewrite E in Hf. congruence. }
  destruct (resize_loop_filters a b false parsed w1 _ _ _ _ Hc1 Hfilter)
    as (w2 & Hrun & Hs & Hh).
  erewrite bind_ok by exact Hrun.
  assert (self w2 !! "conditional_df" = Some (PyFrame e)) as Hattr.
  { rewrite Hs. subst w1. simpl. apply lookup_insert_eq. }
  assert (heap w2 !! e = Some (Frame (columns Fm) [])) as Hhe.
  { eapply lookup_weaken; [|exact Hh]. subst w1. simpl. apply lookup_insert_eq. }
  erewrite bind_ok.
  2:{ erewrite bind_ok; [|by apply run_attr_frame].
      erewrite bind_ok;
        [|eapply run_read_ok; [exact Hhe|by apply getitem_empty]].
      erewrite bind_ok; [|by apply run_attr_frame].
      erewrite bind_ok;
        [|eapply run_read_ok; [exact Hhe|by apply getitem_empty]].
      erewrite bind_ok; [|by apply run_attr_frame].
      by eapply run_update. }
  simpl negb. cbv iota. unfold raise.
  eexists. split; [reflexivity|]. simpl.
  split; [by rewrite Hs|]. split; [by rewrite lookup_insert_eq|].
  rewrite lookup_insert_ne by done.
  eapply lookup_weaken; [|exact Hh]. by destruct Hc1.
Qed.

(** C4: on a constructed object whose table has the columns W and L, for
    every list of conditions that parse and of which none names a
    proportional (cgg, gm, gmb, id) or inverse (rout) quantity - the empty
    list included - [compute_conditional_df] raises the exception "The
    conditions are not sufficient" instead of returning. *)
Theorem compute_raises_without_resizable conditions parsed p a b w d m Fd Fm :
  constructed w d m Fd Fm ->
  "W" ∈ columns Fm -> "L" ∈ columns Fm ->
  Forall2 (fun s c => parse_condition s = Ok c) conditions parsed ->
  Forall (fun c : string * string * string => ~ resizable c.1.1) parsed ->
  (compute_conditional_df conditions p a b w).1
  = Raise (Exception "The conditions are not sufficient")
  /\ (compute_conditional_df [] p a b w).1
     = Raise (Exception "The conditions are not sufficient").
Proof.
  intros Hc HW HL Hparse Hfilter. split.
  - destruct (compute_without_resizable conditions parsed p a b w _ _ _ _
                Hc HW HL Hparse Hfilter) as (w' & -> & _). done.
  - assert (Forall2 (fun s c => parse_condition s = Ok c) [] []) as H0
      by constructor.
    destruct (compute_without_resizable [] [] p a b w _ _ _ _
                Hc HW HL H0 (Forall_nil_2 _)) as (w' & -> & _). done.
Qed.

(** C10: when [compute_conditional_df] fails because no condition is
    resizable, it has already replaced the stored result: whatever
    [conditional_df] was before the call (the table of an earlier,
    successful call included), after the call it refers to a frame made
    during this call, without rows, with the columns of the base table and
    the column [area]. *)
Theorem failing_compute_replaces_result conditions parsed p a b w d m Fd Fm :
  constructed w d m Fd Fm ->
  "W" ∈ columns Fm -> "L" ∈ columns Fm ->
  Forall2 (fun s c => parse_condition s = Ok c) conditions parsed ->
  Forall (fun c : string * string * string => ~ resizable c.1.1) parsed ->
  exists w' e E,
    compute_conditional_df conditions p a b w
    = (Raise (Exception "The conditions are not sufficient"), w')
    /\ self w' !! "conditional_df" = Some (PyFrame e)
    /\ heap w !! e = None
    /\ (forall c Fc, self w !! "conditional_df" = Some (PyFrame c) ->
                     heap w !! c = Some Fc -> c <> e)
    /\ heap w' !! e = Some E
    /\ rows E = [] /\ "area" ∈ columns E
    /\ (forall c, c ∈ columns Fm -> c ∈ columns E).
Proof.
  intros Hc HW HL Hparse Hfilter.
  destruct (compute_without_resizable conditions parsed p a b w _ _ _ _
              Hc HW HL Hparse Hfilter) as (w' & Hrun & Hs & Hh & _).
  exists w', (fresh (dom (heap w))), (Frame (add_column (columns Fm) "area") []).
  split; [done|]. split; [by rewrite Hs, lookup_insert_eq|].
  split; [apply fresh_lookup|]. split.
  { intros c Fc _ Hc' ->. by rewrite fresh_lookup in Hc'. }
  split; [done|]. split; [done|]. unfold add_column. simpl.
  case_bool_decide; split; try done.
  - apply elem_of_app. right. apply list_elem_of_here.
  - intros c Hin. apply elem_of_app. by left.
Qed.

End Running.

Local Ltac decide_by_computation :=
  refine (bool_decide_unpack _ _); vm_compute; exact I.

Lemma example_constructed :
  constructed example_world 1 2 example_df example_mod_df.
Proof. split; vm_compute; reflexivity. Defined.

Lemma example_has_W : "W" ∈ columns example_mod_df.
Proof. decide_by_computation. Defined.

Lemma example_has_L : "L" ∈ columns example_mod_df.
Proof. decide_by_computation. Defined.

Lemma region_filter_only :
  Forall (fun c : string * string * string => ~ resizable c.1.1)
         [("region", "=", "2")].
Proof. repeat constructor. unfold resizable. decide_by_computation. Defined.

Lemma region_parses :
  Forall2 (fun s c => parse_condition s = Ok c)
          ["region=2"] [("region", "=", "2")].
Proof. repeat constructor. Defined.

(** [compute_raises_without_resizable] on the example, for ["region=2"]. *)
Lemma compute_raises_without_resizable_witness :
  (compute_conditional_df ["region=2"] default_tolerance_percent
     default_WoverL_min default_Wmax example_world).1
  = Raise (Exception "The conditions are not sufficient")
  /\ (compute_conditional_df [] default_tolerance_percent
        default_WoverL_min default_Wmax example_world).1
     = Raise (Exception "The conditions are not sufficient").
Proof.
  exact (compute_raises_without_resizable ["region=2"] [("region", "=", "2")]
           default_tolerance_percent default_WoverL_min default_Wmax
           example_world 1 2 example_df example_mod_df
           example_constructed example_has_W example_has_L
           region_parses region_filter_only).
Defined.

(** [failing_compute_replaces_result] on the example, for ["region=2"]. *)
Lemma failing_compute_replaces_result_witness :
  exists w' e E,
    compute_conditional_df ["region=2"] default_tolerance_percent
      default_WoverL_min default_Wmax example_world
    = (Raise (Exception "The conditions are not sufficient"), w')
    /\ self w' !! "conditional_df" = Some (PyFrame e)
    /\ heap example_world !! e = None
    /\ (forall c Fc, self example_world !! "conditional_df" = Some (PyFrame c) ->
                     heap example_world !! c = Some Fc -> c <> e)
    /\ heap w' !! e = Some E
    /\ rows E = [] /\ "area" ∈ columns E
    /\ (forall c, c ∈ columns example_mod_df -> c ∈ columns E).
Proof.
  exact (failing_compute_replaces_result ["region=2"] [("region", "=", "2")]
           default_tolerance_percent default_WoverL_min default_Wmax
           example_world 1 2 example_df example_mod_df
           example_constructed example_has_W example_has_L
           region_parses region_filter_only).
Defined.

(** [compute_keeps_mod_df] on the example, for ["gm=2e-3"]. *)
Lemma compute_keeps_mod_df_witness :
  let run := compute_conditional_df ["gm=2e-3"] default_tolerance_percent
               default_WoverL_min default_Wmax example_world in
  (self run.2 !! "mod_df" = Some (PyFrame 2)
   /\ heap run.2 !! 2%positive = Some example_mod_df)
  /\ forall conditions2 p2 a2 b2 r2 w'',
       compute_conditional_df conditions2 p2 a2 b2 run.2 = (r2, w'') ->
       self w'' !! "mod_df" = Some (PyFrame 2)
       /\ heap w'' !! 2%positive = Some example_mod_df.
Proof.
  intros run.
  apply (compute_keeps_mod_df 2 example_mod_df ["gm=2e-3"]
           default_tolerance_percent default_WoverL_min default_Wmax
           example_world run.1 run.2).
  - vm_compute. reflexivity.
  - vm_compute. reflexivity.
  - subst run. apply surjective_pairing.
Defined.


(* ===================================================================== *)
(** ** Columns and rows of frames                                         *)
(* ===================================================================== *)

Section Frames.

Implicit Types (F : DataFrame) (c : string) (r : gmap string cell)
  (lr : nat * gmap string cell).

Lemma column_Ok {A} (rd : option cell -> option A) F c kvs :
  column rd F c = Ok kvs <->
  c ∈ columns F
  /\ Forall2 (fun lr kv => kv.1 = lr.1 /\ rd (lr.2 !! c) = Some kv.2)
             (rows F) kvs.
Proof.
  unfold column. case_bool_decide as Hc.
  - destruct (mapM _ (rows F)) as [kvs'|] eqn:E.
    + apply mapM_Some in E. split.
      * intros [= <-]. split; [done|].
        eapply Forall2_impl; [exact E|]. intros lr [l x] H. simpl in *.
        destruct (rd (lr.2 !! c)); simplify_eq/=. done.
      * intros [_ H]. f_equal.
        assert (mapM (fun lr => pair lr.1 <$> rd (lr.2 !! c)) (rows F) = Some kvs)
          as E'.
        { apply mapM_Some. eapply Forall2_impl; [exact H|].
          intros lr [l x] [? Hx]. simpl in *. subst. by rewrite Hx. }
        apply mapM_Some in E'.
        revert E E'. generalize (rows F). clear. intros l E E'.
        revert kvs E'. induction E; intros kvs E'; inversion E'; subst; [done|].
        f_equal; [congruence|]. by apply IHE.
    + split; [done|]. intros [_ H]. exfalso.
      assert (mapM (fun lr => pair lr.1 <$> rd (lr.2 !! c)) (rows F) = Some kvs)
        as E'; [|congruence].
      apply mapM_Some. eapply Forall2_impl; [exact H|].
      intros lr [l x] [? Hx]. simpl in *. subst. by rewrite Hx.
  - split; [done|]. by intros [? _].
Qed.

(** Reading a numeric column gives [col_series]. *)
Lemma getitem_Ok F c s :
  getitem F c = Ok s -> numeric F c /\ s = col_series F c.
Proof.
  unfold getitem. destruct (column cell_num F c) as [kvs|] eqn:E; [|done].
  intros [= <-]. apply column_Ok in E as [Hc H]. split; [split; [done|]|].
  - clear Hc. induction H as [|lr kv ? ? [_ Hx]]; constructor; [|done].
    rewrite Hx. eauto.
  - unfold col_series. f_equal. clear Hc.
    induction H as [|lr [l x] ? ? [Hl Hx]]; [done|]. simpl in *. subst.
    unfold num_at. rewrite Hx. simpl. by f_equal.
Qed.

Lemma getitem_numeric F c : numeric F c -> getitem F c = Ok (col_series F c).
Proof.
  intros [Hc Hn]. unfold getitem.
  assert (column cell_num F c
          = Ok ((fun lr => (lr.1, num_at lr.2 c)) <$> rows F)) as ->; [|done].
  apply column_Ok. split; [done|]. clear Hc.
  induction Hn as [|lr l [x Hx] _ IH]; simpl; constructor; [|done].
  simpl. split; [done|]. unfold num_at. by rewrite Hx.
Qed.

Lemma col_series_lookup F c lr :
  NoDup (labels F) -> lr ∈ rows F ->
  col_series F c !! lr.1 = Some (num_at lr.2 c).
Proof.
  intros Hnd Hin. unfold col_series. apply elem_of_list_to_map_1.
  - by rewrite <- list_fmap_compose.
  - apply list_elem_of_fmap. by exists lr.
Qed.

Lemma col_series_None F c l :
  l ∉ labels F -> col_series F c !! l = None.
Proof.
  intros Hl. unfold col_series. apply not_elem_of_list_to_map_1.
  by rewrite <- list_fmap_compose.
Qed.

Lemma series_zip_lookup f (s1 s2 : Series) l x y :
  s1 !! l = Some x -> s2 !! l = Some y ->
  series_zip f s1 s2 !! l = Some (f x y).
Proof. intros H1 H2. unfold series_zip. by rewrite lookup_merge, H1, H2. Qed.

(** [F[c] = s] row by row, when the value of [s] at every label is known. *)
Lemma setitem_rows F c (s : Series) (v : nat * gmap string cell -> xnum) :
  (forall lr, lr ∈ rows F -> s !! lr.1 = Some (v lr)) ->
  setitem F c s
  = Frame (add_column (columns F) c)
          ((fun lr => (lr.1, <[c := Num (v lr)]> lr.2)) <$> rows F).
Proof.
  intros H. unfold setitem, setitem_with. f_equal.
  apply list_eq_Forall2, Forall2_fmap, Forall_Forall2_diag, Forall_forall.
  intros lr Hin. by rewrite (H lr Hin).
Qed.

Lemma labels_fmap (g : nat * gmap string cell -> gmap string cell)
    (l : list (nat * gmap string cell)) :
  ((fun lr => (lr.1, g lr)) <$> l).*1 = l.*1.
Proof. rewrite <- list_fmap_compose. by apply list_fmap_ext. Qed.

Lemma numeric_fmap F cols g c :
  numeric F c ->
  c ∈ cols ->
  (forall lr, lr ∈ rows F -> g lr !! c = lr.2 !! c) ->
  numeric (Frame cols ((fun lr => (lr.1, g lr)) <$> rows F)) c.
Proof.
  intros [Hc Hn] Hcols Hg. split; [done|]. simpl.
  apply Forall_fmap, Forall_forall. intros lr Hin. simpl.
  rewrite (Hg lr Hin). rewrite Forall_forall in Hn. by apply Hn.
Qed.

Lemma add_column_elem cols c c' : c' ∈ cols -> c' ∈ add_column cols c.
Proof.
  intros H. unfold add_column. case_bool_decide; [done|].
  apply elem_of_app. by left.
Qed.

Lemma add_column_here cols c : c ∈ add_column cols c.
Proof.
  unfold add_column. case_bool_decide; [done|].
  apply elem_of_app. right. apply list_elem_of_here.
Qed.

Lemma num_at_insert_ne r c c' v :
  c <> c' -> num_at (<[c := v]> r) c' = num_at r c'.
Proof. intros H. unfold num_at. by rewrite lookup_insert_ne. Qed.

Lemma num_at_insert r c x : num_at (<[c := Num x]> r) c = x.
Proof. unfold num_at. by rewrite lookup_insert_eq. Qed.

End Frames.

Section DerivedSpecs.

Lemma for_each_cons {A} (x : A) xs (body : A -> M unit) :
  for_each (x :: xs) body = (do! body x in for_each xs body).
Proof. done. Qed.

(** The three assignments of [add_specs_df], on a frame value. *)
Lemma derived_columns F :
  NoDup (labels F) ->
  numeric F "gm" -> numeric F "rout" -> numeric F "cgg" -> numeric F "id" ->
  let F1 := setitem F "intrinsic_gain"
              (series_zip xmul (col_series F "gm") (col_series F "rout")) in
  let F2 := setitem F1 "ft"
              (series_zip xdiv (col_series F1 "gm")
                 (xmul (xmul (Fin 2) math_pi) <$> col_series F1 "cgg")) in
  let F3 := setitem F2 "gmoverid"
              (series_zip xdiv (col_series F2 "gm") (col_series F2 "id")) in
  (numeric F1 "gm" /\ numeric F1 "cgg")
  /\ (numeric F2 "gm" /\ numeric F2 "id")
  /\ F3 = extended F.
Proof.
  intros Hnd Hgm Hrout Hcgg Hid F1 F2 F3.
  assert (F1 = Frame (add_column (columns F) "intrinsic_gain")
                 ((fun lr => (lr.1, <["intrinsic_gain" :=
                      Num (xmul (num_at lr.2 "gm") (num_at lr.2 "rout"))]> lr.2))
                    <$> rows F)) as E1.
  { subst F1. apply setitem_rows. intros lr Hin.
    apply series_zip_lookup; by apply col_series_lookup. }
  assert (NoDup (labels F1)) as Hnd1.
  { rewrite E1. unfold labels. simpl. by rewrite labels_fmap. }
  assert (forall c, c <> "intrinsic_gain" -> numeric F c -> numeric F1 c) as Hn1.
  { intros c Hc Hn. rewrite E1. apply numeric_fmap; [done| |].
    - apply add_column_elem. by destruct Hn.
    - intros lr _. by rewrite lookup_insert_ne. }
  assert (F2 = Frame (add_column (columns F1) "ft")
                 ((fun lr => (lr.1, <["ft" :=
                      Num (xdiv (num_at lr.2 "gm")
                             (xmul (xmul (Fin 2) math_pi) (num_at lr.2 "cgg")))]>
                        lr.2)) <$> rows F1)) as E2.
  { subst F2. apply setitem_rows. intros lr Hin.
    apply series_zip_lookup; [by apply col_series_lookup|].
    by rewrite lookup_fmap, col_series_lookup. }
  assert (NoDup (labels F2)) as Hnd2.
  { rewrite E2. unfold labels. simpl. by rewrite labels_fmap. }
  assert (forall c, c <> "ft" -> numeric F1 c -> numeric F2 c) as Hn2.
  { intros c Hc Hn. rewrite E2. apply numeric_fmap; [done| |].
    - apply add_column_elem. by destruct Hn.
    - intros lr _. by rewrite lookup_insert_ne. }
  split; [split; by apply Hn1|]. split; [split; apply Hn2, Hn1; done|].
  subst F3.
  rewrite (setitem_rows F2 "gmoverid" _
             (fun lr => xdiv (num_at lr.2 "gm") (num_at lr.2 "id"))).
  2:{ intros lr Hin. apply series_zip_lookup; by apply col_series_lookup. }
  rewrite E2, E1. unfold extended. simpl. f_equal.
  rewrite <- !list_fmap_compose. apply list_fmap_ext. intros _ [l r] _. simpl.
  unfold derived_specs. rewrite !num_at_insert_ne by done. done.
Qed.

(** C8: [add_specs_df] returns a new frame, the table of [df] extended
    row by row with exactly intrinsic_gain = gm*rout, ft = gm/(2*pi*cgg)
    and gmoverid = gm/id computed from the existing columns ([df] itself is
    left as it is); a row with gm = 1e-3 and id = 2e-4 gets gmoverid = 5. *)
Theorem add_specs_df_extends w d Fd :
  self w !! "df" = Some (PyFrame d) ->
  self w !! "specs"
  = Some (PyList ["intrinsic_gain"; "ft"; "area"; "gmoverid"]) ->
  heap w !! d = Some Fd ->
  NoDup (labels Fd) ->
  numeric Fd "gm" -> numeric Fd "rout" -> numeric Fd "cgg" -> numeric Fd "id" ->
  (exists m,
     add_specs_df w
     = (Ok m, World (<[m := extended Fd]> (heap w)) (self w))
     /\ heap w !! m = None)
  /\ (forall lr, lr ∈ rows Fd ->
        (lr.1, derived_specs lr.2) ∈ rows (extended Fd)
        /\ (forall c, c <> "intrinsic_gain" -> c <> "ft" -> c <> "gmoverid" ->
                      derived_specs lr.2 !! c = lr.2 !! c))
  /\ (forall r, num_at r "gm" = sci 1 (-3) -> num_at r "id" = sci 2 (-4) ->
        exists x, derived_specs r !! "gmoverid" = Some (Num x)
                  /\ xeq x (Fin 5)).
Proof.
  intros Hdf Hspecs Hd Hnd Hgm Hrout Hcgg Hid.
  destruct (derived_columns Fd Hnd Hgm Hrout Hcgg Hid)
    as ([Hgm1 Hcgg1] & [Hgm2 Hid2] & Hext).
  split; [|split].
  - exists (fresh (dom (heap w))). split; [|apply fresh_lookup].
    unfold add_specs_df.
    erewrite bind_ok;
      [|erewrite bind_ok; [|by apply run_attr_frame]; by apply run_derive].
    set (m := fresh (dom (heap w))). unfold id at 1.
    erewrite bind_ok; [|by apply run_attr_list].
    match goal with
    | |- context [bind (for_each ?xs ?body) _ ?w1] =>
        assert (for_each xs body w1
                = (Ok tt, World (<[m := extended Fd]> (heap w)) (self w)))
          as Hloop
    end.
    { rewrite !for_each_cons. simpl for_each.
      (* intrinsic_gain *)
      erewrite bind_ok.
      2:{ cbn [String.eqb Ascii.eqb Bool.eqb].
          erewrite bind_ok;
            [|eapply run_read_ok; [apply lookup_insert_eq|by apply getitem_numeric]].
          erewrite bind_ok;
            [|eapply run_read_ok; [apply lookup_insert_eq|by apply getitem_numeric]].
          eapply run_update. apply lookup_insert_eq. }
      simpl heap. rewrite insert_insert_eq.
      (* ft *)
      erewrite bind_ok.
      2:{ cbn [String.eqb Ascii.eqb Bool.eqb].
          erewrite bind_ok;
            [|eapply run_read_ok; [apply lookup_insert_eq|by apply getitem_numeric]].
          erewrite bind_ok;
            [|eapply run_read_ok; [apply lookup_insert_eq|by apply getitem_numeric]].
          eapply run_update. apply lookup_insert_eq. }
      simpl heap. rewrite insert_insert_eq.
      (* area: no branch *)
      erewrite bind_ok; [|cbn [String.eqb Ascii.eqb Bool.eqb]; unfold ret; reflexivity].
      (* gmoverid *)
      erewrite bind_ok.
      2:{ cbn [String.eqb Ascii.eqb Bool.eqb].
          erewrite bind_ok;
            [|eapply run_read_ok; [apply lookup_insert_eq|by apply getitem_numeric]].
          erewrite bind_ok;
            [|eapply run_read_ok; [apply lookup_insert_eq|by apply getitem_numeric]].
          eapply run_update. apply lookup_insert_eq. }
      simpl heap. rewrite insert_insert_eq. simpl self.
      unfold ret. by rewrite Hext. }
    erewrite bind_ok by exact Hloop. reflexivity.
  - intros lr Hin. split.
    + unfold extended. simpl. apply list_elem_of_fmap. by exists lr.
    + intros c H1 H2 H3. unfold derived_specs.
      by rewrite !lookup_insert_ne.
  - intros r Hgmr Hidr. eexists. split.
    + unfold derived_specs. apply lookup_insert_eq.
    + rewrite Hgmr, Hidr. by vm_compute.
Qed.

End DerivedSpecs.

Lemma numericb_numeric F c : numericb F c = true -> numeric F c.
Proof.
  unfold numericb, numeric. intros H. apply andb_true_iff in H as [H1 H2].
  apply bool_decide_eq_true in H1. split; [done|].
  apply Forall_forall. intros lr Hin. rewrite forallb_forall in H2.
  apply list_elem_of_In in Hin. specialize (H2 _ Hin).
  destruct (cell_num (lr.2 !! c)); [eauto|done].
Qed.

Lemma example_labels :
  NoDup (labels example_df) /\ NoDup (labels example_mod_df).
Proof.
  unfold labels.
  split; (apply (bool_decide_unpack (NoDup _))); vm_compute; exact I.
Defined.

(** [add_specs_df_extends] on the example object. *)
Lemma add_specs_df_extends_witness :
  (exists m,
     add_specs_df example_world
     = (Ok m, World (<[m := extended example_df]> (heap example_world))
                    (self example_world))
     /\ heap example_world !! m = None)
  /\ (forall lr, lr ∈ rows example_df ->
        (lr.1, derived_specs lr.2) ∈ rows (extended example_df)
        /\ (forall c, c <> "intrinsic_gain" -> c <> "ft" -> c <> "gmoverid" ->
                      derived_specs lr.2 !! c = lr.2 !! c))
  /\ (forall r, num_at r "gm" = sci 1 (-3) -> num_at r "id" = sci 2 (-4) ->
        exists x, derived_specs r !! "gmoverid" = Some (Num x)
                  /\ xeq x (Fin 5)).
Proof.
  apply (add_specs_df_extends example_world 1 example_df).
  - vm_compute. reflexivity.
  - vm_compute. reflexivity.
  - vm_compute. reflexivity.
  - apply example_labels.
  - apply numericb_numeric. vm_compute. reflexivity.
  - apply numericb_numeric. vm_compute. reflexivity.
  - apply numericb_numeric. vm_compute. reflexivity.
  - apply numericb_numeric. vm_compute. reflexivity.
Defined.

(* ===================================================================== *)
(** ** The resizing loop                                                 *)
(* ===================================================================== *)

Section ResizeBody.

Lemma bind_inv_ok {A B} (m : M A) (k : A -> M B) w b w' :
  bind m k w = (Ok b, w') ->
  exists a w1, m w = (Ok a, w1) /\ k a w1 = (Ok b, w').
Proof.
  unfold bind. destruct (m w) as [[a|e] w1]; [|done]. intros H. eauto.
Qed.

Lemma lookup_insert_old (h : gmap positive DataFrame) k k' F X :
  h !! k' = None -> h !! k = Some F -> <[k' := X]> h !! k = Some F.
Proof. intros Hn Hk. rewrite lookup_insert_ne; [done|]. congruence. Qed.

Lemma float_inv s t w w1 :
  float s w = (Ok t, w1) -> py_float s = Some t /\ w1 = w.
Proof. unfold float. destruct (py_float s); [|done]. by intros [= <- <-]. Qed.

Lemma self_getitem_inv a c l F s w w1 :
  self w !! a = Some (PyFrame l) -> heap w !! l = Some F ->
  self_getitem a c w = (Ok s, w1) -> getitem F c = Ok s /\ w1 = w.
Proof.
  intros Ha Hl. unfold self_getitem.
  erewrite bind_ok by (by apply run_attr_frame).
  rewrite (run_read _ _ _ _ Hl). by intros [= -> <-].
Qed.

Lemma read_inv {A} l (f : DataFrame -> result A) F a w w1 :
  heap w !! l = Some F -> read l f w = (Ok a, w1) -> f F = Ok a /\ w1 = w.
Proof. intros Hl. rewrite (run_read _ _ _ _ Hl). by intros [= -> <-]. Qed.

Lemma lift_inv {A} (r : result A) a w w1 :
  lift r w = (Ok a, w1) -> r = Ok a /\ w1 = w.
Proof. by intros [= -> <-]. Qed.

Ltac live :=
  simpl heap;
  first [ eassumption
        | apply lookup_insert_eq
        | apply lookup_insert_old; [first [eassumption|apply fresh_lookup]|live] ].

(** Reading [F[c]] from a frame on the heap, with the result unknown. *)
Ltac step_read H x Hx :=
  let w1 := fresh "w" in
  let E := fresh "E" in
  apply bind_inv_ok in H as (x & w1 & Hx & H);
  eapply read_inv in Hx as [Hx E]; [|live]; subst w1.

Ltac step_self_read H x Hx :=
  let w1 := fresh "w" in
  let E := fresh "E" in
  apply bind_inv_ok in H as (x & w1 & Hx & H);
  eapply self_getitem_inv in Hx as [Hx E]; [| simpl self; eassumption | live];
  subst w1.

Ltac step_attr_list H :=
  erewrite bind_ok in H; [|apply run_attr_list; simpl self; eassumption].

Ltac step_attr_frame H :=
  erewrite bind_ok in H; [|apply run_attr_frame; simpl self; eassumption].

Ltac step_update H :=
  erewrite bind_ok in H; [|eapply run_update; live];
  simpl heap in H; simpl self in H; rewrite ?insert_insert_eq in H.

Ltac step_derive H t Ht :=
  erewrite bind_ok in H; [|eapply run_derive; live];
  simpl heap in H; simpl self in H;
  match type of H with
  | context [fresh (dom ?h)] =>
      pose proof (fresh_lookup h) as Ht;
      generalize dependent (fresh (dom h)); intros t Ht H
  end.

Lemma resize_body_resizable a b flag v op tok w d m Fd Fm c Acc flag' w' :
  constructed w d m Fd Fm ->
  self w !! "conditional_df" = Some (PyFrame c) ->
  heap w !! c = Some Acc ->
  resizable v ->
  resize_body a b flag (v, op, tok) w = (Ok flag', w') ->
  exists t T c',
    py_float tok = Some t
    /\ resize_frame ["cgg"; "gm"; "gmb"; "id"] ["rout"] a b v t Fm Fd = Ok T
    /\ flag' = true
    /\ constructed w' d m Fd Fm
    /\ self w' !! "conditional_df" = Some (PyFrame c')
    /\ heap w' !! c' = Some (pd_concat Acc T).
Proof.
  intros [Hd Hm Hp Hi Hhd Hhm] Hc Hhc Hres H. unfold resize_body in H.
  destruct w as [h s]. simpl in *.
  assert (in_list v (["cgg"; "gm"; "gmb"; "id"] ++ ["rout"]) = true) as E3
    by (by apply bool_decide_eq_true_2).
  (* temp_copy = self.mod_df.copy() *)
  apply bind_inv_ok in H as (t0 & w1 & H0 & H).
  step_attr_frame H0. erewrite run_derive in H0 by live.
  injection H0 as <- <-.
  pose proof (fresh_lookup h) as Ht0. simpl heap in H.
  generalize dependent (fresh (dom h)). intros t0 H Ht0.
  step_attr_list H.
  (* if row[0] in self.proportional: ... elif row[0] in self.inversly: ... *)
  apply bind_inv_ok in H as ([] & w1 & HW & H).
  assert (exists t sW sV,
    py_float tok = Some t /\ getitem Fm "W" = Ok sW /\ getitem Fm v = Ok sV
    /\ w1 = World (<[t0 := setitem Fm "W"
                     (series_zip xmul sW
                        (if in_list v ["cgg"; "gm"; "gmb"; "id"]
                         then xdiv t <$> sV
                         else (fun x => xdiv x t) <$> sV))]> h) s)
    as (t & sW & sV & Ht & HsW & HsV & ->).
  { destruct (in_list v ["cgg"; "gm"; "gmb"; "id"]) eqn:E1.
    - step_self_read HW sW HsW.
      apply bind_inv_ok in HW as (t & w2 & Ht & HW).
      apply float_inv in Ht as [Ht ->].
      step_self_read HW sV HsV.
      erewrite run_update in HW by live. injection HW as <-.
      simpl. rewrite insert_insert_eq. by exists t, sW, sV.
    - step_attr_list HW.
      assert (in_list v ["rout"] = true) as E2.
      { apply bool_decide_eq_true_2. apply bool_decide_eq_false in E1.
        unfold resizable in Hres.
        change (v ∈ ["cgg"; "gm"; "gmb"; "id"] ++ ["rout"]) in Hres.
        apply elem_of_app in Hres as [?|?]; done. }
      rewrite E2 in HW.
      step_self_read HW sW HsW. step_self_read HW sV HsV.
      apply bind_inv_ok in HW as (t & w2 & Ht & HW).
      apply float_inv in Ht as [Ht ->].
      erewrite run_update in HW by live. injection HW as <-.
      simpl. rewrite insert_insert_eq. by exists t, sW, sV. }
  set (T1 := setitem Fm "W" _) in *.
  step_attr_list H. step_attr_list H. rewrite E3 in H.
  (* temp_copy['condition'] = row[0] *)
  step_update H. set (T2 := setitem_scalar T1 _ _) in *.
  (* temp_copy = temp_copy[temp_copy['W'] < Wmax] *)
  apply bind_inv_ok in H as (t1 & w1 & HB & H).
  step_read HB w2 Hw2. erewrite run_derive in HB by live.
  injection HB as <- <-. simpl heap in H. simpl self in H.
  match type of H with
  | context [fresh (dom ?hh)] =>
      pose proof (fresh_lookup hh) as Ht1;
      generalize dependent (fresh (dom hh)); intros t1 H Ht1
  end.
  set (T3 := select T2 _) in *.
  (* temp_copy = temp_copy[temp_copy['W']/temp_copy['L'] > WoverL_min] *)
  apply bind_inv_ok in H as (t2 & w1 & HB & H).
  step_read HB w3 Hw3. step_read HB l3 Hl3. erewrite run_derive in HB by live.
  injection HB as <- <-. simpl heap in H. simpl self in H.
  match type of H with
  | context [fresh (dom ?hh)] =>
      pose proof (fresh_lookup hh) as Ht2;
      generalize dependent (fresh (dom hh)); intros t2 H Ht2
  end.
  set (T4 := select T3 _) in *.
  (* temp_copy[self.proportional] = ... *)
  apply bind_inv_ok in H as ([] & w1 & HB & H).
  step_attr_list HB. step_read HB s4 Hs4. step_read HB w4 Hw4.
  step_self_read HB w0 Hw0.
  apply bind_inv_ok in HB as (sc & w2' & Hsc & HB).
  apply lift_inv in Hsc as [Hsc ->].
  step_attr_list HB. erewrite run_update in HB by live. injection HB as <-.
  simpl heap in H. simpl self in H. rewrite insert_insert_eq in H.
  set (T5 := setitems T4 _ _) in *.
  (* temp_copy[self.inversly] = ... *)
  apply bind_inv_ok in H as ([] & w1 & HB & H).
  step_attr_list HB. step_read HB s5 Hs5. step_read HB w5 Hw5.
  step_self_read HB w0' Hw0'.
  apply bind_inv_ok in HB as (sc' & w2' & Hsc' & HB).
  apply lift_inv in Hsc' as [Hsc' ->].
  step_attr_list HB. erewrite run_update in HB by live. injection HB as <-.
  simpl heap in H. simpl self in H. rewrite insert_insert_eq in H.
  set (T6 := setitems T5 _ _) in *.
  (* self.conditional_df = pd.concat([...], ignore_index=True) *)
  apply bind_inv_ok in H as ([] & w1 & HB & H).
  step_attr_frame HB.
  erewrite bind_ok in HB; [|apply run_deref; live].
  erewrite bind_ok in HB; [|apply run_deref; live].
  unfold bind, alloc, set_attr in HB. simpl in HB. injection HB as <-.
  injection H as <- <-.
  match goal with
  | |- context [fresh (dom ?hh)] =>
      pose proof (fresh_lookup hh) as Hc';
      generalize dependent (fresh (dom hh)); intros c' Hc'
  end.
  exists t, T6, c'. split; [done|]. split.
  { rewrite Hw0 in Hw0'. injection Hw0' as <-.
    subst T6 T5 T4 T3 T2 T1. unfold resize_frame. cbv zeta.
    rewrite HsW. cbn [result_bind]. rewrite HsV. cbn [result_bind].
    rewrite Hw2. cbn [result_bind]. rewrite Hw3. cbn [result_bind].
    rewrite Hl3. cbn [result_bind]. rewrite Hs4. cbn [result_bind].
    rewrite Hw4. cbn [result_bind]. rewrite Hw0. cbn [result_bind].
    rewrite Hsc. cbn [result_bind]. rewrite Hs5. cbn [result_bind].
    rewrite Hw5. cbn [result_bind]. rewrite Hsc'. done. }
  split; [done|]. split.
  { split; simpl; try (rewrite lookup_insert_ne by done); try done; live. }
  split; [simpl; apply lookup_insert_eq|]. simpl. apply lookup_insert_eq.
Qed.

End ResizeBody.

Section ResizeFrame.

Implicit Types (F : DataFrame) (c : string) (r : gmap string cell)
  (lr : nat * gmap string cell).

Lemma filter_ext_in {A} (P Q : A -> Prop) `{!forall x, Decision (P x)}
    `{!forall x, Decision (Q x)} (l : list A) :
  (forall x, x ∈ l -> P x <-> Q x) -> filter P l = filter Q l.
Proof.
  induction l as [|x l IH]; intros Hext; [done|].
  rewrite !filter_cons.
  assert (P x <-> Q x) as Hx by (apply Hext; left).
  rewrite IH by (intros y Hy; apply Hext; by right).
  destruct (decide (P x)), (decide (Q x)); tauto || done.
Qed.

Lemma filter_fmap {A B} (f : A -> B) (P : B -> Prop)
    `{!forall x, Decision (P x)} (l : list A) :
  filter P (f <$> l) = f <$> filter (fun x => P (f x)) l.
Proof.
  induction l as [|x l IH]; [done|]. rewrite fmap_cons, !filter_cons.
  destruct (decide (P (f x))); [rewrite fmap_cons|]; by rewrite IH.
Qed.

Lemma fmap_ext_in {A B} (f g : A -> B) (l : list A) :
  (forall x, x ∈ l -> f x = g x) -> f <$> l = g <$> l.
Proof.
  intros H. apply list_fmap_ext. intros i x Hi. apply H.
  by eapply list_elem_of_lookup_2.
Qed.

Lemma labels_select F mask : NoDup (labels F) -> NoDup (labels (select F mask)).
Proof.
  unfold labels, select. simpl. intros H.
  apply (sublist_NoDup _ _ H). apply fmap_sublist, sublist_filter.
Qed.

Lemma labels_setitem_with F c f : labels (setitem_with F c f) = labels F.
Proof. unfold labels, setitem_with. simpl. apply labels_fmap. Qed.

Lemma select_rows F (mask : Mask) (p : nat * gmap string cell -> bool) :
  (forall lr, lr ∈ rows F -> mask !! lr.1 = Some (p lr)) ->
  rows (select F mask) = filter (fun lr => p lr = true) (rows F).
Proof.
  intros H. unfold select. simpl. apply filter_ext_in. intros lr Hin.
  rewrite (H lr Hin). split; [by intros [= ->]|by intros ->].
Qed.

Lemma row_arith_lookup f cols r x r' :
  NoDup cols -> row_arith f cols r x = Some r' ->
  forall c, c ∈ cols -> r' !! c = Some (Num (f (num_at r c) x)).
Proof.
  intros Hnd. revert r'. induction Hnd as [|c0 cs Hc0 Hnd IH]; intros r' H c Hc.
  - by apply elem_of_nil in Hc.
  - simpl in H.
    destruct (row_arith f cs r x) as [r''|] eqn:E; [|done]. simpl in H.
    destruct (cell_num (r !! c0)) as [x0|] eqn:Ex; [|done]. simpl in H.
    injection H as <-.
    apply elem_of_cons in Hc as [->|Hc].
    + rewrite lookup_insert_eq. unfold num_at. by rewrite Ex.
    + rewrite lookup_insert_ne by (intros ->; done). by apply (IH r'').
Qed.

Lemma foldr_insert_ext (f1 f2 : string -> cell) r cols :
  (forall c, c ∈ cols -> f1 c = f2 c) ->
  foldr (fun c acc => <[c := f1 c]> acc) r cols
  = foldr (fun c acc => <[c := f2 c]> acc) r cols.
Proof.
  induction cols as [|c cols IH]; intros H; [done|]. simpl.
  rewrite (H c) by left. rewrite IH; [done|]. intros c' Hc'. apply H. by right.
Qed.

Lemma foldr_insert_lookup_ne (f : string -> cell) r cols c :
  c ∉ cols -> foldr (fun c acc => <[c := f c]> acc) r cols !! c = r !! c.
Proof.
  induction cols as [|c0 cols IH]; intros H; [done|]. simpl.
  rewrite lookup_insert_ne by (intros ->; apply H; left).
  apply IH. intros Hc. apply H. by right.
Qed.

(** [F[cols] = F[cols].multiply(ratio, axis=0)] (or divide), row by row. *)
Lemma scale_rows f F cols S ratio Sc (k : nat * gmap string cell -> xnum) :
  NoDup (labels F) -> NoDup cols ->
  getitems F cols = Ok S ->
  frame_arith f S ratio = Ok Sc ->
  (forall lr, lr ∈ rows F -> ratio !! lr.1 = Some (k lr)) ->
  rows (setitems F cols Sc)
  = (fun lr => (lr.1, foldr (fun c acc => <[c := Num (f (num_at lr.2 c) (k lr))]> acc)
                        lr.2 cols)) <$> rows F.
Proof.
  intros HndF Hnd HS HSc Hk. unfold getitems in HS.
  destruct (find _ cols); [done|]. injection HS as <-.
  unfold frame_arith in HSc. simpl in HSc.
  destruct (mapM _ _) as [rs|] eqn:E; [|done]. injection HSc as <-.
  apply mapM_Some in E. apply Forall2_fmap_l in E.
  unfold setitems. simpl. apply fmap_ext_in. intros lr Hin. f_equal.
  assert (rs.*1 = labels F) as Hlab.
  { unfold labels. clear -E. induction E as [|lr [l x] ? ? H]; [done|].
    simpl in *. f_equal; [|done].
    destruct (row_arith _ _ _ _); simplify_eq/=. done. }
  apply list_elem_of_lookup_1 in Hin as [i Hi].
  destruct (Forall2_lookup_l _ _ _ _ _ E Hi) as ([l r'] & Hr' & Hrow).
  simpl in Hrow.
  destruct (row_arith _ _ _ _) as [r''|] eqn:Erow; simplify_eq/=.
  assert ((list_to_map rs : gmap nat (gmap string cell)) !! lr.1 = Some r')
    as ->.
  { apply elem_of_list_to_map_1; [by rewrite Hlab|].
    by eapply list_elem_of_lookup_2. }
  simpl. apply foldr_insert_ext. intros c Hc.
  rewrite (row_arith_lookup _ _ _ _ _ Hnd Erow c Hc). simpl.
  rewrite (Hk lr) by (by eapply list_elem_of_lookup_2). simpl.
  assert (filter (fun kv : string * cell => kv.1 ∈ cols) lr.2 !! c = lr.2 !! c)
    as Hf.
  { destruct (lr.2 !! c) as [x|] eqn:Ex.
    - by apply map_lookup_filter_Some_2.
    - by apply map_lookup_filter_None_2; left. }
  unfold num_at. by rewrite Hf.
Qed.

(** The original width of a row of [mod_df], read from [df]. *)
Lemma original_width Fd Fm lr :
  same_widths Fd Fm -> NoDup (labels Fm) -> lr ∈ rows Fm ->
  col_series Fd "W" !! lr.1 = Some (num_at lr.2 "W").
Proof.
  intros Hsame Hnd Hin.
  assert (labels Fd = labels Fm) as Hlab.
  { unfold labels. clear -Hsame.
    induction Hsame as [|a b ? ? [H _]]; [done|]. simpl. by f_equal. }
  apply list_elem_of_lookup_1 in Hin as [i Hi].
  destruct (Forall2_lookup_r _ _ _ _ _ Hsame Hi) as (a & Ha & Hl & Hw).
  rewrite <- Hl, <- Hw. apply col_series_lookup; [by rewrite Hlab|].
  by eapply list_elem_of_lookup_2.
Qed.


Lemma series_zip_lookup_l f (s1 s2 : Series) l x :
  s1 !! l = Some x ->
  series_zip f s1 s2 !! l = Some (f x (default NaN (s2 !! l))).
Proof.
  intros H1. unfold series_zip. rewrite lookup_merge, H1.
  by destruct (s2 !! l).
Qed.

Lemma labels_setitems F cols G : labels (setitems F cols G) = labels F.
Proof. unfold labels, setitems. simpl. apply labels_fmap. Qed.

Ltac open_bind H x E :=
  match type of H with
  | result_bind ?r _ = Ok _ =>
      destruct r as [x|] eqn:E; [cbn [result_bind] in H|discriminate H]
  end.

(** The frame appended for a resizable condition, row by row. *)
Lemma resize_frame_rows a b v t Fm Fd T :
  NoDup (labels Fm) -> same_widths Fd Fm ->
  resize_frame ["cgg"; "gm"; "gmb"; "id"] ["rout"] a b v t Fm Fd = Ok T ->
  rows T = batch a b v t Fm
  /\ numeric Fm "W" /\ numeric Fm v.
Proof.
  intros Hnd Hsame H. unfold resize_frame in H.
  open_bind H w EW. open_bind H g Eg. cbv zeta in H.
  apply getitem_Ok in EW as [HnW ->]. apply getitem_Ok in Eg as [Hng ->].
  set (T1 := setitem Fm "W" _) in *.
  set (T2 := setitem_scalar T1 _ _) in *.
  open_bind H w2 Ew2. apply getitem_Ok in Ew2 as [_ ->].
  set (T3 := select T2 _) in *.
  open_bind H w3 Ew3. apply getitem_Ok in Ew3 as [_ ->].
  open_bind H l3 El3. apply getitem_Ok in El3 as [_ ->].
  set (T4 := select T3 _) in *.
  open_bind H s4 Es4. open_bind H w4 Ew4. apply getitem_Ok in Ew4 as [_ ->].
  open_bind H w0 Ew0. apply getitem_Ok in Ew0 as [_ ->].
  open_bind H Sc Esc.
  set (T5 := setitems T4 _ Sc) in *.
  open_bind H s5 Es5. open_bind H w5 Ew5. apply getitem_Ok in Ew5 as [_ ->].
  open_bind H Sc' Esc'. injection H as <-.
  split; [|by split].
  (* the rows of each intermediate frame *)
  assert (rows T1 = (fun lr => (lr.1, <["W" := Num (new_width v t lr.2)]> lr.2))
                      <$> rows Fm) as R1.
  { subst T1. rewrite (setitem_rows Fm "W" _ (fun lr => new_width v t lr.2)); [done|].
    intros lr Hin. unfold new_width.
    destruct (in_list v _);
      (apply series_zip_lookup; [by apply col_series_lookup|]);
      by rewrite lookup_fmap, col_series_lookup. }
  assert (rows T2 = (fun lr => (lr.1, <["condition" := Str v]> lr.2)) <$> rows T1)
    as R2 by done.
  assert (NoDup (labels T2)) as Hnd2.
  { subst T2 T1. unfold setitem_scalar, setitem. by rewrite !labels_setitem_with. }
  assert (rows T3 = filter (fun lr => xltb (num_at lr.2 "W") b = true) (rows T2))
    as R3.
  { subst T3. apply select_rows. intros lr Hin.
    by rewrite lookup_fmap, col_series_lookup. }
  assert (NoDup (labels T3)) as Hnd3 by (by apply labels_select).
  assert (rows T4 = filter (fun lr => xgtb (xdiv (num_at lr.2 "W")
                                              (num_at lr.2 "L")) a = true)
                      (rows T3)) as R4.
  { subst T4. apply select_rows. intros lr Hin.
    rewrite lookup_fmap.
    by erewrite series_zip_lookup by (by apply col_series_lookup). }
  assert (NoDup (labels T4)) as Hnd4 by (by apply labels_select).
  assert (NoDup ["cgg"; "gm"; "gmb"; "id"]) as Hprop.
  { apply (bool_decide_unpack (NoDup _)). vm_compute. exact I. }
  assert (NoDup ["rout"]) as Hinv.
  { apply (bool_decide_unpack (NoDup _)). vm_compute. exact I. }
  pose proof (scale_rows xmul T4 _ _ _ _
                (fun lr => xdiv (num_at lr.2 "W")
                             (default NaN (col_series Fd "W" !! lr.1)))
                Hnd4 Hprop Es4 Esc) as R5.
  fold T5 in R5.
  assert (NoDup (labels T5)) as Hnd5.
  { subst T5. by rewrite labels_setitems. }
  pose proof (scale_rows xdiv T5 _ _ _ _
                (fun lr => xdiv (num_at lr.2 "W")
                             (default NaN (col_series Fd "W" !! lr.1)))
                Hnd5 Hinv Es5 Esc') as R6.
  rewrite R6, R5, R4, R3, R2, R1.
  2:{ intros lr Hin. apply series_zip_lookup_l. by apply col_series_lookup. }
  2:{ intros lr Hin. apply series_zip_lookup_l. by apply col_series_lookup. }
  rewrite <- !list_fmap_compose.
  rewrite (filter_fmap _ (fun lr => xltb (num_at lr.2 "W") b = true)).
  rewrite (filter_fmap _ (fun lr => xgtb (xdiv (num_at lr.2 "W")
                                             (num_at lr.2 "L")) a = true)).
  rewrite list_filter_filter, <- list_fmap_compose. unfold batch.
  rewrite (filter_ext_in _ (fun lr => keeps a b v t lr.2 = true)).
  2:{ intros [l r] _. unfold keeps. simpl.
      rewrite !(num_at_insert_ne _ "condition") by done.
      rewrite num_at_insert, num_at_insert_ne by done.
      rewrite andb_true_iff. tauto. }
  apply fmap_ext_in. intros [l r] Hin. apply list_elem_of_filter in Hin as [_ Hin].
  pose proof (original_width Fd Fm (l, r) Hsame Hnd Hin) as HW0.
  simpl in HW0. simpl. f_equal. rewrite HW0. simpl.
  unfold rescaled. simpl.
  rewrite !num_at_insert_ne by done. rewrite num_at_insert.
  rewrite !(num_at_insert_ne _ "condition") by done.
  rewrite !(num_at_insert_ne _ "W") by done. done.
Qed.

End ResizeFrame.

Section ResizeLoop.

Implicit Types (F : DataFrame) (r : gmap string cell)
  (lr : nat * gmap string cell).

Lemma fill_subseteq cols r : r ⊆ fill cols r.
Proof.
  unfold fill. induction cols as [|c cols IH]; simpl; [done|].
  apply map_subseteq_spec. intros c' x Hx.
  destruct (decide (c = c')) as [<-|Hne].
  - rewrite lookup_insert_eq. by rewrite Hx.
  - rewrite lookup_insert_ne by done. by eapply lookup_weaken.
Qed.

Lemma Forall2_imap_l {A B C} (R : C -> B -> Prop) (f : nat -> A -> C)
    (Q : A -> B -> Prop) (l : list A) (k : list B) :
  Forall2 Q l k -> (forall i x y, Q x y -> R (f i x) y) ->
  Forall2 R (imap f l) k.
Proof.
  intros H. revert f. induction H as [|x y l k Hxy _ IH]; intros f Hf.
  - constructor.
  - simpl. constructor; [by apply Hf|]. apply IH. intros i. apply Hf.
Qed.

Lemma labels_imap {A} (g : A -> gmap string cell) (l : list A) :
  (imap (fun i x => (i, g x)) l).*1 = seq 0 (length l).
Proof.
  assert (forall n, (imap (fun i x => (n + i, g x)) l).*1 = seq n (length l))%nat
    as H; [|apply (H 0%nat)].
  induction l as [|x l IH]; intros n; [done|]. simpl. f_equal; [lia|].
  rewrite <- (IH (S n)). f_equal. apply imap_ext. intros i y _. simpl.
  f_equal. lia.
Qed.

Lemma labels_concat A B : NoDup (labels (pd_concat A B)).
Proof.
  unfold labels, pd_concat. simpl.
  rewrite (labels_imap (fun lr => fill _ lr.2)). apply NoDup_seq.
Qed.

(** The accumulator carries the rescaled row of every contribution. *)
Definition carried (lr : nat * gmap string cell)
    (k : string * xnum * (nat * gmap string cell)) : Prop :=
  rescaled k.1.1 k.1.2 k.2.2 ⊆ lr.2.

Lemma carried_concat A B ka kb :
  Forall2 carried (rows A) ka -> Forall2 carried (rows B) kb ->
  Forall2 carried (rows (pd_concat A B)) (ka ++ kb).
Proof.
  intros Ha Hb. unfold pd_concat. simpl.
  eapply Forall2_imap_l; [by apply Forall2_app|].
  intros i lr k Hk. unfold carried in *. simpl.
  etrans; [exact Hk|]. apply fill_subseteq.
Qed.

Lemma carried_batch a b v t Fm :
  Forall2 carried (batch a b v t Fm)
    ((fun lr => (v, t, lr)) <$> filter (fun lr => keeps a b v t lr.2 = true)
                                  (rows Fm)).
Proof.
  unfold batch. apply Forall2_fmap. apply Forall_Forall2_diag, Forall_forall.
  intros lr _. by unfold carried.
Qed.

Lemma resizable_in_list v :
  resizable v <-> in_list v ["cgg"; "gm"; "gmb"; "id"; "rout"] = true.
Proof. unfold resizable, in_list. by rewrite bool_decide_eq_true. Qed.

Lemma contributions_cons a b Fm cond parsed :
  contributions a b Fm (cond :: parsed)
  = contributions a b Fm [cond] ++ contributions a b Fm parsed.
Proof. unfold contributions. simpl. by rewrite app_nil_r. Qed.

(** The first loop: the accumulator gets, in order, the rescaled rows of
    the contributions of every condition. *)
Lemma resize_loop a b d m Fd Fm parsed :
  NoDup (labels Fm) -> same_widths Fd Fm ->
  forall flag w c Acc ka flag' w',
    constructed w d m Fd Fm ->
    self w !! "conditional_df" = Some (PyFrame c) ->
    heap w !! c = Some Acc ->
    Forall2 carried (rows Acc) ka ->
    NoDup (labels Acc) ->
    fold_m (resize_body a b) flag parsed w = (Ok flag', w') ->
    constructed w' d m Fd Fm
    /\ (flag' = true <->
        flag = true \/ Exists (fun cond : string * string * string =>
                                 resizable cond.1.1) parsed)
    /\ exists c' Acc',
         self w' !! "conditional_df" = Some (PyFrame c')
         /\ heap w' !! c' = Some Acc'
         /\ NoDup (labels Acc')
         /\ Forall2 carried (rows Acc') (ka ++ contributions a b Fm parsed).
Proof.
  intros Hnd Hsame.
  induction parsed as [|[[v op] tok] parsed IH];
    intros flag w c Acc ka flag' w' Hcon Hc Hhc Hka HndA H.
  - injection H as <- <-. split; [done|]. split.
    + split; [by left|]. intros [?|Hex]; [done|]. by inversion Hex.
    + exists c, Acc. rewrite app_nil_r. by repeat split.
  - cbn [fold_m] in H. apply bind_inv_ok in H as (flag1 & w1 & Hbody & H).
    rewrite contributions_cons, app_assoc.
    destruct (decide (resizable v)) as [Hres|Hres].
    + destruct (resize_body_resizable a b flag v op tok w d m Fd Fm c Acc
                  flag1 w1 Hcon Hc Hhc Hres Hbody)
        as (t & T & c1 & Ht & HT & -> & Hcon1 & Hc1 & Hhc1).
      destruct (resize_frame_rows a b v t Fm Fd T Hnd Hsame HT) as (HrT & _).
      destruct (IH true w1 c1 (pd_concat Acc T)
                  (ka ++ contributions a b Fm [(v, op, tok)]) flag' w'
                  Hcon1 Hc1 Hhc1) as (Hcon' & Hflag & Hrest); [| |done|].
      * apply carried_concat; [done|]. rewrite HrT.
        unfold contributions. simpl.
        apply resizable_in_list in Hres. rewrite Hres, Ht, app_nil_r.
        apply carried_batch.
      * apply labels_concat.
      * split; [done|]. split; [|done].
        rewrite Hflag. split; [|by left].
        intros _. right. by left.
    + destruct (resize_body_filter a b flag (v, op, tok) w _ _ _ _ Hcon Hres)
        as (w1' & Hrun & Hs & Hh).
      rewrite Hrun in Hbody. injection Hbody as <- <-.
      assert (constructed w1' d m Fd Fm) as Hcon1.
      { destruct Hcon. split; rewrite ?Hs; try done; by eapply lookup_weaken. }
      destruct (IH flag w1' c Acc
                  (ka ++ contributions a b Fm [(v, op, tok)]) flag' w'
                  Hcon1) as (Hcon' & Hflag & Hrest);
        [by rewrite Hs|by eapply lookup_weaken| |done|done|].
      * unfold contributions. simpl.
        assert (in_list v ["cgg"; "gm"; "gmb"; "id"; "rout"] = false) as ->.
        { apply not_true_is_false. by rewrite <- resizable_in_list. }
        by rewrite !app_nil_r.
      * split; [done|]. split; [|done]. rewrite Hflag. split.
        -- intros [?|?]; [by left|right; by right].
        -- intros [?|Hex]; [by left|]. right.
           apply Exists_cons in Hex as [?|?]; done.
Qed.

End ResizeLoop.

Section Matcher.

Implicit Types (F : DataFrame) (r : gmap string cell)
  (lr : nat * gmap string cell).

Lemma getitem_bool_lookup F c (s : Mask) lr :
  getitem_bool F c = Ok s -> NoDup (labels F) -> lr ∈ rows F ->
  exists bb, lr.2 !! c = Some (Bool bb) /\ s !! lr.1 = Some bb.
Proof.
  unfold getitem_bool. destruct (column cell_bool F c) as [kvs|] eqn:E; [|done].
  intros [= <-] Hnd Hin. apply column_Ok in E as [_ H].
  assert (kvs.*1 = labels F) as Hlab.
  { unfold labels. clear -H. induction H as [|? ? ? ? [Hl _]]; [done|].
    simpl. by f_equal. }
  apply list_elem_of_lookup_1 in Hin as [i Hi].
  destruct (Forall2_lookup_l _ _ _ _ _ H Hi) as ([l bb] & Hkv & Hl & Hb).
  simpl in *. subst l. exists bb. split.
  - destruct (lr.2 !! c) as [[?|?|?]|]; simplify_eq/=. done.
  - apply elem_of_list_to_map_1; [by rewrite Hlab|].
    by eapply list_elem_of_lookup_2.
Qed.

Lemma frame_eval_Ok F lhs cm rhs hit :
  frame_eval F lhs cm rhs = Ok hit ->
  exists y, eval_operand rhs = Ok y
            /\ hit = (fun x => compare cm x y) <$> col_series F lhs.
Proof.
  unfold frame_eval. destruct (eval_operand rhs) as [y|]; [|done]. simpl.
  case_bool_decide; [|done].
  destruct (getitem F lhs) as [s|] eqn:E; [|done]. simpl. intros [= <-].
  apply getitem_Ok in E as [_ ->]. by exists y.
Qed.

Lemma eval_number_Ok tok n :
  eval_number tok = Ok n -> py_float tok = Some n.
Proof.
  unfold eval_number. destruct (py_float tok) as [[q| | |]|]; try done.
  destruct (leading_zero_int tok); [done|]. by intros [= <-].
Qed.

Lemma eval_number_finite tok n : eval_number tok = Ok n -> exists q, n = Fin q.
Proof.
  unfold eval_number. destruct (py_float tok) as [[q| | |]|]; try done.
  destruct (leading_zero_int tok); [done|]. intros [= <-]. by exists q.
Qed.

Lemma repr_number_Ok x y : repr_number x = Ok y -> y = x.
Proof. destruct x; simpl; congruence. Qed.

Lemma series_and_lookup (m1 m2 : Mask) l b1 b2 :
  m1 !! l = Some b1 -> m2 !! l = Some b2 ->
  series_and m1 m2 !! l = Some (b1 && b2).
Proof. intros H1 H2. unfold series_and. by rewrite lookup_merge, H1, H2. Qed.

(** One [met_specs &= eval(...)] on a frame whose flags are known. *)
Lemma and_eval_rows F base (mb : gmap string cell -> bool) v cm y met :
  NoDup (labels F) ->
  rows F = (fun lr => (lr.1, <["met_specs" := Bool (mb lr.2)]> lr.2)) <$> base ->
  getitem_bool F "met_specs" = Ok met ->
  rows (setitem_bool F "met_specs"
          (series_and met ((fun x => compare cm x y) <$> col_series F v)))
  = (fun lr =>
       (lr.1,
        <["met_specs" :=
            Bool (mb lr.2
                  && compare cm (num_at (<["met_specs" := Bool (mb lr.2)]> lr.2) v)
                       y)]> lr.2)) <$> base.
Proof.
  intros Hnd Hrows Hmet. unfold setitem_bool, setitem_with. simpl.
  rewrite Hrows, <- list_fmap_compose. apply fmap_ext_in.
  intros lr Hin. simpl. f_equal.
  set (lr' := (lr.1, <["met_specs" := Bool (mb lr.2)]> lr.2)).
  assert (lr' ∈ rows F) as Hin'.
  { rewrite Hrows. apply list_elem_of_fmap. by exists lr. }
  destruct (getitem_bool_lookup _ _ _ _ Hmet Hnd Hin') as (bb & Hbb & Hm).
  subst lr'. simpl in *. rewrite lookup_insert_eq in Hbb. injection Hbb as <-.
  erewrite series_and_lookup; [|exact Hm|].
  2:{ rewrite lookup_fmap.
      rewrite (col_series_lookup F v
                 (lr.1, <["met_specs" := Bool (mb lr.2)]> lr.2)) by done.
      reflexivity. }
  simpl. by rewrite insert_insert_eq.
Qed.

Lemma check_fold_app cs1 cs2 r b0 :
  check_fold (cs1 ++ cs2) r b0 = check_fold cs2 r (check_fold cs1 r b0).
Proof. unfold check_fold. by rewrite fold_left_app. Qed.

(** The second loop, for one condition. *)
Lemma match_body_rows p cond w c F base cs w' :
  self w !! "conditional_df" = Some (PyFrame c) ->
  heap w !! c = Some F ->
  NoDup (labels F) ->
  rows F = (fun lr => (lr.1, <["met_specs" := Bool (check_fold cs lr.2 true)]> lr.2))
             <$> base ->
  match_body p cond w = (Ok tt, w') ->
  exists F',
    w' = World (<[c := F']> (heap w)) (self w)
    /\ NoDup (labels F')
    /\ rows F' = (fun lr =>
                    (lr.1, <["met_specs" :=
                               Bool (check_fold (cs ++ checks p cond) lr.2 true)]>
                             lr.2)) <$> base
    /\ finite_literal cond
    /\ (forall x, x ∈ columns F -> x ∈ columns F').
Proof.
  intros Hc Hh Hnd Hrows H. destruct cond as [[c0 c1] c2].
  unfold finite_literal.
  destruct w as [h s]. simpl in *.
  assert (forall cm rhs F0 h0 cs0 w1,
    h0 !! c = Some F0 -> NoDup (labels F0) ->
    rows F0 = (fun lr => (lr.1, <["met_specs" := Bool (check_fold cs0 lr.2 true)]> lr.2))
                <$> base ->
    (let! l := attr_frame "conditional_df" in
     let! met := read l (fun F => getitem_bool F "met_specs") in
     let! l' := attr_frame "conditional_df" in
     let! hit := read l' (fun F => frame_eval F c0 cm rhs) in
     let! l'' := attr_frame "conditional_df" in
     update l'' (fun F => setitem_bool F "met_specs" (series_and met hit)))
      (World h0 s) = (Ok tt, w1) ->
    exists y F1,
      eval_operand rhs = Ok y
      /\ w1 = World (<[c := F1]> h0) s
      /\ NoDup (labels F1)
      /\ rows F1 = (fun lr =>
                      (lr.1, <["met_specs" :=
                                 Bool (check_fold (cs0 ++ [(c0, cm, y)]) lr.2 true)]>
                               lr.2)) <$> base
      /\ (forall x, x ∈ columns F0 -> x ∈ columns F1)) as Hand.
  { intros cm rhs F0 h0 cs0 w1 Hh0 Hnd0 Hrows0 Hrun.
    erewrite bind_ok in Hrun; [|by apply run_attr_frame].
    apply bind_inv_ok in Hrun as (met & w2 & Hmet & Hrun).
    eapply read_inv in Hmet as [Hmet ->]; [|exact Hh0].
    erewrite bind_ok in Hrun; [|by apply run_attr_frame].
    apply bind_inv_ok in Hrun as (hit & w2 & Hhit & Hrun).
    eapply read_inv in Hhit as [Hhit ->]; [|exact Hh0].
    erewrite bind_ok in Hrun; [|by apply run_attr_frame].
    erewrite run_update in Hrun by exact Hh0. injection Hrun as <-.
    apply frame_eval_Ok in Hhit as (y & Hy & ->).
    exists y, (setitem_bool F0 "met_specs"
                 (series_and met ((fun x => compare cm x y) <$> col_series F0 c0))).
    split; [done|]. split; [done|]. split.
    { unfold setitem_bool. by rewrite labels_setitem_with. }
    split.
    2:{ intros x Hx. unfold setitem_bool, setitem_with. simpl.
        by apply add_column_elem. }
    rewrite (and_eval_rows F0 base (fun r => check_fold cs0 r true) c0 cm y met)
      by done.
    apply fmap_ext_in. intros lr _. simpl. by rewrite check_fold_app. }
  unfold match_body in H. unfold checks.
  destruct (c1 =? "=") eqn:E1.
  - apply bind_inv_ok in H as (t & w1 & Ht & H).
    apply float_inv in Ht as [Ht ->].
    apply bind_inv_ok in H as ([] & w1 & H1 & H).
    destruct (Hand _ _ _ _ _ _ Hh Hnd Hrows H1)
      as (y1 & F1 & Hy1 & -> & Hnd1 & Hr1 & Hc1).
    destruct (Hand _ _ _ _ _ _ (lookup_insert_eq _ _ _) Hnd1 Hr1 H)
      as (y2 & F2 & Hy2 & -> & Hnd2 & Hr2 & Hc2).
    exists F2. rewrite insert_insert_eq. split; [done|]. split; [done|].
    rewrite Hr2, <- app_assoc. simpl in Hy1, Hy2.
    destruct (eval_number c2) as [n|] eqn:En; [|done].
    destruct (eval_number_finite _ _ En) as [q ->].
    apply eval_number_Ok in En. rewrite Ht in En. injection En as ->.
    simpl in Hy1, Hy2.
    destruct (repr_number _) as [tol|] eqn:Etol; [|done].
    apply repr_number_Ok in Etol as ->. simpl in Hy1, Hy2.
    injection Hy1 as <-. injection Hy2 as <-. rewrite Ht.
    split; [done|]. split; [intros _; by exists q|]. auto.
  - destruct (c1 =? ">") eqn:E2.
    + destruct (Hand _ _ _ _ _ _ Hh Hnd Hrows H)
        as (y & F1 & Hy & -> & Hnd1 & Hr1 & Hc1).
      exists F1. split; [done|]. split; [done|]. rewrite Hr1.
      simpl in Hy. destruct (eval_number_finite _ _ Hy) as [q ->].
      apply eval_number_Ok in Hy. rewrite Hy.
      split; [done|]. split; [intros _; by exists q|done].
    + destruct (c1 =? "<") eqn:E3.
      * destruct (Hand _ _ _ _ _ _ Hh Hnd Hrows H)
          as (y & F1 & Hy & -> & Hnd1 & Hr1 & Hc1).
        exists F1. split; [done|]. split; [done|]. rewrite Hr1.
        simpl in Hy. destruct (eval_number_finite _ _ Hy) as [q ->].
        apply eval_number_Ok in Hy. rewrite Hy.
        split; [done|]. split; [intros _; by exists q|done].
      * injection H as <-. exists F. rewrite insert_id by done.
        split; [done|]. split; [done|]. rewrite app_nil_r.
        split; [done|]. split; [|done]. simpl. intros Hop.
        apply String.eqb_neq in E1, E2, E3.
        repeat (apply elem_of_cons in Hop as [->|Hop]; [done|]).
        by apply elem_of_nil in Hop.
Qed.

End Matcher.

Section Compute.

Implicit Types (F : DataFrame) (r : gmap string cell)
  (lr : nat * gmap string cell).

Lemma map_m_parse_inv conditions parsed w w1 :
  map_m (fun cond => lift (parse_condition cond)) conditions w = (Ok parsed, w1) ->
  w1 = w /\ Forall2 (fun s c => parse_condition s = Ok c) conditions parsed.
Proof.
  revert parsed. induction conditions as [|s conditions IH]; intros parsed H.
  - injection H as <- <-. by split.
  - cbn [map_m] in H. apply bind_inv_ok in H as (c & w2 & Hc & H).
    apply lift_inv in Hc as [Hc ->].
    apply bind_inv_ok in H as (cs & w2 & Hcs & H).
    injection H as <- <-. destruct (IH _ Hcs) as [-> Hall].
    split; [done|]. by constructor.
Qed.

(** The second loop. *)
Lemma match_loop p rest :
  forall w c F base cs w',
    self w !! "conditional_df" = Some (PyFrame c) ->
    heap w !! c = Some F ->
    NoDup (labels F) ->
    rows F = (fun lr => (lr.1, <["met_specs" := Bool (check_fold cs lr.2 true)]> lr.2))
               <$> base ->
    for_each rest (match_body p) w = (Ok tt, w') ->
    exists F',
      w' = World (<[c := F']> (heap w)) (self w)
      /\ rows F' = (fun lr =>
                      (lr.1, <["met_specs" :=
                                 Bool (check_fold (cs ++ (rest ≫= checks p)) lr.2 true)]>
                               lr.2)) <$> base
      /\ Forall finite_literal rest
      /\ (forall x, x ∈ columns F -> x ∈ columns F').
Proof.
  induction rest as [|cond rest IH]; intros w c F base cs w' Hc Hh Hnd Hrows H.
  - injection H as <-. exists F. destruct w as [h s]. simpl in *.
    rewrite insert_id by done. split; [done|]. by rewrite app_nil_r.
  - cbn [for_each] in H. apply bind_inv_ok in H as ([] & w1 & Hbody & H).
    destruct (match_body_rows p cond w c F base cs w1 Hc Hh Hnd Hrows Hbody)
      as (F1 & -> & Hnd1 & Hr1 & Hfin & Hcol1).
    destruct (IH (World (<[c := F1]> (heap w)) (self w)) c F1 base
                (cs ++ checks p cond) w') as (F2 & -> & Hr2 & Hfins & Hcol2);
      [done|apply lookup_insert_eq|done|done|done|].
    exists F2. simpl. rewrite insert_insert_eq. split; [done|].
    rewrite Hr2. simpl. rewrite <- app_assoc. split; [done|].
    split; [by constructor|auto].
Qed.

Lemma xgt_not_nan x y a : xgtb (xdiv x y) a = true -> y <> NaN.
Proof. intros H ->. by destruct x, a. Qed.

Lemma rescaled_W v t r : rescaled v t r !! "W" = Some (Num (new_width v t r)).
Proof.
  unfold rescaled. simpl. rewrite !lookup_insert_ne by done.
  apply lookup_insert_eq.
Qed.




Lemma rescaled_other v t r c :
  c ∉ ["rout"; "cgg"; "gm"; "gmb"; "id"; "condition"; "W"] ->
  rescaled v t r !! c = r !! c.
Proof.
  intros H. unfold rescaled. simpl.
  rewrite !lookup_insert_ne; [done|..]; intros <-; apply H;
    repeat first [by apply list_elem_of_here | apply list_elem_of_further].
Qed.

Lemma contributions_kept a b Fm parsed :
  Forall (fun k : string * xnum * (nat * gmap string cell) =>
            keeps a b k.1.1 k.1.2 k.2.2 = true /\ k.2 ∈ rows Fm
            /\ exists op tok, (k.1.1, op, tok) ∈ parsed
                              /\ py_float tok = Some k.1.2
                              /\ resizable k.1.1)
         (contributions a b Fm parsed).
Proof.
  apply Forall_forall. intros [[v t] lr] Hin. unfold contributions in Hin.
  apply list_elem_of_bind in Hin as ([[v' op] tok] & Hin & Hcond).
  destruct (in_list v' _) eqn:Ev; [|by apply elem_of_nil in Hin].
  destruct (py_float tok) as [t'|] eqn:Et; [|by apply elem_of_nil in Hin].
  apply list_elem_of_fmap in Hin as (lr' & [= -> -> ->] & Hin).
  apply list_elem_of_filter in Hin as [Hk Hin]. simpl.
  split; [done|]. split; [done|]. exists op, tok.
  split; [done|]. split; [done|]. by apply resizable_in_list.
Qed.

Lemma Forall2_and_r {A B} (R : A -> B -> Prop) (P : B -> Prop) l k :
  Forall2 R l k -> Forall P k -> Forall2 (fun x y => R x y /\ P y) l k.
Proof.
  intros H. induction H as [|x y l k Hxy _ IH]; intros HP; [constructor|].
  apply Forall_cons in HP as [Hy HP]. constructor; [done|]. by apply IH.
Qed.

(** The result of a successful [compute_conditional_df]. *)
Lemma compute_result conditions p a b w d m Fd Fm w' :
  constructed w d m Fd Fm ->
  NoDup (labels Fm) -> same_widths Fd Fm ->
  compute_conditional_df conditions p a b w = (Ok tt, w') ->
  exists parsed c F,
    Forall2 (fun s cond => parse_condition s = Ok cond) conditions parsed
    /\ self w' !! "conditional_df" = Some (PyFrame c)
    /\ heap w' !! c = Some F
    /\ Forall finite_literal parsed
    /\ Forall2 (output_row p parsed) (rows F) (contributions a b Fm parsed).
Proof.
  intros Hcon Hnd Hsame H. pose proof Hcon as [Hd Hm Hp Hi Hhd Hhm].
  unfold compute_conditional_df in H.
  apply bind_inv_ok in H as (parsed & w0 & Hparse & H).
  apply map_m_parse_inv in Hparse as [-> Hparse].
  exists parsed.
  (* self.conditional_df = pd.DataFrame(columns=self.mod_df.columns) *)
  erewrite bind_ok in H.
  2:{ erewrite bind_ok; [|by apply run_attr_frame].
      erewrite bind_ok; [|by eapply run_read_ok].
      unfold bind, alloc, set_attr. reflexivity. }
  pose proof (fresh_lookup (heap w)) as He.
  generalize dependent (fresh (dom (heap w))). intros e H He.
  set (w1 := World _ _) in H.
  assert (constructed w1 d m Fd Fm) as Hcon1.
  { subst w1. split; simpl; rewrite ?lookup_insert_ne; try done;
      intros ->; congruence. }
  (* the first loop *)
  apply bind_inv_ok in H as (flag & w2 & Hloop & H).
  destruct (resize_loop a b d m Fd Fm parsed Hnd Hsame false w1 e
              (Frame (columns Fm) []) [] flag w2 Hcon1)
    as (Hcon2 & Hflag & c & Acc & Hc & Hhc & HndA & Hrows);
    [apply lookup_insert_eq|apply lookup_insert_eq|constructor|constructor|done|].
  simpl in Hrows. clear Hloop Hcon1 w1 He.
  (* self.conditional_df['area'] = ... *)
  apply bind_inv_ok in H as ([] & w3 & Harea & H).
  erewrite bind_ok in Harea; [|by apply run_attr_frame].
  apply bind_inv_ok in Harea as (sw & w4 & Hsw & Harea).
  eapply read_inv in Hsw as [Hsw ->]; [|exact Hhc].
  erewrite bind_ok in Harea; [|by apply run_attr_frame].
  apply bind_inv_ok in Harea as (sl & w4 & Hsl & Harea).
  eapply read_inv in Hsl as [Hsl ->]; [|exact Hhc].
  erewrite bind_ok in Harea; [|by apply run_attr_frame].
  erewrite run_update in Harea by exact Hhc. injection Harea as <-.
  apply getitem_Ok in Hsw as [_ ->]. apply getitem_Ok in Hsl as [_ ->].
  destruct flag; [|discriminate H]. cbn [negb] in H.
  set (F1 := setitem Acc "area" _) in *.
  assert (rows F1 = (fun lr => (lr.1, <["area" := Num (xmul (num_at lr.2 "W")
                                                        (num_at lr.2 "L"))]> lr.2))
                      <$> rows Acc) as R1.
  { subst F1.
    rewrite (setitem_rows Acc "area" _
               (fun lr => xmul (num_at lr.2 "W") (num_at lr.2 "L"))); [done|].
    intros lr Hin. apply series_zip_lookup; by apply col_series_lookup. }
  assert (NoDup (labels F1)) as Hnd1.
  { subst F1. unfold setitem. by rewrite labels_setitem_with. }
  (* self.conditional_df['met_specs'] = True *)
  erewrite bind_ok in H.
  2:{ erewrite bind_ok; [|by apply run_attr_frame].
      eapply run_update. simpl. apply lookup_insert_eq. }
  simpl heap in H. simpl self in H. rewrite insert_insert_eq in H.
  (* the second loop *)
  destruct (match_loop p parsed
              (World (<[c := setitem_scalar F1 "met_specs" (Bool true)]> (heap w2))
                     (self w2))
              c (setitem_scalar F1 "met_specs" (Bool true)) (rows F1) [] w' Hc)
    as (F & -> & Hrows' & Hfin & _); [apply lookup_insert_eq| |done|exact H|].
  { unfold setitem_scalar. by rewrite labels_setitem_with. }
  exists c, F. split; [done|]. split; [done|].
  split; [apply lookup_insert_eq|]. split; [done|].
  rewrite Hrows', R1. simpl.
  pose proof (Forall2_and_r _ _ _ _ Hrows (contributions_kept a b Fm parsed))
    as Hall.
  apply Forall2_fmap_l, Forall2_fmap_l.
  eapply Forall2_impl; [exact Hall|].
  intros [l racc] [[v t] [l0 r]] [Hcar (Hkeep & _)]. unfold carried in Hcar.
  simpl in *. unfold output_row. simpl.
  eexists. split; [reflexivity|].
  pose proof (lookup_weaken _ _ _ _ (rescaled_W v t r) Hcar) as HW.
  assert (num_at racc "L" = num_at r "L") as HL.
  { unfold keeps in Hkeep. apply andb_true_iff in Hkeep as [_ Hk].
    apply xgt_not_nan in Hk. unfold num_at in *.
    destruct (r !! "L") as [x|] eqn:Ex; [|done].
    assert (rescaled v t r !! "L" = Some x) as Hx.
    { rewrite rescaled_other; [done|].
      apply (bool_decide_unpack (_ ∉ _)). vm_compute. exact I. }
    by rewrite (lookup_weaken _ _ _ _ Hx Hcar). }
  split.
  - rewrite lookup_insert_eq. unfold num_at at 1. rewrite HW. simpl.
    by rewrite HL.
  - intros c0 x Hc0 Hx. rewrite lookup_insert_ne by done.
    by eapply lookup_weaken.
Qed.

End Compute.

Section Arithmetic.









End Arithmetic.

Section ResultRows.

Implicit Types (r : gmap string cell) (out : nat * gmap string cell)
  (k : string * xnum * (nat * gmap string cell)).





Lemma resizable_cases v :
  resizable v ->
  (v ∈ ["cgg"; "gm"; "gmb"; "id"] /\ in_list v ["cgg"; "gm"; "gmb"; "id"] = true)
  \/ (v = "rout" /\ in_list v ["cgg"; "gm"; "gmb"; "id"] = false).
Proof.
  unfold resizable, in_list. intros H.
  repeat (apply elem_of_cons in H as [->|H];
          [left; split; [|done];
           repeat first [by apply list_elem_of_here | apply list_elem_of_further]|]).
  apply elem_of_cons in H as [->|H]; [by right|]. by apply elem_of_nil in H.
Qed.





End ResultRows.

Section Flags.

Implicit Types (r : gmap string cell) (out : nat * gmap string cell).







End Flags.

(* ===================================================================== *)
(** ** The result of [compute_conditional_df]                             *)
(* ===================================================================== *)

Section Result.




End Result.

Lemma example_same_widths : same_widths example_df example_mod_df.
Proof.
  unfold same_widths, example_df, example_mod_df. cbn [rows].
  repeat (constructor; [split; vm_compute; reflexivity|]).
  constructor.
Defined.

Lemma with_final_world {A} (run : result A * world) (res : result A) :
  run.1 = res -> run = (res, run.2).
Proof. destruct run as [res' w']. simpl. by intros ->. Defined.




(* ===================================================================== *)
(** ** The condition parser: what a successful parse returns              *)
(* ===================================================================== *)

Section Greedy.

(** The count [first_down] settles on is the largest one that works. *)
Lemma first_down_max {B} (f : nat -> option B) lo k r :
  first_down f lo k = Some r ->
  exists k', (lo <= k' <= k)%nat /\ f k' = Some r
             /\ forall k'', (k' < k'' <= k)%nat -> f k'' = None.
Proof.
  induction k as [|k IH]; simpl.
  - destruct (lo <=? 0)%nat eqn:E; [|discriminate].
    destruct (f 0%nat) eqn:F; [|discriminate].
    intros [= <-]. apply Nat.leb_le in E. exists 0%nat.
    split; [lia|]. split; [done|]. intros; lia.
  - destruct (lo <=? S k)%nat eqn:E.
    + destruct (f (S k)) eqn:F.
      * intros [= <-]. apply Nat.leb_le in E. exists (S k).
        split; [lia|]. split; [done|]. intros; lia.
      * intros H. destruct (IH H) as (k' & ? & ? & Hmax). exists k'.
        split; [lia|]. split; [done|]. intros k'' Hk.
        destruct (decide (k'' = S k)) as [->|]; [done|]. apply Hmax. lia.
    + intros H. destruct (IH H) as (k' & ? & ? & Hmax).
      apply Nat.leb_gt in E. lia.
Qed.

(** An unbounded greedy run stops at the end or at a character outside the
    class. *)
Lemma span_stop p s :
  match drop (span p None s) s with
  | [] => True
  | c :: _ => p c = false
  end.
Proof.
  induction s as [|c s IH]; simpl; [done|].
  destruct (p c) eqn:E; simpl; [exact IH|exact E].
Qed.

(** The last atom of a pattern, when unbounded, takes all it can. *)
Lemma re_match_last_greedy pat a s gs :
  hi a = None ->
  re_match (pat ++ [a]) s = Some gs ->
  exists rest,
    s = List.concat gs ++ rest
    /\ match rest with
       | [] => True
       | c :: _ => cls a c = false
       end.
Proof.
  intros Hhi. revert s gs. induction pat as [|a0 pat IH]; intros s gs H.
  - cbn [app re_match] in H. rewrite Hhi in H.
    apply first_down_max in H as (k & Hk & H & Hmax). injection H as <-.
    assert (k = span (cls a) None s) as ->.
    { destruct (decide (k = span (cls a) None s)) as [|Hne]; [done|].
      specialize (Hmax (span (cls a) None s)). simpl in Hmax.
      discriminate Hmax. lia. }
    exists (drop (span (cls a) None s) s). split.
    + simpl. by rewrite app_nil_r, take_drop.
    + apply span_stop.
  - cbn [app re_match] in H. apply first_down_Some in H as (k & Hk & H).
    destruct (re_match (pat ++ [a]) (drop k s)) as [gs'|] eqn:E; [|discriminate].
    injection H as <-. destruct (IH _ _ E) as (rest & Hs & Hrest).
    exists rest. split; [|done]. simpl. rewrite <- app_assoc, <- Hs.
    by rewrite take_drop.
Qed.

(** The first atom takes the longest text for which the rest of the
    pattern still matches. *)
Lemma re_match_head_longest a pat s g gs g' gs' rest' :
  re_match (a :: pat) s = Some (g :: gs) ->
  s = g' ++ List.concat gs' ++ rest' ->
  atom_accepts a g' -> Forall2 atom_accepts pat gs' ->
  (length g' <= length g)%nat.
Proof.
  intros H Hs (Hcls & Hlo & Hhi) Hall. cbn [re_match] in H.
  apply first_down_max in H as (k & Hk & H & Hmax).
  destruct (re_match pat (drop k s)) as [gs0|] eqn:E; [|discriminate].
  injection H as <- _.
  assert (length (take k s) = k) as ->.
  { rewrite length_take. pose proof (span_length (cls a) (hi a) s). lia. }
  destruct (decide (length g' <= k)%nat) as [|Hgt]; [done|]. exfalso.
  assert (length g' <= span (cls a) (hi a) s)%nat as Hspan
    by (rewrite Hs; by apply span_max).
  specialize (Hmax (length g') ltac:(lia)).
  rewrite Hs, drop_app_length in Hmax.
  destruct (re_match_complete pat gs' rest' Hall) as [gs2 Hgs2].
  by rewrite Hgs2 in Hmax.
Qed.

Lemma operator_not_space c : one_of "=<>" c = true -> is_space c = false.
Proof.
  intros H. apply one_of_elem in H. simpl in H.
  repeat (apply elem_of_cons in H as [->|H]; [done|]).
  by apply elem_of_nil in H.
Qed.

Lemma operator_text c :
  one_of "=<>" c = true -> str [c] ∈ ["="; "<"; ">"].
Proof.
  intros H. apply one_of_elem in H. simpl in H.
  repeat (apply elem_of_cons in H as [->|H];
          [repeat first [by apply list_elem_of_here | apply list_elem_of_further]|]).
  by apply elem_of_nil in H.
Qed.

Lemma nonspace_class l :
  Forall (fun c => is_space c = false) l ->
  Forall (fun c => is_nonspace c = true) l.
Proof.
  intros H. eapply Forall_impl; [exact H|]. intros c Hc.
  unfold is_nonspace. by rewrite Hc.
Qed.

Lemma class_nonspace l :
  Forall (fun c => is_nonspace c = true) l ->
  Forall (fun c => is_space c = false) l.
Proof.
  intros H. eapply Forall_impl; [exact H|]. intros c Hc.
  unfold is_nonspace in Hc. by apply negb_true_iff in Hc.
Qed.

Lemma str_nil cs : str cs = "" -> cs = [].
Proof. by destruct cs. Qed.

(** X1: a condition written as a token, at least one whitespace character,
    an operator, any whitespace and a token -- the form f"{v} {op} {val}" in
    which [plot_data] hands conditions over -- parses to exactly that token,
    operator and token; text after the second token is ignored when it
    starts with whitespace. *)
Theorem parse_condition_spaced v ws1 op ws2 t rest :
  v <> [] -> Forall (fun c => is_space c = false) v ->
  ws1 <> [] -> Forall (fun c => is_space c = true) ws1 ->
  one_of "=<>" op = true ->
  Forall (fun c => is_space c = true) ws2 ->
  t <> [] -> Forall (fun c => is_space c = false) t ->
  match rest with [] => True | c :: _ => is_space c = true end ->
  parse_condition (str (v ++ ws1 ++ [op] ++ ws2 ++ t ++ rest))
  = Ok (str v, str [op], str t).
Proof.
  intros Hv Hvc Hw1 Hw1c Hop Hw2c Ht Htc Hrest.
  unfold parse_condition. rewrite chars_str.
  assert (re_match condition_pattern (v ++ ws1 ++ [op] ++ ws2 ++ t ++ rest)
          = Some [v; ws1; [op]; ws2; t]) as ->; [|done].
  unfold condition_pattern.
  apply re_match_step.
  { split; [by apply nonspace_class|]. split; [|intros ? [=]].
    destruct v; [done|simpl; lia]. }
  { apply span_exact; [by apply nonspace_class|intros ? [=]|].
    destruct ws1 as [|c ws1]; [done|]. apply Forall_cons in Hw1c as [Hc _].
    left. simpl. unfold is_nonspace. by rewrite Hc. }
  apply re_match_step.
  { split; [done|]. split; [simpl; lia|intros ? [=]]. }
  { apply span_exact; [done|intros ? [=]|]. left. simpl.
    by apply operator_not_space. }
  apply re_match_step.
  { split; [by repeat constructor|]. split; [simpl; lia|].
    intros ? [= <-]. simpl. lia. }
  { apply span_exact; [by repeat constructor|intros ? [= <-]; simpl; lia|].
    destruct (ws2 ++ t ++ rest); [done|by right]. }
  apply re_match_step.
  { split; [done|]. split; [simpl; lia|intros ? [=]]. }
  { apply span_exact; [done|intros ? [=]|].
    destruct t as [|c t]; [done|]. apply Forall_cons in Htc as [Hc _].
    by left. }
  apply re_match_step; [| |done].
  { split; [by apply nonspace_class|]. split; [|intros ? [=]].
    destruct t; [done|simpl; lia]. }
  { apply span_exact; [by apply nonspace_class|intros ? [=]|].
    destruct rest as [|c rest]; [done|]. left. simpl.
    unfold is_nonspace. by rewrite Hrest. }
Qed.

(** [parse_condition_spaced] on 'rout > 40e3', the first default condition
    of [plot_data]. *)
Lemma parse_condition_spaced_witness :
  parse_condition "rout > 40e3" = Ok ("rout", ">", "40e3").
Proof.
  apply (parse_condition_spaced (chars "rout") (chars " ") ">"%char
           (chars " ") (chars "40e3") []); try done; by repeat constructor.
Defined.

(** X2: what a successful parse returns.  The input is the first token,
    whitespace, the operator, whitespace, the second token and a rest; the
    tokens are non-empty and free of whitespace, the operator is one of =,
    <, >, and the rest is empty or starts with whitespace.  Among all ways to
    read a prefix of the input in that shape the parser takes the one with
    the longest first token. *)
Theorem parse_condition_greedy s v op t :
  parse_condition s = Ok (v, op, t) ->
  exists ws1 ws2 rest,
    chars s = chars v ++ ws1 ++ chars op ++ ws2 ++ chars t ++ rest
    /\ v <> "" /\ t <> ""
    /\ Forall (fun c => is_space c = false) (chars v)
    /\ Forall (fun c => is_space c = false) (chars t)
    /\ Forall (fun c => is_space c = true) ws1
    /\ Forall (fun c => is_space c = true) ws2
    /\ op ∈ ["="; "<"; ">"]
    /\ match rest with [] => True | c :: _ => is_space c = true end
    /\ (forall lhs' ws1' op' ws2' rhs' rest',
          chars s = lhs' ++ ws1' ++ [op'] ++ ws2' ++ rhs' ++ rest' ->
          Forall (fun c => is_space c = false) lhs' ->
          Forall (fun c => is_space c = true) ws1' ->
          one_of "=<>" op' = true ->
          Forall (fun c => is_space c = true) ws2' ->
          rhs' <> [] -> Forall (fun c => is_space c = false) rhs' ->
          (length lhs' <= length (chars v))%nat).
Proof.
  unfold parse_condition.
  destruct (re_match condition_pattern (chars s)) as [gs|] eqn:E; [|done].
  pose proof (re_match_sound _ _ _ E) as [Hall _].
  pose proof (re_match_last_greedy
                [plus is_nonspace; star is_space; once (one_of "=<>");
                 star is_space] (plus is_nonspace) _ _ eq_refl E)
    as (rest & Hs & Hrest).
  unfold condition_pattern in Hall.
  inversion Hall as [|? lhs ? ? A1 Hall1]; subst; clear Hall.
  inversion Hall1 as [|? ws1 ? ? A2 Hall2]; subst; clear Hall1.
  inversion Hall2 as [|? ops ? ? A3 Hall3]; subst; clear Hall2.
  inversion Hall3 as [|? ws2 ? ? A4 Hall4]; subst; clear Hall3.
  inversion Hall4 as [|? rhs ? ? A5 Hall5]; subst; clear Hall4.
  inversion Hall5; subst; clear Hall5.
  destruct A1 as (C1 & L1 & _), A2 as (C2 & _ & _), A3 as (C3 & L3 & U3),
    A4 as (C4 & _ & _), A5 as (C5 & L5 & _).
  simpl in C1, C2, C3, C4, C5, L1, L3, U3, L5, Hs, Hrest.
  specialize (U3 1%nat eq_refl).
  destruct ops as [|opc [|? ?]]; simpl in L3, U3; try lia.
  apply Forall_cons in C3 as [C3 _].
  intros [= <- <- <-]. exists ws1, ws2, rest. rewrite !chars_str.
  split.
  { rewrite Hs, app_nil_r. cbn [chars list_ascii_of_string].
    by rewrite <- !app_assoc. }
  split. { intros Hn. apply str_nil in Hn. subst. simpl in L1. lia. }
  split. { intros Hn. apply str_nil in Hn. subst. simpl in L5. lia. }
  split; [by apply class_nonspace|]. split; [by apply class_nonspace|].
  split; [done|]. split; [done|]. split; [by apply operator_text|].
  split.
  { destruct rest as [|c rest']; [done|]. unfold is_nonspace in Hrest.
    by apply negb_false_iff in Hrest. }
  intros lhs' ws1' op' ws2' rhs' rest' Hs' Hl' Hw1' Hop' Hw2' Hne' Hr'.
  destruct (decide (lhs' = [])) as [->|Hne0]; [simpl; lia|].
  apply (re_match_head_longest _ _ _ _ _ lhs' [ws1'; [op']; ws2'; rhs'] rest' E).
  - rewrite Hs'. cbn [List.concat]. by rewrite app_nil_r, <- !app_assoc.
  - split; [by apply nonspace_class|]. split; [|intros ? [=]].
    destruct lhs'; [done|simpl; lia].
  - repeat constructor; simpl; try done; try lia.
    + intros ? [= <-]. lia.
    + by apply nonspace_class.
    + destruct rhs'; [done|simpl; lia].
Qed.

(** [parse_condition_greedy] on "gm>=1": the first token takes the ">". *)
Lemma parse_condition_greedy_witness :
  exists ws1 ws2 rest,
    chars "gm>=1" = chars "gm>" ++ ws1 ++ chars "=" ++ ws2 ++ chars "1" ++ rest
    /\ "gm>" <> "" /\ "1" <> ""
    /\ Forall (fun c => is_space c = false) (chars "gm>")
    /\ Forall (fun c => is_space c = false) (chars "1")
    /\ Forall (fun c => is_space c = true) ws1
    /\ Forall (fun c => is_space c = true) ws2
    /\ "=" ∈ ["="; "<"; ">"]
    /\ match rest with [] => True | c :: _ => is_space c = true end
    /\ (forall lhs' ws1' op' ws2' rhs' rest',
          chars "gm>=1" = lhs' ++ ws1' ++ [op'] ++ ws2' ++ rhs' ++ rest' ->
          Forall (fun c => is_space c = false) lhs' ->
          Forall (fun c => is_space c = true) ws1' ->
          one_of "=<>" op' = true ->
          Forall (fun c => is_space c = true) ws2' ->
          rhs' <> [] -> Forall (fun c => is_space c = false) rhs' ->
          (length lhs' <= length (chars "gm>"))%nat).
Proof. apply (parse_condition_greedy "gm>=1" "gm>" "=" "1"). reflexivity. Defined.

End Greedy.

(* ===================================================================== *)
(** ** The SI decoder on every input                                      *)
(* ===================================================================== *)

Section Decoder.

Lemma dropwhile_nonspace l :
  Forall (fun c => is_space c = false) l -> dropwhile is_space l = l.
Proof. intros H. destruct H as [|c l Hc _]; [done|]. simpl. by rewrite Hc. Qed.

Lemma strip_nonspace l :
  Forall (fun c => is_space c = false) l -> strip l = l.
Proof.
  intros H. unfold strip. rewrite (dropwhile_nonspace l H).
  rewrite dropwhile_nonspace; [apply rev_involutive|].
  apply Forall_forall. intros c Hc. rewrite Forall_forall in H. apply H.
  apply list_elem_of_In. apply list_elem_of_In in Hc. by apply in_rev.
Qed.

Lemma digits_nonspace l :
  Forall (fun c => is_digit c = true) l ->
  Forall (fun c => is_space c = false) l.
Proof.
  intros H. eapply Forall_impl; [exact H|]. intros c Hc.
  by apply is_digit_not_space.
Qed.

(** [float] reads every text of the shape. *)
Lemma py_float_number sg d1 dot d2 :
  (sg = [] \/ sg = chars "-" \/ sg = chars "+") ->
  Forall (fun c => is_digit c = true) d1 ->
  (dot = [] \/ dot = chars ".") ->
  d2 <> [] -> Forall (fun c => is_digit c = true) d2 ->
  py_float (str (sg ++ d1 ++ dot ++ d2))
  = Some (Fin (number_value sg d1 dot d2)).
Proof.
  intros Hsg Hd1 Hdot Hne Hd2. unfold py_float. rewrite chars_str.
  rewrite strip_nonspace.
  2:{ rewrite !Forall_app. split; [|split; [|split]].
      - destruct Hsg as [->|[->| ->]]; by repeat constructor.
      - by apply digits_nonspace.
      - destruct Hdot as [->| ->]; by repeat constructor.
      - by apply digits_nonspace. }
  set (body := d1 ++ dot ++ d2).
  assert (exists c cs, body = c :: cs
                       /\ (is_digit c = true \/ c = "."%char)) as (c & cs & Hb & Hc).
  { subst body. destruct d1 as [|c d1].
    - destruct Hdot as [->| ->].
      + destruct d2 as [|c d2]; [done|]. apply Forall_cons in Hd2 as [? _].
        exists c, d2. split; [done|by left].
      + exists "."%char, d2. split; [done|by right].
    - apply Forall_cons in Hd1 as [? _]. exists c, (d1 ++ dot ++ d2).
      split; [done|by left]. }
  assert (take_sign (sg ++ body)
          = (bool_decide (sg = chars "-"), body)) as ->.
  { destruct Hsg as [->|[->| ->]]; [|done|done]. simpl. rewrite Hb.
    destruct Hc as [Hc| ->]; [|done].
    simpl. by rewrite !(is_digit_not_code c) by (done || lia). }
  cbv zeta.
  assert (forall w, Forall (fun d => is_digit d = false
                                     /\ d <> "."%char) (take 1 (chars w)) ->
            (str (map lower body) =? w) = false) as Hword.
  { intros w Hw. rewrite Hb. destruct w as [|d w]; [done|].
    simpl in Hw. apply Forall_cons in Hw as [[Hd Hd'] _]. simpl.
    assert (lower c = c) as ->.
    { destruct Hc as [Hc| ->]; [by apply is_digit_lower|done]. }
    destruct (Ascii.eqb_spec c d) as [->|]; [|done].
    destruct Hc as [Hc| ->]; [congruence|done]. }
  rewrite !Hword by (by repeat constructor). cbn [orb].
  unfold floatnumber, number_value. subst body.
  destruct Hdot as [->| ->].
  - rewrite app_nil_l.
    replace (d1 ++ d2) with ((d1 ++ d2) ++ []) at 1 by apply app_nil_r.
    rewrite digitpart_run;
      [|by destruct d1, d2|by apply Forall_app|done].
    destruct (d1 ++ d2) as [|c' l] eqn:E; [by destruct d1, d2|].
    cbn [exponent length]. rewrite app_nil_r.
    by destruct (bool_decide _).
  - assert (digitpart (d1 ++ chars "." ++ d2) = (d1, chars "." ++ d2)) as ->.
    { destruct d1 as [|c' d1']; [done|].
      apply digitpart_run; [done|done|by split]. }
    cbn [chars list_ascii_of_string app].
    change ((code "." =? 46)%N) with true. cbv iota.
    replace d2 with (d2 ++ []) at 1 by apply app_nil_r.
    rewrite digitpart_run by done.
    destruct d2 as [|c2 d2']; [done|].
    assert (match d1, c2 :: d2' with
            | [], [] => None
            | _, _ =>
                match exponent [] with
                | Some e =>
                    Some (inject_Z (digits_val (d1 ++ c2 :: d2'))
                          * pow10 (e - Z.of_nat (length (c2 :: d2'))))%Q
                | None => None
                end
            end
            = Some (inject_Z (digits_val (d1 ++ c2 :: d2'))
                    * pow10 (0 - Z.of_nat (length (c2 :: d2'))))%Q) as ->
      by (by destruct d1).
    by destruct (bool_decide _).
Qed.

(** The groups of a match of the number pattern. *)
Lemma number_match_groups s gs :
  re_match number_pattern s = Some gs ->
  exists sg d1 dot d2 u rest,
    gs = [sg; d1; dot; d2; u]
    /\ s = sg ++ d1 ++ dot ++ d2 ++ u ++ rest
    /\ (sg = [] \/ sg = chars "-" \/ sg = chars "+")
    /\ Forall (fun c => is_digit c = true) d1
    /\ (dot = [] \/ dot = chars ".")
    /\ d2 <> [] /\ Forall (fun c => is_digit c = true) d2
    /\ is_Some (dict_get units (str u)).
Proof.
  intros H. apply re_match_sound in H as [Hall [rest Hs]].
  unfold number_pattern in Hall.
  inversion Hall as [|? sg ? ? A1 Hall1]; subst; clear Hall.
  inversion Hall1 as [|? d1 ? ? A2 Hall2]; subst; clear Hall1.
  inversion Hall2 as [|? dot ? ? A3 Hall3]; subst; clear Hall2.
  inversion Hall3 as [|? d2 ? ? A4 Hall4]; subst; clear Hall3.
  inversion Hall4 as [|? u ? ? A5 Hall5]; subst; clear Hall4.
  inversion Hall5; subst; clear Hall5.
  pose proof (unit_group_known u A5) as Hu.
  destruct A1 as (C1 & _ & U1), A2 as (C2 & _ & _), A3 as (C3 & _ & U3),
    A4 as (C4 & L4 & _).
  simpl in C1, C2, C3, C4, U1, U3, L4.
  specialize (U1 1%nat eq_refl). specialize (U3 1%nat eq_refl).
  exists sg, d1, dot, d2, u, rest. split; [done|].
  split. { simpl. by rewrite app_nil_r, <- !app_assoc. }
  split.
  { destruct sg as [|c [|? ?]]; simpl in U1; [by left| |lia].
    apply Forall_cons in C1 as [C1 _]. apply one_of_elem in C1. simpl in C1.
    repeat (apply elem_of_cons in C1 as [->|C1]; [by auto|]).
    by apply elem_of_nil in C1. }
  split; [done|]. split.
  { destruct dot as [|c [|? ?]]; simpl in U3; [by left| |lia].
    apply Forall_cons in C3 as [C3 _]. apply one_of_elem in C3. simpl in C3.
    repeat (apply elem_of_cons in C3 as [->|C3]; [by auto|]).
    by apply elem_of_nil in C3. }
  split; [|done]. intros ->. simpl in L4. lia.
Qed.

(** What [parse_from_number] returns when the pattern matches. *)
Lemma parse_matched s gs :
  re_match number_pattern (chars s) = Some gs ->
  exists sg d1 dot d2 u rest scale,
    chars s = sg ++ d1 ++ dot ++ d2 ++ u ++ rest
    /\ (sg = [] \/ sg = chars "-" \/ sg = chars "+")
    /\ Forall (fun c => is_digit c = true) d1
    /\ (dot = [] \/ dot = chars ".")
    /\ d2 <> [] /\ Forall (fun c => is_digit c = true) d2
    /\ dict_get units (str u) = Some (Fin scale)
    /\ parse_from_number s = Ok (Fin (number_value sg d1 dot d2 * scale)).
Proof.
  intros E. unfold parse_from_number. rewrite E.
  destruct (number_match_groups _ _ E)
    as (sg & d1 & dot & d2 & u & rest & -> & Hs & Hsg & Hd1 & Hdot & Hne
        & Hd2 & [sc Hsc]).
  assert (exists scale, sc = Fin scale) as [scale ->].
  { unfold dict_get in Hsc.
    destruct (find _ units) as [[k v]|] eqn:F; [|done].
    injection Hsc as <-. apply find_some in F as [F _]. simpl.
    unfold units in F. simpl in F.
    repeat (destruct F as [[= <- <-]|F]; [by eexists|]). done. }
  exists sg, d1, dot, d2, u, rest, scale.
  rewrite !app_assoc, <- !(app_assoc sg), <- (app_assoc d1).
  rewrite py_float_number by done. rewrite Hsc. simpl.
  repeat split; try done. by rewrite Hs, <- !app_assoc.
Qed.

Lemma parse_from_number_error s e :
  parse_from_number s = Raise e -> e = ValueError "Invalid formatted value".
Proof.
  intros He. destruct (re_match number_pattern (chars s)) as [gs|] eqn:E.
  - destruct (parse_matched _ _ E) as (? & ? & ? & ? & ? & ? & ? & _ & _ & _
                                        & _ & _ & _ & _ & Hp).
    congruence.
  - unfold parse_from_number in He. rewrite E in He. by injection He as <-.
Qed.


End Decoder.

(* ===================================================================== *)
(** ** The SI formatter on every value                                    *)
(* ===================================================================== *)

Section Formatter.

Local Open Scope Q_scope.

(** The loop returns inside the table whenever the table has an "f". *)
Lemma format_loop_entry table value :
  Exists (fun e : string * xnum => e.1 = "f"%string) table ->
  exists u sc,
    (u, sc) ∈ table
    /\ format_loop table value = str (format_2f (xdiv value sc) ++ chars u).
Proof.
  induction table as [|[u sc] table IH]; intros Hex; [by inversion Hex|].
  cbn [format_loop].
  destruct (xgeb (xabs value) sc || (u =? "f")%string) eqn:E.
  - exists u, sc. split; [apply list_elem_of_here|done].
  - apply orb_false_iff in E as [_ E]. apply String.eqb_neq in E.
    apply Exists_cons in Hex as [Hex|Hex]; [done|].
    destruct (IH Hex) as (u' & sc' & Hin & Heq). exists u', sc'.
    split; [by apply list_elem_of_further|done].
Qed.

(** A value below every scale before "f" is written in femto. *)
Lemma format_loop_falls pre s post value :
  Forall (fun e : string * xnum => xgeb (xabs value) e.2 = false
                                   /\ e.1 <> "f"%string) pre ->
  format_loop (pre ++ ("f"%string, s) :: post) value
  = str (format_2f (xdiv value s) ++ chars "f").
Proof.
  induction 1 as [|[u sc] pre [Hlt Hu] _ IH]; cbn [app format_loop].
  - by rewrite orb_true_r.
  - simpl in Hlt, Hu. rewrite Hlt. apply String.eqb_neq in Hu. by rewrite Hu.
Qed.

Lemma si_table_femto :
  zip si_units si_scales
  = [("T"%string, sci 1 12); ("G"%string, sci 1 9); ("M"%string, sci 1 6);
     ("k"%string, sci 1 3); (""%string, Fin 1); ("m"%string, sci 1 (-3));
     ("u"%string, sci 1 (-6)); ("n"%string, sci 1 (-9));
     ("p"%string, sci 1 (-12))]
    ++ ("f"%string, sci 1 (-15)) :: [].
Proof. reflexivity. Qed.

Lemma format_small x :
  Qabs x < pow10 (-15) ->
  format_with_units (Fin x)
  = str (format_2f (xdiv (Fin x) (sci 1 (-15))) ++ chars "f").
Proof.
  intros Hx. unfold format_with_units. rewrite si_table_femto.
  apply format_loop_falls.
  repeat (constructor;
          [split; [|done]; unfold xgeb; cbn [xabs xleb snd sci];
           destruct (Qle_bool _ (Qabs x)) eqn:E; [|done];
           apply Qle_bool_iff in E; exfalso;
           apply (Qlt_irrefl (Qabs x));
           eapply Qlt_le_trans; [exact Hx|];
           eapply Qle_trans; [|exact E]; by vm_compute|]).
  constructor.
Qed.

(** X4: [format_with_units] never reaches its final [return]: the last
    entry of the table, "f", is taken unconditionally, so every value is
    written as a two-place mantissa and a unit of the table.  A value below
    1e-15 in magnitude is written in femto, zero as "0.00f"; nan as "nanf",
    the infinities as "infT" and "-infT". *)
Theorem format_with_units_always_scaled :
  (forall value, exists u sc,
      (u, sc) ∈ zip si_units si_scales
      /\ format_with_units value = str (format_2f (xdiv value sc) ++ chars u))
  /\ (forall x, Qabs x < pow10 (-15) ->
        format_with_units (Fin x)
        = str (format_2f (xdiv (Fin x) (sci 1 (-15))) ++ chars "f"))
  /\ format_with_units (Fin 0) = "0.00f"%string
  /\ format_with_units NaN = "nanf"%string
  /\ format_with_units PInf = "infT"%string
  /\ format_with_units NInf = "-infT"%string.
Proof.
  split; [|split; [|by repeat split]].
  - intros value. apply format_loop_entry. rewrite si_table_femto.
    apply Exists_app. right. by constructor.
  - intros x Hx. by apply format_small.
Qed.



End Formatter.

(* ===================================================================== *)
(** ** The constructor                                                    *)
(* ===================================================================== *)

Section Construction.

Implicit Types (F : DataFrame) (r : gmap string cell)
  (lr : nat * gmap string cell).

Lemma apply_parse_Ok (ws : list (nat * string)) (xs : list (nat * xnum)) :
  Forall2 (fun kv lx => lx.1 = kv.1 /\ parse_from_number kv.2 = Ok lx.2) ws xs ->
  apply_parse ws = Ok xs.
Proof.
  induction 1 as [|[l s] [l' x] ws xs [Hl Hx] _ IH]; [done|].
  simpl in *. subst l'. by rewrite Hx, IH.
Qed.

(** [self.df['W'] = self.df['W'].apply(parse_from_number)] on the frame. *)
Lemma convert_widths F :
  NoDup (labels F) -> width_texts F ->
  exists ws xs,
    getitem_str F "W" = Ok ws
    /\ apply_parse ws = Ok xs
    /\ setitem F "W" (list_to_map xs) = converted F.
Proof.
  intros Hnd [Hc Hall].
  exists ((fun lr => (lr.1, default "" (cell_str (lr.2 !! "W")))) <$> rows F),
    ((fun lr => (lr.1, width_of_text lr.2)) <$> rows F).
  split; [|split].
  - apply column_Ok. split; [done|].
    apply Forall2_fmap_r, Forall_Forall2_diag.
    eapply Forall_impl; [exact Hall|]. intros lr (s & x & Hs & _). simpl.
    by rewrite Hs.
  - apply apply_parse_Ok. apply Forall2_fmap, Forall_Forall2_diag.
    eapply Forall_impl; [exact Hall|]. intros lr (s & x & Hs & Hx). simpl.
    split; [done|]. unfold width_of_text. by rewrite Hs, Hx.
  - unfold converted.
    apply (setitem_rows F "W" _ (fun lr => width_of_text lr.2)).
    intros lr Hin. apply elem_of_list_to_map_1.
    + by rewrite <- list_fmap_compose.
    + apply list_elem_of_fmap. by exists lr.
Qed.

Lemma converted_labels F : labels (converted F) = labels F.
Proof. unfold labels, converted. simpl. apply labels_fmap. Qed.

Lemma converted_numeric F c :
  c <> "W" -> numeric F c -> numeric (converted F) c.
Proof.
  intros Hc Hn. unfold converted. apply numeric_fmap; [done| |].
  - apply add_column_elem. by destruct Hn.
  - intros lr _. by rewrite lookup_insert_ne.
Qed.

Lemma extended_labels F : labels (extended F) = labels F.
Proof. unfold labels, extended. simpl. apply labels_fmap. Qed.

Lemma extended_same_widths F : same_widths F (extended F).
Proof.
  unfold same_widths, extended. simpl.
  apply Forall2_fmap_r, Forall_Forall2_diag, Forall_forall.
  intros lr _. simpl. split; [done|]. unfold derived_specs.
  by rewrite !num_at_insert_ne.
Qed.

(** [add_specs_df] run forward. *)
Lemma run_add_specs_df w d Fd :
  self w !! "df" = Some (PyFrame d) ->
  self w !! "specs"
  = Some (PyList ["intrinsic_gain"; "ft"; "area"; "gmoverid"]) ->
  heap w !! d = Some Fd ->
  NoDup (labels Fd) ->
  numeric Fd "gm" -> numeric Fd "rout" -> numeric Fd "cgg" -> numeric Fd "id" ->
  add_specs_df w
  = (Ok (fresh (dom (heap w))),
     World (<[fresh (dom (heap w)) := extended Fd]> (heap w)) (self w)).
Proof.
  intros Hdf Hspecs Hd Hnd Hgm Hrout Hcgg Hid.
  destruct (derived_columns Fd Hnd Hgm Hrout Hcgg Hid)
    as ([Hgm1 Hcgg1] & [Hgm2 Hid2] & Hext).
  unfold add_specs_df.
  erewrite bind_ok;
    [|erewrite bind_ok; [|by apply run_attr_frame]; by apply run_derive].
  set (m := fresh (dom (heap w))). unfold id at 1.
  erewrite bind_ok; [|by apply run_attr_list].
  match goal with
  | |- context [bind (for_each ?xs ?body) _ ?w1] =>
      assert (for_each xs body w1
              = (Ok tt, World (<[m := extended Fd]> (heap w)) (self w)))
        as Hloop
  end.
  { rewrite !for_each_cons. simpl for_each.
    erewrite bind_ok.
    2:{ cbn [String.eqb Ascii.eqb Bool.eqb].
        erewrite bind_ok;
          [|eapply run_read_ok; [apply lookup_insert_eq|by apply getitem_numeric]].
        erewrite bind_ok;
          [|eapply run_read_ok; [apply lookup_insert_eq|by apply getitem_numeric]].
        eapply run_update. apply lookup_insert_eq. }
    simpl heap. rewrite insert_insert_eq.
    erewrite bind_ok.
    2:{ cbn [String.eqb Ascii.eqb Bool.eqb].
        erewrite bind_ok;
          [|eapply run_read_ok; [apply lookup_insert_eq|by apply getitem_numeric]].
        erewrite bind_ok;
          [|eapply run_read_ok; [apply lookup_insert_eq|by apply getitem_numeric]].
        eapply run_update. apply lookup_insert_eq. }
    simpl heap. rewrite insert_insert_eq.
    erewrite bind_ok; [|cbn [String.eqb Ascii.eqb Bool.eqb]; unfold ret; reflexivity].
    erewrite bind_ok.
    2:{ cbn [String.eqb Ascii.eqb Bool.eqb].
        erewrite bind_ok;
          [|eapply run_read_ok; [apply lookup_insert_eq|by apply getitem_numeric]].
        erewrite bind_ok;
          [|eapply run_read_ok; [apply lookup_insert_eq|by apply getitem_numeric]].
        eapply run_update. apply lookup_insert_eq. }
    simpl heap. rewrite insert_insert_eq. simpl self.
    unfold ret. by rewrite Hext. }
  erewrite bind_ok by exact Hloop. reflexivity.
Qed.

(** [__init__] run forward. *)
Lemma run_init w d F :
  heap w !! d = Some F ->
  NoDup (labels F) -> width_texts F ->
  numeric F "gm" -> numeric F "rout" -> numeric F "cgg" -> numeric F "id" ->
  let h1 := <[d := converted F]> (heap w) in
  let m := fresh (dom h1) in
  init d w
  = (Ok tt,
     World (<[m := extended (converted F)]> h1) (init_attrs d m (self w))).
Proof.
  intros Hd Hnd Hw Hgm Hrout Hcgg Hid h1 m.
  destruct (convert_widths F Hnd Hw) as (ws & xs & Hws & Hxs & Hconv).
  unfold init.
  erewrite bind_ok; [|unfold set_attr; reflexivity].
  erewrite bind_ok.
  2:{ erewrite bind_ok; [|apply run_attr_frame; apply lookup_insert_eq].
      erewrite bind_ok; [|eapply run_read_ok; [exact Hd|exact Hws]].
      erewrite bind_ok; [|unfold lift; by rewrite Hxs].
      erewrite bind_ok; [|apply run_attr_frame; apply lookup_insert_eq].
      eapply run_update. exact Hd. }
  cbn [heap self]. cbv beta. rewrite Hconv. fold h1.
  erewrite bind_ok; [|unfold set_attr; reflexivity].
  cbn [heap self]. cbv beta.
  erewrite bind_ok.
  2:{ erewrite bind_ok.
      2:{ eapply (run_add_specs_df _ d (converted F)).
          - simpl. rewrite lookup_insert_ne by done. apply lookup_insert_eq.
          - simpl. apply lookup_insert_eq.
          - simpl. apply lookup_insert_eq.
          - by rewrite converted_labels.
          - by apply converted_numeric.
          - by apply converted_numeric.
          - by apply converted_numeric.
          - by apply converted_numeric. }
      unfold set_attr. reflexivity. }
  cbn [heap self]. cbv beta. fold m.
  erewrite bind_ok; [|unfold set_attr; reflexivity].
  erewrite bind_ok; [|unfold set_attr; reflexivity].
  reflexivity.
Qed.

Lemma apply_parse_Raise (ws : list (nat * string)) :
  Exists (fun kv => exists e, parse_from_number kv.2 = Raise e) ws ->
  apply_parse ws = Raise (ValueError "Invalid formatted value").
Proof.
  induction ws as [|[l s] ws IH]; intros Hex; [by inversion Hex|].
  simpl. destruct (parse_from_number s) as [x|e] eqn:E; simpl.
  - apply Exists_cons in Hex as [[e He]|Hex]; [simpl in He; congruence|].
    by rewrite IH.
  - by rewrite (parse_from_number_error _ _ E).
Qed.

Lemma converted_not_text F :
  rows F <> [] -> getitem_str (converted F) "W" = Raise TypeError.
Proof.
  intros Hne. unfold getitem_str, column, converted. cbn [columns rows].
  rewrite bool_decide_eq_true_2 by apply add_column_here.
  destruct (rows F) as [|lr rest]; [done|]. simpl.
  by rewrite lookup_insert_eq.
Qed.

(** X6: [DF_OPS(df)] on a table whose column W holds SI-formatted text and
    whose columns gm, rout, cgg and id are numeric (row labels unique)
    succeeds.  It replaces the text in W by numbers in the caller's frame
    itself, binds [mod_df] to a new frame with the three derived columns,
    which has the labels and the widths of [df], sets [conditional_df] to 0
    and the two column lists, and touches no other frame. *)
Theorem init_constructs w d F :
  heap w !! d = Some F ->
  NoDup (labels F) -> width_texts F ->
  numeric F "gm" -> numeric F "rout" -> numeric F "cgg" -> numeric F "id" ->
  exists m w',
    init d w = (Ok tt, w')
    /\ heap w !! m = None
    /\ constructed w' d m (converted F) (extended (converted F))
    /\ NoDup (labels (extended (converted F)))
    /\ same_widths (converted F) (extended (converted F))
    /\ self w' !! "conditional_df" = Some (PyInt 0)
    /\ (forall l, l <> d -> l <> m -> heap w' !! l = heap w !! l).
Proof.
  intros Hd Hnd Hw Hgm Hrout Hcgg Hid.
  pose proof (run_init w d F Hd Hnd Hw Hgm Hrout Hcgg Hid) as Hrun.
  cbv zeta in Hrun.
  pose proof (fresh_lookup (<[d := converted F]> (heap w))) as Hm.
  set (m := fresh (dom (<[d := converted F]> (heap w)))) in *.
  assert (m <> d) as Hmd by (intros ->; by rewrite lookup_insert_eq in Hm).
  rewrite lookup_insert_ne in Hm by done.
  eexists m, _. split; [exact Hrun|]. split; [done|].
  split; [|split; [|split; [|split]]].
  - split; cbn [heap self]; unfold init_attrs;
      repeat first [apply lookup_insert_eq | rewrite lookup_insert_ne by done].
  - by rewrite extended_labels, converted_labels.
  - apply extended_same_widths.
  - cbn [self]. unfold init_attrs.
    repeat first [apply lookup_insert_eq | rewrite lookup_insert_ne by done].
  - intros l Hl Hl'. cbn [heap]. by rewrite !lookup_insert_ne by done.
Qed.

(** X7: the constructor converts the caller's frame in place, so a second
    [DF_OPS] made from the same frame object fails: column W no longer
    holds text, and [parse_from_number] applied to a number raises TypeError.
    The second call changes no frame. *)
Theorem second_init_raises w d F w' :
  heap w !! d = Some F ->
  NoDup (labels F) -> width_texts F ->
  numeric F "gm" -> numeric F "rout" -> numeric F "cgg" -> numeric F "id" ->
  rows F <> [] ->
  init d w = (Ok tt, w') ->
  heap w' !! d = Some (converted F)
  /\ exists w'', init d w' = (Raise TypeError, w'') /\ heap w'' = heap w'.
Proof.
  intros Hd Hnd Hw Hgm Hrout Hcgg Hid Hne Hrun.
  rewrite (run_init w d F Hd Hnd Hw Hgm Hrout Hcgg Hid) in Hrun.
  cbv zeta in Hrun. injection Hrun as Hw'.
  pose proof (fresh_lookup (<[d := converted F]> (heap w))) as Hm.
  set (m := fresh (dom (<[d := converted F]> (heap w)))) in *.
  assert (m <> d) as Hmd by (intros ->; by rewrite lookup_insert_eq in Hm).
  assert (heap w' !! d = Some (converted F)) as Hd'.
  { rewrite <- Hw'. cbn [heap]. by rewrite lookup_insert_ne, lookup_insert_eq. }
  split; [exact Hd'|].
  exists (World (heap w') (<["df" := PyFrame d]> (self w'))).
  split; [|done]. unfold init.
  erewrite bind_ok; [|unfold set_attr; reflexivity].
  erewrite bind_raise; [reflexivity|].
  erewrite bind_ok; [|apply run_attr_frame; apply lookup_insert_eq].
  erewrite bind_raise; [reflexivity|].
  rewrite (run_read d _ (converted F)) by exact Hd'.
  by rewrite converted_not_text.
Qed.

(** X8: when the constructor fails while it converts column W, the frame is
    as it was and only [self.df] has been bound: KeyError('W') when the
    table has no column W, ValueError("Invalid formatted value") when the
    column holds text and one of the texts is not a number with an optional
    SI suffix. *)
Theorem init_failure_keeps_frame w d F :
  heap w !! d = Some F ->
  ("W" ∉ columns F ->
   init d w
   = (Raise (KeyError "W"), World (heap w) (<["df" := PyFrame d]> (self w))))
  /\ ("W" ∈ columns F ->
      Forall (fun lr : nat * gmap string cell =>
                exists s, lr.2 !! "W" = Some (Str s)) (rows F) ->
      Exists (fun lr : nat * gmap string cell =>
                exists s e, lr.2 !! "W" = Some (Str s)
                            /\ parse_from_number s = Raise e) (rows F) ->
      init d w
      = (Raise (ValueError "Invalid formatted value"),
         World (heap w) (<["df" := PyFrame d]> (self w)))).
Proof.
  intros Hd. split.
  - intros Hc. unfold init.
    erewrite bind_ok; [|unfold set_attr; reflexivity].
    erewrite bind_raise; [reflexivity|].
    erewrite bind_ok; [|apply run_attr_frame; apply lookup_insert_eq].
    erewrite bind_raise; [reflexivity|].
    rewrite (run_read d _ F) by exact Hd. unfold getitem_str, column.
    by rewrite bool_decide_eq_false_2.
  - intros Hc Hall Hex. unfold init.
    erewrite bind_ok; [|unfold set_attr; reflexivity].
    erewrite bind_raise; [reflexivity|].
    erewrite bind_ok; [|apply run_attr_frame; apply lookup_insert_eq].
    erewrite bind_ok.
    2:{ eapply run_read_ok; [exact Hd|].
        apply (column_Ok cell_str F "W"
                 ((fun lr => (lr.1, default "" (cell_str (lr.2 !! "W"))))
                    <$> rows F)).
        split; [done|]. apply Forall2_fmap_r, Forall_Forall2_diag.
        eapply Forall_impl; [exact Hall|]. intros lr [s Hs]. simpl.
        by rewrite Hs. }
    erewrite bind_raise; [reflexivity|].
    unfold lift. rewrite apply_parse_Raise; [done|].
    apply Exists_fmap. eapply Exists_impl; [exact Hex|].
    intros lr (s & e & Hs & He). exists e. simpl. by rewrite Hs.
Qed.

End Construction.

(* ===================================================================== *)
(** ** [compute_conditional_df]: how it fails, and rows with nan          *)
(* ===================================================================== *)

Section ComputeErrors.

Lemma parse_condition_error s e :
  parse_condition s = Raise e ->
  e = ValueError ("Invalid condition format: " ++ s).
Proof.
  unfold parse_condition. intros H.
  repeat case_match; simplify_eq; done.
Qed.

Lemma map_m_parse_fail pre s post w :
  Forall (fun c => exists r, parse_condition c = Ok r) pre ->
  (exists e, parse_condition s = Raise e) ->
  map_m (fun cond => lift (parse_condition cond)) (pre ++ s :: post) w
  = (Raise (ValueError ("Invalid condition format: " ++ s)), w).
Proof.
  intros Hpre [e He]. induction Hpre as [|c pre [r Hr] _ IH]; simpl.
  - unfold bind at 1, lift at 1. rewrite He.
    by rewrite (parse_condition_error _ _ He).
  - unfold bind at 1, lift at 1. rewrite Hr. unfold bind at 1. by rewrite IH.
Qed.

(** X9: a condition that does not parse stops [compute_conditional_df]
    before it touches anything: the call raises ValueError("Invalid
    condition format: ...") for the first such condition and the object,
    the result of an earlier call included, is as it was. *)
Theorem compute_rejects_malformed pre s post p a b w :
  Forall (fun c => exists r, parse_condition c = Ok r) pre ->
  (exists e, parse_condition s = Raise e) ->
  compute_conditional_df (pre ++ s :: post) p a b w
  = (Raise (ValueError ("Invalid condition format: " ++ s)), w).
Proof.
  intros Hpre Hs. unfold compute_conditional_df.
  erewrite bind_raise; [reflexivity|]. by apply map_m_parse_fail.
Qed.

(** [compute_rejects_malformed] on a list whose second condition lacks an
    operator. *)
Lemma compute_rejects_malformed_witness :
  compute_conditional_df (["gm=2e-3"] ++ "rout 40e3" :: ["region=2"])
    default_tolerance_percent default_WoverL_min default_Wmax example_world
  = (Raise (ValueError ("Invalid condition format: " ++ "rout 40e3")),
     example_world).
Proof.
  apply (compute_rejects_malformed ["gm=2e-3"] "rout 40e3" ["region=2"]).
  - repeat constructor. eexists. vm_compute. reflexivity.
  - eexists. vm_compute. reflexivity.
Defined.

Lemma fold_m_app {A S} (body : S -> A -> M S) s xs ys w :
  fold_m body s (xs ++ ys) w
  = (let! s' := fold_m body s xs in fold_m body s' ys) w.
Proof.
  revert s w. induction xs as [|x xs IH]; intros s w; [done|].
  cbn [app fold_m]. unfold bind at 1 2 3.
  destruct (body s x w) as [[s'|e] w1]; [|done]. apply IH.
Qed.

Lemma run_self_getitem a c l F s w :
  self w !! a = Some (PyFrame l) -> heap w !! l = Some F ->
  getitem F c = Ok s -> self_getitem a c w = (Ok s, w).
Proof.
  intros Ha Hl Hs. unfold self_getitem.
  erewrite bind_ok by (by apply run_attr_frame).
  by apply run_read_ok with F.
Qed.

Lemma run_float_raise s w :
  py_float s = None ->
  float s w = (Raise (ValueError "could not convert string to float"), w).
Proof. intros H. unfold float. by rewrite H. Qed.

(** The first loop stops at a resizable condition whose value [float]
    cannot read. *)
Lemma resize_body_bad_literal a b flag v op tok w d m Fd Fm :
  constructed w d m Fd Fm ->
  resizable v -> py_float tok = None ->
  numeric Fm "W" -> numeric Fm v ->
  exists w1,
    resize_body a b flag (v, op, tok) w
    = (Raise (ValueError "could not convert string to float"), w1)
    /\ self w1 = self w /\ heap w ⊆ heap w1.
Proof.
  intros [Hd Hm Hp Hi Hhd Hhm] Hv Htok HW Hcol. unfold resize_body.
  erewrite bind_ok;
    [|erewrite bind_ok; [|by apply run_attr_frame]; by apply run_derive].
  set (w1 := World _ _).
  assert (heap w1 !! m = Some Fm) as Hm1.
  { subst w1. simpl. apply lookup_insert_old; [apply fresh_lookup|done]. }
  exists w1. split; [|split; [done|]].
  2:{ subst w1. simpl. apply insert_subseteq, fresh_lookup. }
  erewrite bind_ok; [|by apply run_attr_list].
  erewrite bind_raise; [reflexivity|].
  destruct (in_list v ["cgg"; "gm"; "gmb"; "id"]) eqn:E.
  - erewrite bind_ok;
      [|by eapply run_self_getitem; [exact Hm|exact Hm1|apply getitem_numeric]].
    erewrite bind_raise; [reflexivity|]. by apply run_float_raise.
  - erewrite bind_ok; [|by apply run_attr_list].
    assert (in_list v ["rout"] = true) as ->.
    { destruct (resizable_cases v Hv) as [[_ E']|[-> _]]; [congruence|done]. }
    erewrite bind_ok;
      [|by eapply run_self_getitem; [exact Hm|exact Hm1|apply getitem_numeric]].
    erewrite bind_ok;
      [|by eapply run_self_getitem; [exact Hm|exact Hm1|apply getitem_numeric]].
    erewrite bind_raise; [reflexivity|]. by apply run_float_raise.
Qed.

(** A failure of the first loop at the first resizable condition: the
    call raises what the loop body raises; by then the stored result has
    been replaced by a new table without rows. *)
Lemma compute_stops_in_first_loop
    conditions pre cond post p a b w d m Fd Fm ex :
  constructed w d m Fd Fm ->
  Forall2 (fun s c => parse_condition s = Ok c) conditions
          (pre ++ cond :: post) ->
  Forall (fun c : string * string * string => ~ resizable c.1.1) pre ->
  (forall w2, constructed w2 d m Fd Fm ->
              exists w3, resize_body a b false cond w2 = (Raise ex, w3)
                         /\ self w3 = self w2 /\ heap w2 ⊆ heap w3) ->
  exists w' e,
    compute_conditional_df conditions p a b w = (Raise ex, w')
    /\ heap w !! e = None
    /\ self w' !! "conditional_df" = Some (PyFrame e)
    /\ heap w' !! e = Some (Frame (columns Fm) [])
    /\ heap w' !! m = Some Fm.
Proof.
  intros Hc Hparse Hpre Hbody.
  pose proof Hc as [Hd Hm Hp Hi Hhd Hhm].
  set (e := fresh (dom (heap w))).
  pose proof (fresh_lookup (heap w)) as He. fold e in He.
  assert (e <> m) as Hem by congruence.
  assert (e <> d) as Hed by congruence.
  set (w1 := World (<[e := Frame (columns Fm) []]> (heap w))
                   (<["conditional_df" := PyFrame e]> (self w))).
  assert (constructed w1 d m Fd Fm) as Hc1.
  { subst w1. split; simpl; rewrite ?lookup_insert_ne; done. }
  destruct (resize_loop_filters a b false pre w1 _ _ _ _ Hc1 Hpre)
    as (w2 & Hrun & Hs & Hh).
  assert (constructed w2 d m Fd Fm) as Hc2.
  { destruct Hc1. split; rewrite ?Hs; try done; by eapply lookup_weaken. }
  destruct (Hbody w2 Hc2) as (w3 & Hrun3 & Hs3 & Hh3).
  exists w3, e. split; [|split; [done|split; [|split]]].
  - unfold compute_conditional_df.
    erewrite bind_ok by (by apply map_m_parse).
    erewrite bind_ok.
    2:{ erewrite bind_ok; [|by apply run_attr_frame].
        erewrite bind_ok; [|by eapply run_read_ok].
        unfold bind, alloc, set_attr. fold e. reflexivity. }
    fold w1. erewrite bind_raise; [reflexivity|].
    rewrite fold_m_app. erewrite bind_ok by exact Hrun.
    cbn [fold_m]. erewrite bind_raise; [reflexivity|]. exact Hrun3.
  - rewrite Hs3, Hs. subst w1. simpl. apply lookup_insert_eq.
  - eapply lookup_weaken; [|exact Hh3]. eapply lookup_weaken; [|exact Hh].
    subst w1. simpl. apply lookup_insert_eq.
  - by destruct (proj1 (conj Hc2 I)) as [_ _ _ _ _ ?]; eapply lookup_weaken.
Qed.

(** X10: the value of a resizable condition must be text that [float]
    reads: an SI suffix as in "gm = 2m" is not accepted.  Such a condition
    (after conditions that only filter) makes [compute_conditional_df] raise
    the ValueError of [float]; by then the stored result has been replaced
    by a new table without rows, and the base table is untouched. *)
Theorem compute_rejects_bad_literal
    conditions pre v op tok post p a b w d m Fd Fm :
  constructed w d m Fd Fm ->
  Forall2 (fun s c => parse_condition s = Ok c) conditions
          (pre ++ (v, op, tok) :: post) ->
  Forall (fun c : string * string * string => ~ resizable c.1.1) pre ->
  resizable v -> py_float tok = None ->
  numeric Fm "W" -> numeric Fm v ->
  exists w' e,
    compute_conditional_df conditions p a b w
    = (Raise (ValueError "could not convert string to float"), w')
    /\ heap w !! e = None
    /\ self w' !! "conditional_df" = Some (PyFrame e)
    /\ heap w' !! e = Some (Frame (columns Fm) [])
    /\ heap w' !! m = Some Fm.
Proof.
  intros Hc Hparse Hpre Hv Htok HW Hcol.
  apply (compute_stops_in_first_loop conditions pre (v, op, tok) post
           p a b w d m Fd Fm _ Hc Hparse Hpre).
  intros w2 Hc2. by apply (resize_body_bad_literal a b false v op tok w2 d m Fd Fm).
Qed.



End ComputeErrors.

(* ===================================================================== *)
(** ** [add_specs_df] on a table that lacks a column                      *)
(* ===================================================================== *)

Section MissingColumn.

Lemma numeric_setitem F c c' s :
  c <> c' -> numeric F c -> numeric (setitem F c' s) c.
Proof.
  intros Hc [Hin Hn]. unfold setitem, setitem_with. split; simpl.
  - by apply add_column_elem.
  - apply Forall_fmap. eapply Forall_impl; [exact Hn|].
    intros lr H. simpl. by rewrite lookup_insert_ne.
Qed.

Lemma setitem_new_column F c c' s :
  c <> c' -> c ∉ columns F -> c ∉ columns (setitem F c' s).
Proof.
  intros Hc Hn. unfold setitem, setitem_with, add_column. simpl.
  case_bool_decide; [done|]. rewrite elem_of_app, list_elem_of_singleton.
  by intros [?|?].
Qed.

Lemma getitem_missing F c : c ∉ columns F -> getitem F c = Raise (KeyError c).
Proof.
  intros H. unfold getitem, column. by rewrite bool_decide_eq_false_2.
Qed.

(** X12: [add_specs_df] raises KeyError for the first column it needs and
    the table lacks, in the order gm, rout, cgg, id; [df] and the
    attributes are as they were (the derived columns computed so far are in
    a copy that is dropped). *)
Theorem add_specs_df_missing_column w d Fd c :
  self w !! "df" = Some (PyFrame d) ->
  self w !! "specs"
  = Some (PyList ["intrinsic_gain"; "ft"; "area"; "gmoverid"]) ->
  heap w !! d = Some Fd ->
  c ∉ columns Fd ->
  (c = "gm"
   \/ (c = "rout" /\ numeric Fd "gm")
   \/ (c = "cgg" /\ numeric Fd "gm" /\ numeric Fd "rout")
   \/ (c = "id" /\ numeric Fd "gm" /\ numeric Fd "rout" /\ numeric Fd "cgg")) ->
  (add_specs_df w).1 = Raise (KeyError c)
  /\ self (add_specs_df w).2 = self w
  /\ heap (add_specs_df w).2 !! d = Some Fd.
Proof.
  intros Hdf Hspecs Hd Hc Hcase.
  pose proof (fresh_lookup (heap w)) as Hm.
  set (m := fresh (dom (heap w))) in *.
  assert (m <> d) as Hmd by congruence.
  assert (exists F', add_specs_df w
                     = (Raise (KeyError c), World (<[m := F']> (heap w)) (self w)))
    as [F' ->].
  2:{ simpl. by rewrite lookup_insert_ne. }
  unfold add_specs_df.
  erewrite bind_ok;
    [|erewrite bind_ok; [|by apply run_attr_frame]; by apply run_derive].
  fold m. unfold id at 1.
  erewrite bind_ok; [|by apply run_attr_list].
  rewrite !for_each_cons. cbn [String.eqb Ascii.eqb Bool.eqb].
  destruct Hcase as [->|[[-> Hgm]|[(-> & Hgm & Hrout)|(-> & Hgm & Hrout & Hcgg)]]].
  - eexists. erewrite bind_raise; [reflexivity|].
    erewrite bind_raise; [reflexivity|].
    erewrite bind_raise; [reflexivity|].
    rewrite (run_read m _ Fd) by apply lookup_insert_eq.
    by rewrite getitem_missing.
  - eexists. erewrite bind_raise; [reflexivity|].
    erewrite bind_raise; [reflexivity|].
    erewrite bind_ok;
      [|eapply run_read_ok; [apply lookup_insert_eq|by apply getitem_numeric]].
    erewrite bind_raise; [reflexivity|].
    rewrite (run_read m _ Fd) by apply lookup_insert_eq.
    by rewrite getitem_missing.
  - eexists. erewrite bind_raise; [reflexivity|].
    erewrite bind_ok.
    2:{ erewrite bind_ok;
          [|eapply run_read_ok; [apply lookup_insert_eq|by apply getitem_numeric]].
        erewrite bind_ok;
          [|eapply run_read_ok; [apply lookup_insert_eq|by apply getitem_numeric]].
        eapply run_update. apply lookup_insert_eq. }
    cbn [heap self]. rewrite insert_insert_eq.
    erewrite bind_raise; [reflexivity|].
    erewrite bind_ok.
    2:{ eapply run_read_ok; [apply lookup_insert_eq|].
        apply getitem_numeric. by apply numeric_setitem. }
    erewrite bind_raise; [reflexivity|].
    erewrite run_read by apply lookup_insert_eq.
    rewrite getitem_missing; [done|]. by apply setitem_new_column.
  - eexists. erewrite bind_raise; [reflexivity|].
    erewrite bind_ok.
    2:{ erewrite bind_ok;
          [|eapply run_read_ok; [apply lookup_insert_eq|by apply getitem_numeric]].
        erewrite bind_ok;
          [|eapply run_read_ok; [apply lookup_insert_eq|by apply getitem_numeric]].
        eapply run_update. apply lookup_insert_eq. }
    cbn [heap self]. rewrite insert_insert_eq.
    erewrite bind_ok.
    2:{ erewrite bind_ok.
        2:{ eapply run_read_ok; [apply lookup_insert_eq|].
            apply getitem_numeric. by apply numeric_setitem. }
        erewrite bind_ok.
        2:{ eapply run_read_ok; [apply lookup_insert_eq|].
            apply getitem_numeric. by apply numeric_setitem. }
        eapply run_update. apply lookup_insert_eq. }
    cbn [heap self]. rewrite insert_insert_eq.
    erewrite bind_ok; [|unfold ret; reflexivity].
    erewrite bind_raise; [reflexivity|].
    erewrite bind_ok.
    2:{ eapply run_read_ok; [apply lookup_insert_eq|].
        apply getitem_numeric. apply numeric_setitem; [done|].
        by apply numeric_setitem. }
    erewrite bind_raise; [reflexivity|].
    erewrite run_read by apply lookup_insert_eq.
    rewrite getitem_missing; [done|].
    apply setitem_new_column; [done|]. by apply setitem_new_column.
Qed.

End MissingColumn.

Section MissingVariable.

Lemma run_self_getitem_raise a c l F e w :
  self w !! a = Some (PyFrame l) -> heap w !! l = Some F ->
  getitem F c = Raise e -> self_getitem a c w = (Raise e, w).
Proof.
  intros Ha Hl Hs. unfold self_getitem.
  erewrite bind_ok by (by apply run_attr_frame).
  by rewrite (run_read l _ F w Hl), Hs.
Qed.

(** The first loop stops at a resizable condition on a column the base
    table lacks. *)
Lemma resize_body_missing_variable a b flag v op tok t w d m Fd Fm :
  constructed w d m Fd Fm ->
  resizable v -> py_float tok = Some t ->
  numeric Fm "W" -> v ∉ columns Fm ->
  exists w1,
    resize_body a b flag (v, op, tok) w = (Raise (KeyError v), w1)
    /\ self w1 = self w /\ heap w ⊆ heap w1.
Proof.
  intros [Hd Hm Hp Hi Hhd Hhm] Hv Htok HW Hcol. unfold resize_body.
  erewrite bind_ok;
    [|erewrite bind_ok; [|by apply run_attr_frame]; by apply run_derive].
  set (w1 := World _ _).
  assert (heap w1 !! m = Some Fm) as Hm1.
  { subst w1. simpl. apply lookup_insert_old; [apply fresh_lookup|done]. }
  exists w1. split; [|split; [done|]].
  2:{ subst w1. simpl. apply insert_subseteq, fresh_lookup. }
  erewrite bind_ok; [|by apply run_attr_list].
  erewrite bind_raise; [reflexivity|].
  destruct (in_list v ["cgg"; "gm"; "gmb"; "id"]) eqn:E.
  - erewrite bind_ok;
      [|by eapply run_self_getitem; [exact Hm|exact Hm1|apply getitem_numeric]].
    erewrite bind_ok; [|unfold float; rewrite Htok; reflexivity].
    erewrite bind_raise; [reflexivity|].
    eapply run_self_getitem_raise; [exact Hm|exact Hm1|].
    by apply getitem_missing.
  - erewrite bind_ok; [|by apply run_attr_list].
    assert (in_list v ["rout"] = true) as ->.
    { destruct (resizable_cases v Hv) as [[_ E']|[-> _]]; [congruence|done]. }
    erewrite bind_ok;
      [|by eapply run_self_getitem; [exact Hm|exact Hm1|apply getitem_numeric]].
    erewrite bind_raise; [reflexivity|].
    eapply run_self_getitem_raise; [exact Hm|exact Hm1|].
    by apply getitem_missing.
Qed.

(** X13: a condition on a resizable variable whose column the table lacks
    (after conditions that only filter, and with a value [float] reads)
    makes [compute_conditional_df] raise KeyError for that column; by then
    the stored result has been replaced by a new table without rows, and
    the base table is untouched. *)
Theorem compute_rejects_missing_variable
    conditions pre v op tok t post p a b w d m Fd Fm :
  constructed w d m Fd Fm ->
  Forall2 (fun s c => parse_condition s = Ok c) conditions
          (pre ++ (v, op, tok) :: post) ->
  Forall (fun c : string * string * string => ~ resizable c.1.1) pre ->
  resizable v -> py_float tok = Some t ->
  numeric Fm "W" -> v ∉ columns Fm ->
  exists w' e,
    compute_conditional_df conditions p a b w = (Raise (KeyError v), w')
    /\ heap w !! e = None
    /\ self w' !! "conditional_df" = Some (PyFrame e)
    /\ heap w' !! e = Some (Frame (columns Fm) [])
    /\ heap w' !! m = Some Fm.
Proof.
  intros Hc Hparse Hpre Hv Htok HW Hcol.
  apply (compute_stops_in_first_loop conditions pre (v, op, tok) post
           p a b w d m Fd Fm _ Hc Hparse Hpre).
  intros w2 Hc2.
  by apply (resize_body_missing_variable a b false v op tok t w2 d m Fd Fm).
Qed.

End MissingVariable.

Section ResultShape.

Implicit Types (F : DataFrame) (r : gmap string cell)
  (lr : nat * gmap string cell).

Lemma foldl_add_column_elem cs cols c :
  c ∈ cols -> c ∈ foldl add_column cols cs.
Proof.
  revert cols. induction cs as [|c0 cs IH]; intros cols H; [done|].
  simpl. by apply IH, add_column_elem.
Qed.

Ltac open_result H x E :=
  match type of H with
  | result_bind ?r _ = Ok _ =>
      destruct r as [x|] eqn:E; [cbn [result_bind] in H|discriminate H]
  end.

(** The frame a resizable condition appends has the columns of the base
    table and the column "condition". *)
Lemma resize_frame_columns prop inv a b v t Fm Fd T :
  resize_frame prop inv a b v t Fm Fd = Ok T ->
  forall c, c ∈ columns Fm \/ c = "condition" -> c ∈ columns T.
Proof.
  intros H c Hc. unfold resize_frame in H.
  open_result H w EW. open_result H g Eg. cbv zeta in H.
  set (T1 := setitem Fm "W" _) in *.
  set (T2 := setitem_scalar T1 _ _) in *.
  open_result H w2 Ew2. set (T3 := select T2 _) in *.
  open_result H w3 Ew3. open_result H l3 El3.
  set (T4 := select T3 _) in *.
  open_result H s4 Es4. open_result H w4 Ew4. open_result H w0 Ew0.
  open_result H m4 Em4. set (T5 := setitems T4 prop m4) in *.
  open_result H s5 Es5. open_result H w5 Ew5.
  repeat match type of H with
         | result_bind ?r _ = Ok _ =>
             destruct r eqn:?; [cbn [result_bind] in H|discriminate H]
         end.
  injection H as <-.
  simpl. do 2 apply foldl_add_column_elem.
  destruct Hc as [Hc| ->]; [|apply add_column_here].
  by do 2 apply add_column_elem.
Qed.

Lemma renumbered_concat Fm A T :
  renumbered Fm A -> renumbered Fm (pd_concat A T).
Proof.
  intros [_ Hc]. split.
  - unfold labels, pd_concat. simpl.
    rewrite (labels_imap (fun lr => fill _ lr.2)).
    by rewrite length_imap.
  - intros c Hin. unfold pd_concat. simpl. apply elem_of_app. left. auto.
Qed.

Lemma concat_columns_r A T c : c ∈ columns T -> c ∈ columns (pd_concat A T).
Proof.
  intros H. unfold pd_concat. simpl. apply elem_of_app.
  destruct (decide (c ∈ columns A)); [by left|right].
  by apply list_elem_of_filter.
Qed.

Lemma concat_columns_l A T c : c ∈ columns A -> c ∈ columns (pd_concat A T).
Proof. intros H. unfold pd_concat. simpl. apply elem_of_app. by left. Qed.

Lemma resize_loop_shape a b d m Fd Fm parsed :
  forall flag w c Acc flag' w',
    constructed w d m Fd Fm ->
    self w !! "conditional_df" = Some (PyFrame c) ->
    heap w !! c = Some Acc ->
    renumbered Fm Acc ->
    (flag = true -> "condition" ∈ columns Acc) ->
    fold_m (resize_body a b) flag parsed w = (Ok flag', w') ->
    exists c' Acc',
      self w' !! "conditional_df" = Some (PyFrame c')
      /\ heap w' !! c' = Some Acc'
      /\ renumbered Fm Acc'
      /\ (flag' = true -> "condition" ∈ columns Acc').
Proof.
  induction parsed as [|[[v op] tok] parsed IH];
    intros flag w c Acc flag' w' Hcon Hc Hhc Hre Hfl H.
  - injection H as <- <-. by exists c, Acc.
  - cbn [fold_m] in H. apply bind_inv_ok in H as (flag1 & w1 & Hbody & H).
    destruct (decide (resizable v)) as [Hres|Hres].
    + destruct (resize_body_resizable a b flag v op tok w d m Fd Fm c Acc
                  flag1 w1 Hcon Hc Hhc Hres Hbody)
        as (t & T & c1 & Ht & HT & -> & Hcon1 & Hc1 & Hhc1).
      apply (IH true w1 c1 (pd_concat Acc T) flag' w' Hcon1 Hc1 Hhc1);
        [by apply renumbered_concat| |done].
      intros _. apply concat_columns_r.
      eapply resize_frame_columns; [exact HT|by right].
    + destruct (resize_body_filter a b flag (v, op, tok) w _ _ _ _ Hcon Hres)
        as (w1' & Hrun & Hs & Hh).
      rewrite Hrun in Hbody. injection Hbody as <- <-.
      assert (constructed w1' d m Fd Fm) as Hcon1.
      { destruct Hcon. split; rewrite ?Hs; try done; by eapply lookup_weaken. }
      apply (IH flag w1' c Acc flag' w' Hcon1);
        [by rewrite Hs|by eapply lookup_weaken|done|done|done].
Qed.

Lemma contributions_length a b Fm parsed :
  (length (contributions a b Fm parsed)
   <= length parsed * length (rows Fm))%nat.
Proof.
  induction parsed as [|[[v op] tok] parsed IH]; [done|].
  rewrite contributions_cons, length_app. simpl length at 3.
  assert (length (contributions a b Fm [(v, op, tok)]) <= length (rows Fm))%nat;
    [|lia].
  unfold contributions. simpl. rewrite app_nil_r.
  destruct (in_list v _); [|simpl; lia].
  destruct (py_float tok); [|simpl; lia].
  rewrite length_fmap. apply length_filter.
Qed.

(** X14: the table a successful [compute_conditional_df] leaves in
    [conditional_df] is indexed 0, 1, ..., n-1, has every column of [mod_df]
    and the columns "condition", "area" and "met_specs", and has at most one
    row per pair of a condition and a row of [mod_df]. *)
Theorem result_table_shape conditions p a b w d m Fd Fm w' :
  constructed w d m Fd Fm ->
  NoDup (labels Fm) -> same_widths Fd Fm ->
  compute_conditional_df conditions p a b w = (Ok tt, w') ->
  exists c F,
    self w' !! "conditional_df" = Some (PyFrame c)
    /\ heap w' !! c = Some F
    /\ labels F = seq 0 (length (rows F))
    /\ (forall x, x ∈ columns Fm ++ ["condition"; "area"; "met_specs"] ->
                  x ∈ columns F)
    /\ (length (rows F) <= length conditions * length (rows Fm))%nat.
Proof.
  intros Hcon Hnd Hsame H.
  destruct (compute_result conditions p a b w d m Fd Fm w' Hcon Hnd Hsame H)
    as (parsed0 & c0 & F0 & Hparsed0 & Hc0 & Hh0 & _ & Hrows0).
  pose proof Hcon as [Hd Hm Hp Hi Hhd Hhm].
  unfold compute_conditional_df in H.
  apply bind_inv_ok in H as (parsed & w0 & Hparse & H).
  apply map_m_parse_inv in Hparse as [-> Hparse].
  erewrite bind_ok in H.
  2:{ erewrite bind_ok; [|by apply run_attr_frame].
      erewrite bind_ok; [|by eapply run_read_ok].
      unfold bind, alloc, set_attr. reflexivity. }
  pose proof (fresh_lookup (heap w)) as He.
  generalize dependent (fresh (dom (heap w))). intros e H He.
  set (w1 := World _ _) in H.
  assert (constructed w1 d m Fd Fm) as Hcon1.
  { subst w1. split; simpl; rewrite ?lookup_insert_ne; try done;
      intros ->; congruence. }
  apply bind_inv_ok in H as (flag & w2 & Hloop & H).
  destruct (resize_loop_shape a b d m Fd Fm parsed false w1 e
              (Frame (columns Fm) []) flag w2 Hcon1)
    as (c & Acc & Hc & Hhc & [HlA HcA] & Hcond);
    [apply lookup_insert_eq|apply lookup_insert_eq|by split|done|done|].
  clear Hloop Hcon1 w1 He.
  apply bind_inv_ok in H as ([] & w3 & Harea & H).
  erewrite bind_ok in Harea; [|by apply run_attr_frame].
  apply bind_inv_ok in Harea as (sw & w4 & Hsw & Harea).
  eapply read_inv in Hsw as [Hsw ->]; [|exact Hhc].
  erewrite bind_ok in Harea; [|by apply run_attr_frame].
  apply bind_inv_ok in Harea as (sl & w4 & Hsl & Harea).
  eapply read_inv in Hsl as [Hsl ->]; [|exact Hhc].
  erewrite bind_ok in Harea; [|by apply run_attr_frame].
  erewrite run_update in Harea by exact Hhc. injection Harea as <-.
  destruct flag; [|discriminate H]. cbn [negb] in H.
  set (F1 := setitem Acc "area" _) in *.
  assert (labels F1 = labels Acc) as Hl1.
  { subst F1. unfold setitem. by rewrite labels_setitem_with. }
  erewrite bind_ok in H.
  2:{ erewrite bind_ok; [|by apply run_attr_frame].
      eapply run_update. simpl. apply lookup_insert_eq. }
  simpl heap in H. simpl self in H. rewrite insert_insert_eq in H.
  destruct (match_loop p parsed
              (World (<[c := setitem_scalar F1 "met_specs" (Bool true)]> (heap w2))
                     (self w2))
              c (setitem_scalar F1 "met_specs" (Bool true)) (rows F1) [] w' Hc)
    as (F & -> & Hrows' & _ & Hcols); [apply lookup_insert_eq| |done|exact H|].
  { unfold setitem_scalar. rewrite labels_setitem_with, Hl1, HlA.
    apply NoDup_seq. }
  simpl in Hc0, Hh0. rewrite Hc in Hc0. injection Hc0 as <-.
  rewrite lookup_insert_eq in Hh0. injection Hh0 as <-.
  exists c, F. split; [done|]. split; [apply lookup_insert_eq|].
  assert (forall x, x ∈ columns Acc -> x ∈ columns F) as Hup.
  { intros x Hx. apply Hcols. simpl. by do 2 apply add_column_elem. }
  split; [|split].
  - assert (labels F = labels F1) as ->.
    { unfold labels. rewrite Hrows', <- list_fmap_compose.
      by apply list_fmap_ext. }
    rewrite Hl1, HlA, Hrows', length_fmap. f_equal.
    subst F1. unfold setitem, setitem_with. simpl. by rewrite length_fmap.
  - intros x Hx. apply elem_of_app in Hx as [Hx|Hx]; [by apply Hup, HcA|].
    apply elem_of_cons in Hx as [->|Hx]; [by apply Hup, Hcond|].
    apply elem_of_cons in Hx as [->|Hx].
    { apply Hcols. simpl. apply add_column_elem, add_column_here. }
    apply elem_of_cons in Hx as [->|Hx]; [|by apply elem_of_nil in Hx].
    apply Hcols. simpl. apply add_column_here.
  - rewrite (Forall2_length _ _ _ Hrows0).
    rewrite (Forall2_length _ _ _ Hparsed0).
    apply contributions_length.
Qed.

End ResultShape.

(* ===================================================================== *)
(** ** main_app.py: plot_with_conditions                                  *)
(* ===================================================================== *)

Section Plotting.

Lemma where_rows_columns F p : columns (where_rows F p) = columns F.
Proof. done. Qed.

Lemma raw_column_Ok F c :
  c ∈ columns F -> exists xs, raw_column F c = Ok xs.
Proof. intros H. unfold raw_column. rewrite bool_decide_eq_true_2 by done. eauto. Qed.

Lemma selection_without_hue df c pot hue thr dir :
  truthy hue = false ->
  plot_selection df c pot hue thr dir
  = Ok (if pot then where_rows df (fun r => cell_is_true (r !! c)) else df).
Proof. intros H. unfold plot_selection. by rewrite H. Qed.

(** X15: without a hue variable (None or "", the state of the form when
    nothing is chosen) [plot_with_conditions] never returns normally.  When
    the condition column is missing it raises ValueError and leaves the
    figure alone; otherwise it clears the figure, adds the axes and then
    fails on reading the local variable [norm], which only the hue branch
    assigns: UnboundLocalError, provided the two axis columns exist and the
    two library calls succeed.  Nothing is drawn. *)
Theorem plot_without_hue_never_draws
    (lib : matplotlib) df axes c tc fc pot fs ts hue cmap thr dir :
  truthy hue = false ->
  (forall g, exists e g',
      plot_with_conditions lib df axes c tc fc pot fs ts hue cmap thr dir g
      = (Fails e, g'))
  /\ (c ∉ columns df ->
      forall g,
        plot_with_conditions lib df axes c tc fc pot fs ts hue cmap thr dir g
        = (Fails (Raised (ValueError ("Condition column '" ++ c
                                      ++ "' does not exist in the DataFrame"))),
           g))
  /\ (c ∈ columns df -> axes.1 ∈ columns df -> axes.2 ∈ columns df ->
      forall g g1 g2 ax,
        fig_clf lib g = (Done tt, g1) ->
        add_subplot lib g1 = (Done ax, g2) ->
        plot_with_conditions lib df axes c tc fc pot fs ts hue cmap thr dir g
        = (Fails (UnboundLocalError "norm"), g2)).
Proof.
  intros Hhue. destruct axes as [x_axis y_axis].
  unfold plot_with_conditions. rewrite Hhue. cbn [andb].
  rewrite (selection_without_hue _ _ _ _ _ _ Hhue).
  set (df1 := if pot then _ else df).
  assert (columns df1 = columns df) as Hcols by (subst df1; by destruct pot).
  unfold in_list. split; [|split].
  - intros g. case_bool_decide as Hc; cbn [negb]; [|unfold pfail; eauto].
    unfold pbind at 1. cbn [plift]. unfold pbind at 1. cbn [pret].
    unfold pbind at 1. destruct (fig_clf lib g) as [[[]|e] g1]; [|eauto].
    unfold pbind at 1. destruct (add_subplot lib g1) as [[ax|e] g2]; [|eauto].
    unfold pbind at 1, raw_column at 1. rewrite Hcols.
    case_bool_decide; cbn [plift]; [|eauto].
    unfold pbind at 1, raw_column at 1. rewrite Hcols.
    case_bool_decide; cbn [plift]; [|eauto].
    unfold pfail. eauto.
  - intros Hc g. by rewrite bool_decide_eq_false_2.
  - intros Hc Hx Hy g g1 g2 ax Hclf Hax. simpl in Hx, Hy.
    rewrite bool_decide_eq_true_2 by done. cbn [negb].
    unfold pbind at 1. cbn [plift]. unfold pbind at 1. cbn [pret].
    unfold pbind at 1. rewrite Hclf.
    unfold pbind at 1. rewrite Hax.
    unfold pbind at 1, raw_column at 1. rewrite Hcols.
    rewrite bool_decide_eq_true_2 by done. cbn [plift].
    unfold pbind at 1, raw_column at 1. rewrite Hcols.
    rewrite bool_decide_eq_true_2 by done. cbn [plift].
    done.
Qed.

Local Open Scope Q_scope.













End Plotting.

(* ===================================================================== *)
(** ** The properties above on the example                                *)
(* ===================================================================== *)

Section ExampleConstruction.

(** The example table, before [DF_OPS] is made from it. *)
Lemma example_table_ready :
  let w := World {[ 1%positive := example_table ]} ∅ in
  heap w !! 1%positive = Some example_table
  /\ NoDup (labels example_table) /\ width_texts example_table
  /\ numeric example_table "gm" /\ numeric example_table "rout"
  /\ numeric example_table "cgg" /\ numeric example_table "id".
Proof.
  intros w. split; [reflexivity|]. split.
  { unfold labels. apply (bool_decide_unpack (NoDup _)). vm_compute. exact I. }
  split.
  { split; [decide_by_computation|].
    repeat constructor; eexists _, _; split; vm_compute; reflexivity. }
  repeat split; try decide_by_computation;
    repeat constructor; vm_compute; eexists; reflexivity.
Defined.

(** [init_constructs] on the example table. *)
Lemma init_constructs_witness :
  let w := World {[ 1%positive := example_table ]} ∅ in
  exists m w',
    init 1 w = (Ok tt, w')
    /\ heap w !! m = None
    /\ constructed w' 1 m (converted example_table)
         (extended (converted example_table))
    /\ NoDup (labels (extended (converted example_table)))
    /\ same_widths (converted example_table)
         (extended (converted example_table))
    /\ self w' !! "conditional_df" = Some (PyInt 0)
    /\ (forall l, l <> 1%positive -> l <> m -> heap w' !! l = heap w !! l).
Proof.
  intros w.
  destruct example_table_ready as (H1 & H2 & H3 & H4 & H5 & H6 & H7).
  exact (init_constructs w 1 example_table H1 H2 H3 H4 H5 H6 H7).
Defined.

(** [second_init_raises] on the example table. *)
Lemma second_init_raises_witness :
  heap example_world !! 1%positive = Some (converted example_table)
  /\ exists w'', init 1 example_world = (Raise TypeError, w'')
                 /\ heap w'' = heap example_world.
Proof.
  destruct example_table_ready as (H1 & H2 & H3 & H4 & H5 & H6 & H7).
  apply (second_init_raises (World {[ 1%positive := example_table ]} ∅) 1
           example_table example_world H1 H2 H3 H4 H5 H6 H7).
  - discriminate.
  - vm_compute. reflexivity.
Defined.

(** [init_failure_keeps_frame] on a table without column W and on a table
    whose width is not a number. *)
Lemma init_failure_keeps_frame_witness :
  let F1 := Frame ["L"; "gm"] [] in
  let F2 := Frame ["W"] [(0%nat, {[ "W" := Str "wide" ]})] in
  init 1 (World {[ 1%positive := F1 ]} ∅)
  = (Raise (KeyError "W"),
     World {[ 1%positive := F1 ]} (<["df" := PyFrame 1]> ∅))
  /\ init 1 (World {[ 1%positive := F2 ]} ∅)
     = (Raise (ValueError "Invalid formatted value"),
        World {[ 1%positive := F2 ]} (<["df" := PyFrame 1]> ∅)).
Proof.
  intros F1 F2.
  assert (heap (World {[ 1%positive := F1 ]} ∅) !! 1%positive = Some F1) as H1
    by reflexivity.
  assert (heap (World {[ 1%positive := F2 ]} ∅) !! 1%positive = Some F2) as H2
    by reflexivity.
  split.
  - apply (proj1 (init_failure_keeps_frame _ 1 F1 H1)).
    decide_by_computation.
  - apply (proj2 (init_failure_keeps_frame _ 1 F2 H2)).
    + decide_by_computation.
    + repeat constructor. by eexists.
    + constructor. eexists _, _. split; vm_compute; reflexivity.
Defined.

End ExampleConstruction.

Section ExampleRuns.

Lemma example_mod_df_numeric :
  numeric example_mod_df "W" /\ numeric example_mod_df "gm".
Proof. split; apply numericb_numeric; vm_compute; reflexivity. Defined.

(** [compute_rejects_bad_literal] on the example, for "gm=2m" after a
    condition that only filters. *)
Lemma compute_rejects_bad_literal_witness :
  py_float "2m" = None
  /\ exists w' e,
       compute_conditional_df ["region=2"; "gm=2m"] default_tolerance_percent
         default_WoverL_min default_Wmax example_world
       = (Raise (ValueError "could not convert string to float"), w')
       /\ heap example_world !! e = None
       /\ self w' !! "conditional_df" = Some (PyFrame e)
       /\ heap w' !! e = Some (Frame (columns example_mod_df) [])
       /\ heap w' !! 2%positive = Some example_mod_df.
Proof.
  split; [vm_compute; reflexivity|].
  apply (compute_rejects_bad_literal ["region=2"; "gm=2m"]
           [("region", "=", "2")] "gm" "=" "2m" []
           default_tolerance_percent default_WoverL_min default_Wmax
           example_world 1 2 example_df example_mod_df example_constructed).
  - repeat constructor; vm_compute; reflexivity.
  - repeat constructor. simpl. intros H. apply resizable_in_list in H.
    discriminate H.
  - apply resizable_in_list. reflexivity.
  - vm_compute. reflexivity.
  - exact (proj1 example_mod_df_numeric).
  - exact (proj2 example_mod_df_numeric).
Defined.


(** [result_table_shape] on the example. *)
Lemma result_table_shape_witness :
  let w' := (compute_conditional_df ["gm=2e-3"; "region<2"]
               default_tolerance_percent default_WoverL_min default_Wmax
               example_world).2 in
  exists c F,
    self w' !! "conditional_df" = Some (PyFrame c)
    /\ heap w' !! c = Some F
    /\ labels F = seq 0 (length (rows F))
    /\ (forall x, x ∈ columns example_mod_df
                      ++ ["condition"; "area"; "met_specs"] ->
                  x ∈ columns F)
    /\ (length (rows F)
        <= length ["gm=2e-3"; "region<2"] * length (rows example_mod_df))%nat.
Proof.
  intros w'.
  apply (result_table_shape ["gm=2e-3"; "region<2"]
           default_tolerance_percent default_WoverL_min default_Wmax
           example_world 1 2 example_df example_mod_df w'
           example_constructed (proj2 example_labels) example_same_widths).
  subst w'. apply with_final_world. vm_compute. reflexivity.
Defined.

(** [add_specs_df_missing_column] on a table without column rout. *)
Lemma add_specs_df_missing_column_witness :
  let F := Frame ["W"; "gm"] [(0%nat, {[ "W" := Num (Fin 1);
                                         "gm" := Num (Fin 2) ]})] in
  let w := World {[ 1%positive := F ]}
             {[ "df" := PyFrame 1;
                "specs" := PyList ["intrinsic_gain"; "ft"; "area";
                                   "gmoverid"] ]} in
  (add_specs_df w).1 = Raise (KeyError "rout")
  /\ self (add_specs_df w).2 = self w
  /\ heap (add_specs_df w).2 !! 1%positive = Some F.
Proof.
  intros F w.
  assert (self w !! "df" = Some (PyFrame 1)) as H1 by reflexivity.
  assert (self w !! "specs"
          = Some (PyList ["intrinsic_gain"; "ft"; "area"; "gmoverid"])) as H2
    by reflexivity.
  assert (heap w !! 1%positive = Some F) as H3 by reflexivity.
  apply (add_specs_df_missing_column w 1 F "rout" H1 H2 H3).
  - decide_by_computation.
  - right. left. split; [done|]. apply numericb_numeric. vm_compute.
    reflexivity.
Defined.

(** [plot_without_hue_never_draws] on the example, with library calls that
    all succeed. *)
Lemma plot_without_hue_never_draws_witness :
  plot_with_conditions silent_matplotlib example_mod_df ("gm", "id")
    "region" "green" "red" false (sci 1 (-1)) (Fin 10) None (Some "viridis")
    None (Some "down") tt
  = (Fails (UnboundLocalError "norm"), tt).
Proof.
  assert ("region" ∈ columns example_mod_df) as Hc by decide_by_computation.
  assert ("gm" ∈ columns example_mod_df) as Hx by decide_by_computation.
  assert ("id" ∈ columns example_mod_df) as Hy by decide_by_computation.
  exact (proj2 (proj2 (plot_without_hue_never_draws silent_matplotlib
                         example_mod_df ("gm", "id") "region" "green" "red"
                         false (sci 1 (-1)) (Fin 10) None (Some "viridis")
                         None (Some "down") eq_refl))
           Hc Hx Hy tt tt tt tt eq_refl eq_refl).
Defined.


(** [compute_rejects_missing_variable] for a condition on gmb. *)
Lemma compute_rejects_missing_variable_witness :
  exists w' e,
    compute_conditional_df ["region=2"; "gmb=1e-3"] default_tolerance_percent
      default_WoverL_min default_Wmax bare_world
    = (Raise (KeyError "gmb"), w')
    /\ heap bare_world !! e = None
    /\ self w' !! "conditional_df" = Some (PyFrame e)
    /\ heap w' !! e = Some (Frame (columns bare_mod_df) [])
    /\ heap w' !! 2%positive = Some bare_mod_df.
Proof.
  assert (constructed bare_world 1 2 bare_df bare_mod_df) as Hc
    by (split; vm_compute; reflexivity).
  apply (compute_rejects_missing_variable ["region=2"; "gmb=1e-3"]
           [("region", "=", "2")] "gmb" "=" "1e-3" (sci 1 (-3)) []
           default_tolerance_percent default_WoverL_min default_Wmax
           bare_world 1 2 bare_df bare_mod_df Hc).
  - repeat constructor; vm_compute; reflexivity.
  - repeat constructor. simpl. intros H. apply resizable_in_list in H.
    discriminate H.
  - apply resizable_in_list. reflexivity.
  - vm_compute. reflexivity.
  - apply numericb_numeric. vm_compute. reflexivity.
  - decide_by_computation.
Defined.

End ExampleRuns.
